(** * scalpingtrainer: indicators, strategy signals, position ledger, runner

    A shallow embedding of the trading core of the repository
    (ai_trading_strategies.py, position_service.py, main.py,
    multi_symbol_service.py, ai_trading_engine.py, trading_config.py,
    real_trading_service.py) and the properties its specification states
    about it, followed by further properties of the code.

    Conventions of the embedding.
    - Python numbers (int and float alike) are exact rationals [Q]; rounding
      is not modelled.  Comparisons are numeric ([Qeq_bool], [Qle_bool]),
      as [==], [<=] are in Python.
    - Python exceptions are values of [result]: a function that can raise
      returns [Raise e], and [x ← m; k] propagates it.
    - Indices, periods and lengths are [Z], with Python's rules for negative
      indices and for slices written out.
    - The database session is an explicit store passed through each call. *)

From Stdlib Require Import QArith Qabs Lqa Qfield Ascii String.
From stdpp Require Import gmap strings list fin_maps.

Open Scope Q_scope.

(** ** Python's evaluation rules *)

Module Py.

Inductive exn : Set :=
  | ZeroDivisionError
  | IndexError
  | ValueError
  | IntegrityError.

Inductive result (A : Type) : Type :=
  | Ok (a : A)
  | Raise (e : exn).

Arguments Ok {A} a.
Arguments Raise {A} e.

#[global] Instance result_ret : MRet result := λ A a, Ok a.

#[global] Instance result_bind : MBind result := λ A B f m,
  match m with
  | Ok a => f a
  | Raise e => Raise e
  end.

#[global] Instance result_fmap : FMap result := λ A B f m,
  match m with
  | Ok a => Ok (f a)
  | Raise e => Raise e
  end.

(** A loop that threads an accumulator: [for x in l: acc = f(acc, x)]. *)
Fixpoint foldM {A B : Type} (f : B → A → result B) (l : list A) (acc : B)
  : result B :=
  match l with
  | [] => Ok acc
  | x :: l' => acc' ← f acc x; foldM f l' acc'
  end.

Definition Qltb (x y : Q) : bool := negb (Qle_bool y x).

(** [len(l)] *)
Definition len {A : Type} (l : list A) : Z := Z.of_nat (length l).

(** [a / b] on numbers: raises on a zero divisor. *)
Definition truediv (a b : Q) : result Q :=
  if Qeq_bool b 0 then Raise ZeroDivisionError else Ok (a / b).

(** [range(a, b)] *)
Definition range (a b : Z) : list Z :=
  (λ k : nat, (a + Z.of_nat k)%Z) <$> seq 0 (Z.to_nat (b - a)).

(** [[x] * k]: empty when [k <= 0]. *)
Definition times {A : Type} (x : A) (k : Z) : list A :=
  replicate (Z.to_nat k) x.

(** A slice bound: a negative bound counts from the end, and both ends are
    clamped to the list. *)
Definition clamp (n i : Z) : Z :=
  if (i <? 0)%Z then Z.max 0 (i + n) else Z.min i n.

(** [l[a:b]] *)
Definition slice {A : Type} (l : list A) (a b : Z) : list A :=
  let a' := clamp (len l) a in
  let b' := clamp (len l) b in
  take (Z.to_nat (b' - a')) (drop (Z.to_nat a') l).

(** [l[i]]: a negative index counts from the end; out of range raises. *)
Definition getitem {A : Type} (l : list A) (i : Z) : result A :=
  let j := if (i <? 0)%Z then (i + len l)%Z else i in
  if (j <? 0)%Z then Raise IndexError
  else match l !! Z.to_nat j with
       | Some x => Ok x
       | None => Raise IndexError
       end.

(** [l[i] = x] *)
Definition setitem {A : Type} (l : list A) (i : Z) (x : A) : result (list A) :=
  let j := if (i <? 0)%Z then (i + len l)%Z else i in
  if (j <? 0)%Z then Raise IndexError
  else if (j <? len l)%Z then Ok (<[Z.to_nat j := x]> l)
  else Raise IndexError.

(** [sum(l)]: starts from 0 and adds from the left. *)
Definition sum (l : list Q) : Q := fold_left Qplus l 0.

(** [max(l)], [min(l)]: the first extremal element; raise on an empty list. *)
Definition max_list (l : list Q) : result Q :=
  match l with
  | [] => Raise ValueError
  | x :: l' => Ok (fold_left (λ m y, if Qltb m y then y else m) l' x)
  end.

Definition min_list (l : list Q) : result Q :=
  match l with
  | [] => Raise ValueError
  | x :: l' => Ok (fold_left (λ m y, if Qltb y m then y else m) l' x)
  end.

(** [max(a, b, c)] *)
Definition max3 (a b c : Q) : Q :=
  fold_left (λ m y, if Qltb m y then y else m) [b; c] a.

(** The computation returns: it raises nothing. *)
Definition returns {A : Type} (m : result A) : Prop := ∃ a, m = Ok a.

End Py.

Import Py.

(** ** ai_trading_strategies.py: class TechnicalIndicators *)

Module TechnicalIndicators.

Definition sma (data : list Q) (period : Z) : result (list Q) :=
  if (len data <? period)%Z then Ok (times 0 (len data))
  else
    mapM (λ i : Z,
            if (i <? period - 1)%Z then Ok 0
            else truediv (sum (slice data (i - period + 1) (i + 1)))
                         (inject_Z period))
         (range 0 (len data)).

Definition ema (data : list Q) (period : Z) : result (list Q) :=
  if (len data <? period)%Z then Ok (times 0 (len data))
  else
    multiplier ← truediv 2 (inject_Z (period + 1));
    seed ← truediv (sum (slice data 0 period)) (inject_Z period);
    result0 ← setitem (times 0 (len data)) (period - 1) seed;
    foldM (λ res i,
             d ← getitem data i;
             prev ← getitem res (i - 1);
             setitem res i (d * multiplier + prev * (1 - multiplier)))
          (range period (len data)) result0.

(** One iteration of the main loop of [rsi]. *)
Definition rsi_at (avg_gains avg_losses : list Q) (i : Z) : result Q :=
  flat ← (if (i <? len avg_losses)%Z
          then al ← getitem avg_losses i; Ok (Qeq_bool al 0)
          else Ok false);
  if flat : bool then Ok 100
  else if (i <? len avg_losses)%Z && (i <? len avg_gains)%Z then
    ag ← getitem avg_gains i;
    al ← getitem avg_losses i;
    rs ← truediv ag al;
    q ← truediv 100 (1 + rs);
    Ok (100 - q)
  else Ok 50.

Definition rsi (data : list Q) (period : Z) : result (list Q) :=
  if (len data <? period + 1)%Z then Ok (times 50 (len data))
  else
    deltas ← mapM (λ i : Z, a ← getitem data i; b ← getitem data (i - 1);
                            Ok (a - b))
                  (range 1 (len data));
    let gains := (λ d : Q, if Qltb 0 d then d else 0) <$> deltas in
    let losses := (λ d : Q, if Qltb d 0 then - d else 0) <$> deltas in
    avg_gains ← sma gains period;
    avg_losses ← sma losses period;
    rest ← mapM (rsi_at avg_gains avg_losses) (range period (len data));
    Ok (times 50 period ++ rest).

Definition macd (data : list Q) (fast slow signal : Z)
  : result (list Q * list Q * list Q) :=
  ema_fast ← ema data fast;
  ema_slow ← ema data slow;
  macd_line ← mapM (λ i : Z, a ← getitem ema_fast i; b ← getitem ema_slow i;
                             Ok (a - b))
                   (range 0 (len data));
  signal_line ← ema macd_line signal;
  histogram ← mapM (λ i : Z, a ← getitem macd_line i;
                             b ← getitem signal_line i; Ok (a - b))
                   (range 0 (len data));
  Ok (macd_line, signal_line, histogram).

Section Bollinger.

(** [np.std] is numpy's population standard deviation; it is not part of the
    repository and involves a square root, so it is taken as given. *)
Variable np_std : list Q → Q.

Definition bollinger_bands (data : list Q) (period : Z) (std_dev : Q)
  : result (list Q * list Q * list Q) :=
  sma_ ← sma data period;
  bands ← mapM (λ i : Z,
                  if (i <? period - 1)%Z then
                    d ← getitem data i; Ok (d, d)
                  else
                    let std := np_std (slice data (i - period + 1) (i + 1)) in
                    m ← getitem sma_ i;
                    Ok (m + std * std_dev, m - std * std_dev))
               (range 0 (len data));
  Ok (bands.*1, sma_, bands.*2).

End Bollinger.

(** One iteration of the loop of [stochastic]. *)
Definition stochastic_at (high low close : list Q) (k_period i : Z)
  : result Q :=
  if (i <? k_period - 1)%Z then Ok 50
  else
    highest_high ← max_list (slice high (i - k_period + 1) (i + 1));
    lowest_low ← min_list (slice low (i - k_period + 1) (i + 1));
    if negb (Qeq_bool highest_high lowest_low) then
      c ← getitem close i;
      q ← truediv (c - lowest_low) (highest_high - lowest_low);
      Ok (q * 100)
    else Ok 50.

Definition stochastic (high low close : list Q) (k_period d_period : Z)
  : result (list Q * list Q) :=
  k_percent ← mapM (stochastic_at high low close k_period)
                   (range 0 (len close));
  d_percent ← sma k_percent d_period;
  Ok (k_percent, d_percent).

(** The true range of bar [i], as both [atr] and [adx] compute it. *)
Definition true_range (high low close : list Q) (i : Z) : result Q :=
  h ← getitem high i;
  l ← getitem low i;
  pc ← getitem close (i - 1);
  Ok (max3 (h - l) (Qabs (h - pc)) (Qabs (l - pc))).

Definition atr (high low close : list Q) (period : Z) : result (list Q) :=
  if (len high <? 2)%Z then Ok (times 0 (len high))
  else
    true_ranges ← mapM (true_range high low close) (range 1 (len high));
    avg ← sma true_ranges period;
    Ok (times 0 (len high - len true_ranges) ++ avg).

(** One iteration of the loop of [williams_r]. *)
Definition williams_r_at (high low close : list Q) (period i : Z)
  : result Q :=
  if (i <? period - 1)%Z then Ok (-50)
  else
    highest_high ← max_list (slice high (i - period + 1) (i + 1));
    lowest_low ← min_list (slice low (i - period + 1) (i + 1));
    if negb (Qeq_bool highest_high lowest_low) then
      c ← getitem close i;
      q ← truediv (highest_high - c) (highest_high - lowest_low);
      Ok (q * -100)
    else Ok (-50).

Definition williams_r (high low close : list Q) (period : Z)
  : result (list Q) :=
  mapM (williams_r_at high low close period) (range 0 (len close)).

(** [(high[j] + low[j] + close[j]) / 3] *)
Definition typical_price (high low close : list Q) (j : Z) : result Q :=
  h ← getitem high j;
  l ← getitem low j;
  c ← getitem close j;
  Ok ((h + l + c) / 3).

(** [sma_tp] of the window that ends at [i]. *)
Definition cci_sma_tp (high low close : list Q) (period i : Z) : result Q :=
  tps ← mapM (typical_price high low close) (range (i - period + 1) (i + 1));
  truediv (sum tps) (inject_Z period).

(** [mean_deviation] of the window that ends at [i]. *)
Definition cci_mean_deviation (high low close : list Q) (period i : Z)
                              (sma_tp : Q) : result Q :=
  devs ← mapM (λ j : Z, tp ← typical_price high low close j;
                        Ok (Qabs (tp - sma_tp)))
              (range (i - period + 1) (i + 1));
  truediv (sum devs) (inject_Z period).

(** One iteration of the loop of [cci]. *)
Definition cci_at (high low close : list Q) (period i : Z) : result Q :=
  if (i <? period - 1)%Z then Ok 0
  else
    tp ← typical_price high low close i;
    sma_tp ← cci_sma_tp high low close period i;
    mean_deviation ← cci_mean_deviation high low close period i sma_tp;
    if Qeq_bool mean_deviation 0 then Ok 0
    else truediv (tp - sma_tp) (0.015 * mean_deviation).

Definition cci (high low close : list Q) (period : Z) : result (list Q) :=
  mapM (cci_at high low close period) (range 0 (len close)).

(** The directional movements [(dm_plus[i-1], dm_minus[i-1])] of bar [i]. *)
Definition adx_dm (high low : list Q) (i : Z) : result (Q * Q) :=
  hi ← getitem high i;
  hp ← getitem high (i - 1);
  lp ← getitem low (i - 1);
  li ← getitem low i;
  let high_diff := hi - hp in
  let low_diff := lp - li in
  Ok (if Qltb low_diff high_diff && Qltb 0 high_diff then high_diff else 0,
      if Qltb high_diff low_diff && Qltb 0 low_diff then low_diff else 0).

(** The directional indicators [(di_plus[i], di_minus[i])]. *)
Definition adx_di (dm_plus dm_minus tr_values : list Q) (period i : Z)
  : result (Q * Q) :=
  if (i <? period - 1)%Z then Ok (0, 0)
  else
    dm_plus_sma ← truediv (sum (slice dm_plus (i - period + 1) (i + 1)))
                          (inject_Z period);
    dm_minus_sma ← truediv (sum (slice dm_minus (i - period + 1) (i + 1)))
                           (inject_Z period);
    tr_sma ← truediv (sum (slice tr_values (i - period + 1) (i + 1)))
                     (inject_Z period);
    if Qeq_bool tr_sma 0 then Ok (0, 0)
    else
      p ← truediv dm_plus_sma tr_sma;
      m ← truediv dm_minus_sma tr_sma;
      Ok (p * 100, m * 100).

(** [dx] at index [i]: the ratio is taken only when the sum of the
    directional indicators is positive. *)
Definition adx_dx (di_plus di_minus : list Q) (i : Z) : result Q :=
  p ← getitem di_plus i;
  m ← getitem di_minus i;
  if Qltb 0 (p + m) then
    q ← truediv (Qabs (p - m)) (p + m); Ok (q * 100)
  else Ok 0.

(** One iteration of the last loop of [adx]: appends to [adx_values]. *)
Definition adx_step (di_plus di_minus : list Q) (period : Z)
                    (adx_values : list Q) (i : Z) : result (list Q) :=
  if (i <? period - 1)%Z then Ok (adx_values ++ [0])
  else
    dx ← adx_dx di_plus di_minus i;
    if (i =? period - 1)%Z then Ok (adx_values ++ [dx])
    else
      prev ← getitem adx_values (-1);
      v ← truediv (prev * inject_Z (period - 1) + dx) (inject_Z period);
      Ok (adx_values ++ [v]).

Definition adx (high low close : list Q) (period : Z) : result (list Q) :=
  if (len high <? 2)%Z then Ok (times 0 (len high))
  else
    dm ← mapM (adx_dm high low) (range 1 (len high));
    let dm_plus := dm.*1 in
    let dm_minus := dm.*2 in
    tr_values ← mapM (true_range high low close) (range 1 (len high));
    di ← mapM (adx_di dm_plus dm_minus tr_values period)
              (range 0 (len dm_plus));
    let di_plus := di.*1 in
    let di_minus := di.*2 in
    foldM (adx_step di_plus di_minus period) (range 0 (len di_plus))
          (times 0 (len high - len di_plus)).

End TechnicalIndicators.

(** ** ai_trading_strategies.py: the strategy classes *)

Module Strategies.

Import TechnicalIndicators.

(** A value of a numpy float: numpy's division by zero yields an infinity or
    a NaN (with a warning) where Python's raises. *)
Inductive npfloat : Set :=
  | Num (q : Q)
  | Inf (positive : bool)
  | NaN.

(** [a / b] on numpy floats. *)
Definition np_div (a b : Q) : npfloat :=
  if Qeq_bool b 0 then
    (if Qltb 0 a then Inf true else if Qltb a 0 then Inf false else NaN)
  else Num (a / b).

(** [v < q] and [v > q] for a numpy float: false on NaN. *)
Definition np_lt (v : npfloat) (q : Q) : bool :=
  match v with
  | Num x => Qltb x q
  | Inf positive => negb positive
  | NaN => false
  end.

Definition np_gt (v : npfloat) (q : Q) : bool :=
  match v with
  | Num x => Qltb q x
  | Inf positive => positive
  | NaN => false
  end.

(** A candle: the keys of the dictionary that [analyze_market] reads;
    ['volume'] may be absent. *)
Record Candle : Set := mkCandle {
  c_open : Q;
  c_high : Q;
  c_low : Q;
  c_close : Q;
  c_volume : option Q
}.

(** A piece of a formatted string: literal text, an integer, or a number
    printed with two decimals. *)
Inductive fragment : Set :=
  | Text (s : string)
  | Int (n : Z)
  | Fixed2 (q : Q).

(** The dictionary that [analyze_market] returns. *)
Record Analysis : Set := mkAnalysis {
  confidence : Q;
  signal : string;
  reason : list fragment;
  technical_indicators : option (list (string * npfloat))
}.

(** The arguments of [_analyze_signals]. *)
Record Indicators : Set := mkIndicators {
  current_price : Q;
  prev_price : Q;
  sma_20 : list Q;
  sma_50 : list Q;
  ema_12 : list Q;
  ema_26 : list Q;
  rsi_ : list Q;
  macd_line : list Q;
  macd_signal : list Q;
  macd_hist : list Q;
  bb_upper : list Q;
  bb_lower : list Q;
  stoch_k : list Q;
  stoch_d : list Q;
  volumes : list Q;
  atr_ : list Q;
  williams_r_ : list Q;
  cci_ : list Q;
  adx_ : list Q
}.

(** The series are index-aligned: each has one value per candle. *)
Definition aligned (n : nat) (ind : Indicators) : Prop :=
  length (sma_20 ind) = n ∧ length (sma_50 ind) = n ∧
  length (ema_12 ind) = n ∧ length (ema_26 ind) = n ∧
  length (rsi_ ind) = n ∧ length (macd_line ind) = n ∧
  length (macd_signal ind) = n ∧ length (macd_hist ind) = n ∧
  length (bb_upper ind) = n ∧ length (bb_lower ind) = n ∧
  length (stoch_k ind) = n ∧ length (stoch_d ind) = n ∧
  length (volumes ind) = n ∧ length (atr_ ind) = n ∧
  length (williams_r_ ind) = n ∧ length (cci_ ind) = n ∧
  length (adx_ ind) = n.

(** The two lists that the sub-rules fill in parallel. *)
Record Votes : Set := mkVotes {
  signals : list string;
  confidence_scores : list Q
}.

Definition no_votes : Votes := mkVotes [] [].

(** [signals.append(s); confidence_scores.append(w)] *)
Definition vote (s : string) (w : Q) (v : Votes) : Votes :=
  mkVotes (signals v ++ [s]) (confidence_scores v ++ [w]).

(** [a and b], evaluating [b] only when [a] holds. *)
Definition andM (a b : result bool) : result bool :=
  x ← a; if x : bool then b else Ok false.

(** [l[i] < q], [l[i] > q], [l[i] <= q], [l[i] >= q] *)
Definition item_lt (l : list Q) (i : Z) (q : Q) : result bool :=
  x ← getitem l i; Ok (Qltb x q).
Definition item_gt (l : list Q) (i : Z) (q : Q) : result bool :=
  x ← getitem l i; Ok (Qltb q x).
Definition item_le (l : list Q) (i : Z) (q : Q) : result bool :=
  x ← getitem l i; Ok (Qle_bool x q).
Definition item_ge (l : list Q) (i : Z) (q : Q) : result bool :=
  x ← getitem l i; Ok (Qle_bool q x).

(** [a[i] > b[i]], [a[i] < b[i]], [a[i] <= b[i]], [a[i] >= b[i]] *)
Definition items_gt (a b : list Q) (i : Z) : result bool :=
  x ← getitem a i; y ← getitem b i; Ok (Qltb y x).
Definition items_lt (a b : list Q) (i : Z) : result bool :=
  x ← getitem a i; y ← getitem b i; Ok (Qltb x y).
Definition items_le (a b : list Q) (i : Z) : result bool :=
  x ← getitem a i; y ← getitem b i; Ok (Qle_bool x y).
Definition items_ge (a b : list Q) (i : Z) : result bool :=
  x ← getitem a i; y ← getitem b i; Ok (Qle_bool y x).

(** [if a: BUY with w  elif b: SELL with w] *)
Definition buy_elif_sell (a b : result bool) (w : Q) (v : Votes)
  : result Votes :=
  x ← a;
  if x : bool then Ok (vote "BUY" w v)
  else y ← b; if y : bool then Ok (vote "SELL" w v) else Ok v.

(** [(current_price - bb_lower[-1]) / (bb_upper[-1] - bb_lower[-1])]: with
    at least 20 candles the last band values are numpy floats, and the
    division is numpy's. *)
Definition bb_position (ind : Indicators) : result npfloat :=
  lo ← getitem (bb_lower ind) (-1);
  up ← getitem (bb_upper ind) (-1);
  lo' ← getitem (bb_lower ind) (-1);
  Ok (np_div (current_price ind - lo) (up - lo')).

(** [signals.count(s)] *)
Definition count (s : string) (l : list string) : Z :=
  len (filter (λ x, x = s) l).

(** [sum(confidence_scores) / len(confidence_scores) if confidence_scores
    else 0] *)
Definition avg_confidence (scores : list Q) : result Q :=
  match scores with
  | [] => Ok 0
  | _ => truediv (sum scores) (inject_Z (len scores))
  end.

(** [atr[-1] if len(atr) > 0 else 0] *)
Definition last_atr (ind : Indicators) : result Q :=
  if (0 <? len (atr_ ind))%Z then getitem (atr_ ind) (-1) else Ok 0.

(** The aggregation at the end of each [_analyze_signals]: the three
    classes differ in the label, in the default threshold and in the
    indicator snapshot [ti], which is the same in the three branches. *)
Definition aggregate (label : string) (fallback : Q) (config : gmap string Q)
                     (v : Votes) (ti : result (list (string * npfloat)))
  : result Analysis :=
  let buy_signals := count "BUY" (signals v) in
  let sell_signals := count "SELL" (signals v) in
  avg ← avg_confidence (confidence_scores v);
  let threshold := default fallback (config !! "confidence_threshold") in
  if (sell_signals <? buy_signals)%Z && Qle_bool threshold avg then
    t ← ti;
    Ok (mkAnalysis avg "BUY"
          [Text label; Text " risk strategy: "; Int buy_signals;
           Text " buy signals, confidence: "; Fixed2 avg]
          (Some t))
  else if (buy_signals <? sell_signals)%Z && Qle_bool threshold avg then
    t ← ti;
    Ok (mkAnalysis avg "SELL"
          [Text label; Text " risk strategy: "; Int sell_signals;
           Text " sell signals, confidence: "; Fixed2 avg]
          (Some t))
  else
    t ← ti;
    Ok (mkAnalysis avg "HOLD"
          [Text label; Text " risk strategy: insufficient signals (buy: ";
           Int buy_signals; Text ", sell: "; Int sell_signals; Text ")"]
          (Some t)).

(** An entry [name: l[-1]] of the indicator snapshot. *)
Definition last_of (name : string) (l : list Q) : result (string * npfloat) :=
  x ← getitem l (-1); Ok (name, Num x).

(** *** class HighRiskStrategy *)

Module HighRisk.

Definition rule1 (ind : Indicators) : Votes → result Votes :=
  buy_elif_sell (item_lt (rsi_ ind) (-1) 30) (item_gt (rsi_ ind) (-1) 70) 0.8.

Definition rule2 (ind : Indicators) (v : Votes) : result Votes :=
  if (2 <=? len (macd_line ind))%Z && (2 <=? len (macd_signal ind))%Z then
    buy_elif_sell
      (andM (items_gt (macd_line ind) (macd_signal ind) (-1))
            (items_le (macd_line ind) (macd_signal ind) (-2)))
      (andM (items_lt (macd_line ind) (macd_signal ind) (-1))
            (items_ge (macd_line ind) (macd_signal ind) (-2)))
      0.7 v
  else Ok v.

Definition rule3 (ind : Indicators) : Votes → result Votes :=
  buy_elif_sell (item_ge (bb_lower ind) (-1) (current_price ind))
                (item_le (bb_upper ind) (-1) (current_price ind)) 0.6.

Definition rule4 (ind : Indicators) : Votes → result Votes :=
  buy_elif_sell
    (andM (item_lt (stoch_k ind) (-1) 20) (item_lt (stoch_d ind) (-1) 20))
    (andM (item_gt (stoch_k ind) (-1) 80) (item_gt (stoch_d ind) (-1) 80))
    0.5.

Definition rule5 (ind : Indicators) : Votes → result Votes :=
  buy_elif_sell (item_lt (williams_r_ ind) (-1) (-80))
                (item_gt (williams_r_ ind) (-1) (-20)) 0.6.

Definition rule6 (ind : Indicators) : Votes → result Votes :=
  buy_elif_sell (item_lt (cci_ ind) (-1) (-100))
                (item_gt (cci_ ind) (-1) 100) 0.5.

Definition rule7 (ind : Indicators) (v : Votes) : result Votes :=
  trend ← item_gt (adx_ ind) (-1) 25;
  if trend : bool then
    buy_elif_sell (item_lt (sma_20 ind) (-1) (current_price ind))
                  (item_gt (sma_20 ind) (-1) (current_price ind)) 0.7 v
  else Ok v.

Definition rule8 (ind : Indicators) (v : Votes) : result Votes :=
  c ← andM (Ok (0 <? len (atr_ ind))%Z) (item_gt (atr_ ind) (-1) 0);
  if c : bool then
    a ← getitem (atr_ ind) (-1);
    atr_ratio ← truediv a (current_price ind);
    if Qltb 0.01 atr_ratio then
      price_change ← truediv (current_price ind - prev_price ind)
                             (prev_price ind);
      if Qltb 0.001 price_change then Ok (vote "BUY" 0.3 v)
      else if Qltb price_change (-0.001) then Ok (vote "SELL" 0.3 v)
      else Ok v
    else Ok v
  else Ok v.

Definition rules (ind : Indicators) : result Votes :=
  v ← rule1 ind no_votes;
  v ← rule2 ind v;
  v ← rule3 ind v;
  v ← rule4 ind v;
  v ← rule5 ind v;
  v ← rule6 ind v;
  v ← rule7 ind v;
  rule8 ind v.

Definition snapshot (ind : Indicators) : result (list (string * npfloat)) :=
  e1 ← last_of "rsi" (rsi_ ind);
  e2 ← last_of "macd" (macd_line ind);
  bb ← bb_position ind;
  e4 ← last_of "stoch_k" (stoch_k ind);
  e5 ← last_of "stoch_d" (stoch_d ind);
  e6 ← last_of "williams_r" (williams_r_ ind);
  e7 ← last_of "cci" (cci_ ind);
  e8 ← last_of "adx" (adx_ ind);
  a ← last_atr ind;
  Ok [e1; e2; ("bb_position", bb); e4; e5; e6; e7; e8; ("atr", Num a)].

Definition _analyze_signals (config : gmap string Q) (ind : Indicators)
  : result Analysis :=
  v ← rules ind;
  aggregate "High" 0.7 config v (snapshot ind).

End HighRisk.

(** *** class MediumRiskStrategy *)

Module MediumRisk.

Definition rule1 (ind : Indicators) (v : Votes) : result Votes :=
  if (2 <=? len (sma_20 ind))%Z && (2 <=? len (sma_50 ind))%Z then
    buy_elif_sell
      (andM (items_gt (sma_20 ind) (sma_50 ind) (-1))
            (items_le (sma_20 ind) (sma_50 ind) (-2)))
      (andM (items_lt (sma_20 ind) (sma_50 ind) (-1))
            (items_ge (sma_20 ind) (sma_50 ind) (-2)))
      0.8 v
  else Ok v.

Definition rule2 (ind : Indicators) (v : Votes) : result Votes :=
  if (2 <=? len (ema_12 ind))%Z && (2 <=? len (ema_26 ind))%Z then
    buy_elif_sell
      (andM (items_gt (ema_12 ind) (ema_26 ind) (-1))
            (items_le (ema_12 ind) (ema_26 ind) (-2)))
      (andM (items_lt (ema_12 ind) (ema_26 ind) (-1))
            (items_ge (ema_12 ind) (ema_26 ind) (-2)))
      0.7 v
  else Ok v.

Definition rule3 (ind : Indicators) (v : Votes) : result Votes :=
  neutral ← andM (item_ge (rsi_ ind) (-1) 40) (item_le (rsi_ ind) (-1) 60);
  if neutral : bool then
    buy_elif_sell (item_lt (sma_20 ind) (-1) (current_price ind))
                  (item_gt (sma_20 ind) (-1) (current_price ind)) 0.6 v
  else Ok v.

Definition rule4 (ind : Indicators) (v : Votes) : result Votes :=
  bb ← bb_position ind;
  buy_elif_sell (andM (Ok (np_lt bb 0.2)) (item_lt (rsi_ ind) (-1) 50))
                (andM (Ok (np_gt bb 0.8)) (item_gt (rsi_ ind) (-1) 50))
                0.7 v.

Definition rule5 (ind : Indicators) (v : Votes) : result Votes :=
  if (2 <=? len (macd_hist ind))%Z then
    buy_elif_sell
      (andM (item_gt (macd_hist ind) (-1) 0) (item_le (macd_hist ind) (-2) 0))
      (andM (item_lt (macd_hist ind) (-1) 0) (item_ge (macd_hist ind) (-2) 0))
      0.6 v
  else Ok v.

Definition rule6 (ind : Indicators) : Votes → result Votes :=
  buy_elif_sell
    (andM (item_lt (williams_r_ ind) (-1) (-70)) (item_lt (rsi_ ind) (-1) 40))
    (andM (item_gt (williams_r_ ind) (-1) (-30)) (item_gt (rsi_ ind) (-1) 60))
    0.8.

Definition rule7 (ind : Indicators) (v : Votes) : result Votes :=
  bb ← bb_position ind;
  buy_elif_sell (andM (item_lt (cci_ ind) (-1) (-100)) (Ok (np_lt bb 0.3)))
                (andM (item_gt (cci_ ind) (-1) 100) (Ok (np_gt bb 0.7)))
                0.7 v.

Definition rule8 (ind : Indicators) (v : Votes) : result Votes :=
  trend ← item_gt (adx_ ind) (-1) 20;
  if trend : bool then
    buy_elif_sell
      (andM (item_lt (ema_12 ind) (-1) (current_price ind))
            (items_gt (ema_12 ind) (ema_26 ind) (-1)))
      (andM (item_gt (ema_12 ind) (-1) (current_price ind))
            (items_lt (ema_12 ind) (ema_26 ind) (-1)))
      0.6 v
  else Ok v.

Definition rules (ind : Indicators) : result Votes :=
  v ← rule1 ind no_votes;
  v ← rule2 ind v;
  v ← rule3 ind v;
  v ← rule4 ind v;
  v ← rule5 ind v;
  v ← rule6 ind v;
  v ← rule7 ind v;
  rule8 ind v.

Definition snapshot (ind : Indicators) : result (list (string * npfloat)) :=
  bb ← bb_position ind;
  e1 ← last_of "sma_20" (sma_20 ind);
  e2 ← last_of "sma_50" (sma_50 ind);
  e3 ← last_of "ema_12" (ema_12 ind);
  e4 ← last_of "ema_26" (ema_26 ind);
  e5 ← last_of "rsi" (rsi_ ind);
  e6 ← last_of "macd" (macd_line ind);
  Ok [e1; e2; e3; e4; e5; e6; ("bb_position", bb)].

Definition _analyze_signals (config : gmap string Q) (ind : Indicators)
  : result Analysis :=
  v ← rules ind;
  aggregate "Medium" 0.6 config v (snapshot ind).

End MediumRisk.

(** *** class LowRiskStrategy *)

Module LowRisk.

(** [sum(l[-5:]) / 5 - sum(l[-10:-5]) / 5] *)
Definition trend5 (l : list Q) : Q :=
  sum (slice l (-5) (len l)) / 5 - sum (slice l (-10) (-5)) / 5.

(** [current_volume / avg_volume if avg_volume > 0 else 1] over the last ten
    volumes. *)
Definition volume_ratio (ind : Indicators) : result Q :=
  let avg_volume := sum (slice (volumes ind) (-10) (len (volumes ind))) / 10 in
  current_volume ← getitem (volumes ind) (-1);
  if Qltb 0 avg_volume then truediv current_volume avg_volume else Ok 1.

Definition rule1 (ind : Indicators) (v : Votes) : result Votes :=
  if (5 <=? len (sma_20 ind))%Z && (5 <=? len (sma_50 ind))%Z then
    let sma_20_trend :=
      if (10 <=? len (sma_20 ind))%Z then trend5 (sma_20 ind) else 0 in
    let sma_50_trend :=
      if (10 <=? len (sma_50 ind))%Z then trend5 (sma_50 ind) else 0 in
    buy_elif_sell
      (andM (Ok (Qltb 0 sma_20_trend && Qltb 0 sma_50_trend))
            (andM (item_lt (sma_20 ind) (-1) (current_price ind))
                  (items_gt (sma_20 ind) (sma_50 ind) (-1))))
      (andM (Ok (Qltb sma_20_trend 0 && Qltb sma_50_trend 0))
            (andM (item_gt (sma_20 ind) (-1) (current_price ind))
                  (items_lt (sma_20 ind) (sma_50 ind) (-1))))
      0.9 v
  else Ok v.

Definition rule2 (ind : Indicators) (v : Votes) : result Votes :=
  if (10 <=? len (rsi_ ind))%Z then
    let rsi_trend := trend5 (rsi_ ind) in
    buy_elif_sell
      (andM (andM (item_ge (rsi_ ind) (-1) 30) (item_le (rsi_ ind) (-1) 50))
            (Ok (Qltb 0 rsi_trend)))
      (andM (andM (item_ge (rsi_ ind) (-1) 50) (item_le (rsi_ ind) (-1) 70))
            (Ok (Qltb rsi_trend 0)))
      0.7 v
  else Ok v.

Definition rule3 (ind : Indicators) (v : Votes) : result Votes :=
  if (5 <=? len (macd_line ind))%Z && (5 <=? len (macd_signal ind))%Z then
    above ← mapM (items_gt (macd_line ind) (macd_signal ind)) (range (-5) 0);
    let macd_above_signal := len (filter (λ b : bool, b = true) above) in
    buy_elif_sell
      (andM (Ok (4 <=? macd_above_signal)%Z)
            (items_gt (macd_line ind) (macd_signal ind) (-1)))
      (andM (Ok (macd_above_signal <=? 1)%Z)
            (items_lt (macd_line ind) (macd_signal ind) (-1)))
      0.8 v
  else Ok v.

Definition rule4 (ind : Indicators) (v : Votes) : result Votes :=
  bb ← bb_position ind;
  if (10 <=? len (volumes ind))%Z then
    ratio ← volume_ratio ind;
    buy_elif_sell (Ok (np_lt bb 0.3 && Qltb 1.2 ratio))
                  (Ok (np_gt bb 0.7 && Qltb 1.2 ratio)) 0.6 v
  else Ok v.

Definition rule5 (ind : Indicators) (v : Votes) : result Votes :=
  c ← andM (Ok (0 <? len (atr_ ind))%Z) (item_gt (atr_ ind) (-1) 0);
  if c : bool then
    a ← getitem (atr_ ind) (-1);
    atr_ratio ← truediv a (current_price ind);
    if Qltb atr_ratio 0.005 then
      buy_elif_sell (item_lt (sma_50 ind) (-1) (current_price ind))
                    (item_gt (sma_50 ind) (-1) (current_price ind)) 0.6 v
    else Ok v
  else Ok v.

Definition rule6 (ind : Indicators) (v : Votes) : result Votes :=
  trend ← item_gt (adx_ ind) (-1) 30;
  if trend : bool then
    buy_elif_sell
      (andM (item_lt (williams_r_ ind) (-1) (-50))
            (item_lt (sma_50 ind) (-1) (current_price ind)))
      (andM (item_gt (williams_r_ ind) (-1) (-50))
            (item_gt (sma_50 ind) (-1) (current_price ind)))
      0.8 v
  else Ok v.

Definition rule7 (ind : Indicators) : Votes → result Votes :=
  buy_elif_sell
    (andM (item_lt (cci_ ind) (-1) (-50))
          (items_gt (macd_line ind) (macd_signal ind) (-1)))
    (andM (item_gt (cci_ ind) (-1) 50)
          (items_lt (macd_line ind) (macd_signal ind) (-1)))
    0.7.

Definition rule8 (ind : Indicators) (v : Votes) : result Votes :=
  if (10 <=? len (volumes ind))%Z then
    ratio ← volume_ratio ind;
    if Qltb 1.5 ratio && (0 <? len (atr_ ind))%Z then
      a ← getitem (atr_ ind) (-1);
      atr_ratio ← truediv a (current_price ind);
      if Qltb 0.01 atr_ratio then
        buy_elif_sell (item_lt (sma_20 ind) (-1) (current_price ind))
                      (item_gt (sma_20 ind) (-1) (current_price ind)) 0.5 v
      else Ok v
    else Ok v
  else Ok v.

Definition rules (ind : Indicators) : result Votes :=
  v ← rule1 ind no_votes;
  v ← rule2 ind v;
  v ← rule3 ind v;
  v ← rule4 ind v;
  v ← rule5 ind v;
  v ← rule6 ind v;
  v ← rule7 ind v;
  rule8 ind v.

Definition snapshot (ind : Indicators) : result (list (string * npfloat)) :=
  bb ← bb_position ind;
  e1 ← last_of "sma_20" (sma_20 ind);
  e2 ← last_of "sma_50" (sma_50 ind);
  e3 ← last_of "rsi" (rsi_ ind);
  e4 ← last_of "macd" (macd_line ind);
  e6 ← last_of "williams_r" (williams_r_ ind);
  e7 ← last_of "cci" (cci_ ind);
  e8 ← last_of "adx" (adx_ ind);
  a ← last_atr ind;
  Ok [e1; e2; e3; e4; ("bb_position", bb); e6; e7; e8; ("atr", Num a)].

Definition _analyze_signals (config : gmap string Q) (ind : Indicators)
  : result Analysis :=
  v ← rules ind;
  aggregate "Low" 0.5 config v (snapshot ind).

End LowRisk.

(** *** class AITradingStrategy and [create_strategy] *)

(** The three subclasses of [AITradingStrategy]. *)
Inductive risk : Set := HIGH | MEDIUM | LOW.

(** A strategy object: its class and its [config] dictionary. *)
Record Strategy : Type := mkStrategy {
  kind : risk;
  config : gmap string Q
}.

(** [create_strategy]: the risk level is compared in upper case by the
    caller's [risk_level.upper()]; an unknown level raises [ValueError]. *)
Definition create_strategy (risk_level_upper : string)
                           (config : gmap string Q) : result Strategy :=
  if decide (risk_level_upper = "HIGH") then Ok (mkStrategy HIGH config)
  else if decide (risk_level_upper = "MEDIUM") then Ok (mkStrategy MEDIUM config)
  else if decide (risk_level_upper = "LOW") then Ok (mkStrategy LOW config)
  else Raise ValueError.

(** The method [_analyze_signals], dispatched on the class. *)
Definition _analyze_signals (s : Strategy) (ind : Indicators)
  : result Analysis :=
  match kind s with
  | HIGH => HighRisk._analyze_signals (config s) ind
  | MEDIUM => MediumRisk._analyze_signals (config s) ind
  | LOW => LowRisk._analyze_signals (config s) ind
  end.

(** The votes of the sub-rules of a class, before aggregation. *)
Definition rules (k : risk) (ind : Indicators) : result Votes :=
  match k with
  | HIGH => HighRisk.rules ind
  | MEDIUM => MediumRisk.rules ind
  | LOW => LowRisk.rules ind
  end.

(** [self.config.get('confidence_threshold', d)], where the default [d]
    is that of the class. *)
Definition threshold (s : Strategy) : Q :=
  default (match kind s with HIGH => 0.7 | MEDIUM => 0.6 | LOW => 0.5 end)
          (config s !! "confidence_threshold").

Section AnalyzeMarket.

Variable np_std : list Q → Q.

(** The indicator computations of [analyze_market], in the order of the
    source, with their default periods. *)
Definition indicators (candles : list Candle) : result Indicators :=
  let closes := c_close <$> candles in
  let highs := c_high <$> candles in
  let lows := c_low <$> candles in
  let volumes := (λ c, default 0 (c_volume c)) <$> candles in
  sma_20 ← sma closes 20;
  sma_50 ← sma closes 50;
  ema_12 ← ema closes 12;
  ema_26 ← ema closes 26;
  rsi ← rsi closes 14;
  '(macd_line, macd_signal, macd_hist) ← macd closes 12 26 9;
  '(bb_upper, bb_middle, bb_lower) ← bollinger_bands np_std closes 20 2;
  '(stoch_k, stoch_d) ← stochastic highs lows closes 14 3;
  atr ← atr highs lows closes 14;
  williams_r ← williams_r highs lows closes 14;
  cci ← cci highs lows closes 20;
  adx ← adx highs lows closes 14;
  current_price ← getitem closes (-1);
  prev_price ← (if (1 <? len closes)%Z then getitem closes (-2)
                else Ok current_price);
  Ok (mkIndicators current_price prev_price sma_20 sma_50 ema_12 ema_26
        rsi macd_line macd_signal macd_hist bb_upper bb_lower
        stoch_k stoch_d volumes atr williams_r cci adx).

Definition analyze_market (s : Strategy) (candles : list Candle)
  : result Analysis :=
  if (len candles <? 50)%Z then
    Ok (mkAnalysis 0 "HOLD" [Text "Insufficient data"] None)
  else
    ind ← indicators candles;
    _analyze_signals s ind.

End AnalyzeMarket.

End Strategies.

(** ** models.py and position_service.py *)

Module Positions.

(** [s.upper()], on ASCII letters. *)
Definition upper_ascii (c : ascii) : ascii :=
  let n := nat_of_ascii c in
  if (97 <=? n)%nat && (n <=? 122)%nat then ascii_of_nat (n - 32) else c.

Fixpoint upper (s : string) : string :=
  match s with
  | EmptyString => EmptyString
  | String c s' => String (upper_ascii c) (upper s')
  end.

(** A row of the table [positions]; [side] is nullable.  The time stamps of
    the row are left out. *)
Record Position : Set := mkPosition {
  symbol : string;
  side : option string;
  qty : Q;
  entry_price : Q;
  unrealized_pnl : Q;
  latest_price : Q;
  is_active : bool
}.

(** A row of the table [trades]. *)
Record Trade : Set := mkTrade {
  t_symbol : string;
  t_side : string;
  t_price : Q;
  t_qty : Q;
  t_pnl : Q
}.

(** The column [symbol] is unique, so the table is a map from the symbol to
    its row. *)
Abbreviation table := (gmap string Position).

(** Truth value of a number and of a string. *)
Definition truthy (q : Q) : bool := negb (Qeq_bool q 0).
Definition nonempty (s : string) : bool := negb (String.eqb s EmptyString).

Definition get_position (db : table) (sym : string) : option Position :=
  match db !! upper sym with
  | Some p => if is_active p then Some p else None
  | None => None
  end.

(** The recomputation of [unrealized_pnl] at the end of
    [create_or_update_position]. *)
Definition mark (p : Position) (side_ : string) (qty_ entry_price_ : Q)
                (latest_price_ : option Q) : Position :=
  match latest_price_ with
  | Some lp =>
      if truthy lp && nonempty side_ && Qltb 0 qty_ then
        let pnl := if String.eqb side_ "BUY" then (lp - entry_price_) * qty_
                   else (entry_price_ - lp) * qty_ in
        mkPosition (symbol p) (side p) (qty p) (entry_price p) pnl
                   (latest_price p) (is_active p)
      else p
  | None => p
  end.

(** [create_or_update_position]: returns the table after the commit and the
    row.  Adding a row for a symbol that has an inactive row breaks the
    unique constraint at the commit. *)
Definition create_or_update_position (db : table) (sym side_ : string)
    (qty_ entry_price_ : Q) (latest_price_ : option Q)
  : result (table * Position) :=
  match get_position db sym with
  | None =>
      let lp := match latest_price_ with
                | Some lp => if truthy lp then lp else entry_price_
                | None => entry_price_
                end in
      let position :=
        mkPosition (upper sym) (Some side_) qty_ entry_price_ 0 lp true in
      let position := mark position side_ qty_ entry_price_ latest_price_ in
      match db !! upper sym with
      | Some _ => Raise IntegrityError
      | None => Ok (<[upper sym := position]> db, position)
      end
  | Some position =>
      let lp := match latest_price_ with
                | Some lp => if truthy lp then lp else latest_price position
                | None => latest_price position
                end in
      let position :=
        mkPosition (symbol position) (Some side_) qty_ entry_price_
                   (unrealized_pnl position) lp (is_active position) in
      let position := mark position side_ qty_ entry_price_ latest_price_ in
      Ok (<[upper sym := position]> db, position)
  end.

Definition update_position_price (db : table) (sym : string)
    (latest_price_ : Q) : table * option Position :=
  match get_position db sym with
  | None => (db, None)
  | Some position =>
      let pnl :=
        match side position with
        | Some s =>
            if nonempty s && Qltb 0 (qty position) then
              if String.eqb s "BUY"
              then (latest_price_ - entry_price position) * qty position
              else (entry_price position - latest_price_) * qty position
            else unrealized_pnl position
        | None => unrealized_pnl position
        end in
      let position :=
        mkPosition (symbol position) (side position) (qty position)
                   (entry_price position) pnl latest_price_
                   (is_active position) in
      (<[upper sym := position]> db, Some position)
  end.

(** [close_position]: a missing [qty_] closes the whole position. *)
Definition close_position (db : table) (sym : string) (qty_ : option Q)
  : table * option Position :=
  match get_position db sym with
  | None => (db, None)
  | Some position =>
      if Qle_bool (qty position) 0 then (db, None)
      else
        let full := match qty_ with
                    | None => true
                    | Some q => Qle_bool (qty position) q
                    end in
        let position :=
          if full then
            mkPosition (symbol position) None 0 0 0 (latest_price position)
                       (is_active position)
          else
            mkPosition (symbol position) (side position)
                       (qty position - default 0 qty_) (entry_price position)
                       (unrealized_pnl position) (latest_price position)
                       (is_active position) in
        (<[upper sym := position]> db, Some position)
  end.

Definition deactivate_position (db : table) (sym : string) : table * bool :=
  match get_position db sym with
  | None => (db, false)
  | Some position =>
      let position :=
        mkPosition (symbol position) (side position) (qty position)
                   (entry_price position) (unrealized_pnl position)
                   (latest_price position) false in
      (<[upper sym := position]> db, true)
  end.

(** trade_service.py: [save_trade] appends a row. *)
Definition save_trade (trades : list Trade) (sym side_ : string)
                      (price qty_ pnl : Q) : list Trade :=
  trades ++ [mkTrade sym side_ price qty_ pnl].

End Positions.

(** ** The position ledger: main.py and multi_symbol_service.py *)

Module Ledger.

Import Positions.

(** [not position or position.qty == 0 or position.side is None] *)
Definition flat (position : option Position) : bool :=
  match position with
  | None => true
  | Some p => Qeq_bool (qty p) 0 || bool_decide (side p = None)
  end.

(** The realized profit of the closed quantity [q]:
    [(price - entry_price) * q] for a position bought, the mirror image
    otherwise. *)
Definition realized_on (position : Position) (price q : Q) : Q :=
  if bool_decide (side position = Some "BUY")
  then (price - entry_price position) * q
  else (entry_price position - price) * q.

(** The branch "reduce or flip", which the two functions share word for
    word: the trade is on the other side of [position], whose side is not
    [None] here. *)
Definition reduce_or_flip (db : table) (position : Position)
    (sym side_ : string) (price qty_ : Q) : result (table * Q) :=
  if Qltb qty_ (qty position) then
    let realized_pnl := realized_on position price qty_ in
    let new_qty := qty position - qty_ in
    '(db, _) ← create_or_update_position db sym
                  (default EmptyString (side position)) new_qty
                  (entry_price position) (Some price);
    Ok (db, realized_pnl)
  else if Qeq_bool qty_ (qty position) then
    let realized_pnl := realized_on position price qty_ in
    let '(db, _) := close_position db sym (Some qty_) in
    Ok (db, realized_pnl)
  else
    let close_qty := qty position in
    let realized_pnl := realized_on position price close_qty in
    let remaining := qty_ - close_qty in
    '(db, _) ← create_or_update_position db sym side_ remaining price
                  (Some price);
    Ok (db, realized_pnl).

(** main.py: [update_position_on_trade] *)
Definition update_position_on_trade (db : table) (sym side_ : string)
    (price qty_ : Q) : result (table * Q) :=
  let position := get_position db sym in
  if flat position then
    '(db, _) ← create_or_update_position db sym side_ qty_ price (Some price);
    Ok (db, 0)
  else
    match position with
    | None => Ok (db, 0)
    | Some position =>
        if bool_decide (Some side_ = side position) then
          let new_qty := qty position + qty_ in
          if Qltb 0 new_qty then
            new_entry_price ←
              truediv (entry_price position * qty position + price * qty_)
                      new_qty;
            '(db, _) ← create_or_update_position db sym side_ new_qty
                          new_entry_price (Some price);
            Ok (db, 0)
          else Ok (db, 0)
        else reduce_or_flip db position sym side_ price qty_
    end.

(** multi_symbol_service.py: [_update_position_on_trade]; the entry price
    is averaged without the test on [new_qty]. *)
Definition _update_position_on_trade (db : table) (sym side_ : string)
    (price quantity : Q) : result (table * Q) :=
  let position := get_position db sym in
  if flat position then
    '(db, _) ← create_or_update_position db sym side_ quantity price
                  (Some price);
    Ok (db, 0)
  else
    match position with
    | None => Ok (db, 0)
    | Some position =>
        if bool_decide (Some side_ = side position) then
          let new_qty := qty position + quantity in
          new_entry_price ←
            truediv (entry_price position * qty position + price * quantity)
                    new_qty;
          '(db, _) ← create_or_update_position db sym side_ new_qty
                        new_entry_price (Some price);
          Ok (db, 0)
        else reduce_or_flip db position sym side_ price quantity
    end.

End Ledger.

(** ** ai_trading_engine.py: class AITradingEngine *)

Module Engine.

Import Strategies Positions.

(** trading_config.py: [TradingMode] *)
Inductive TradingMode : Set := SIMULATION | PAPER_TRADING | LIVE_TRADING.

(** The columns of [AITradingConfig] that the engine reads. *)
Record AITradingConfig : Set := mkConfig {
  cfg_id : Z;
  cfg_name : string;
  risk_level : string;
  cfg_symbol : string;
  exchange_type : string;
  timeframe : string;
  leverage_min : Q;
  leverage_max : Q;
  position_size_usd : Q;
  confidence_threshold : Q;
  max_daily_trades : Z;
  stop_loss_pct : Q;
  take_profit_pct : Q
}.

(** A row of [AITradingLog]; the columns filled from the analysis dictionary
    are empty when the dictionary lacks the key. *)
Record AITradingLog : Set := mkLog {
  log_config_id : Z;
  log_action : string;
  log_symbol : string;
  log_side : option string;
  log_quantity : option Q;
  log_price : option Q;
  log_pnl : Q;
  log_confidence_score : option Q;
  log_technical_indicators : list (string * npfloat);
  log_market_sentiment : option string;
  log_reason : option (list fragment)
}.

(** What the clock of the host gives: the seconds since the epoch and the
    offset of the local time zone, in seconds. *)
Record Clock : Set := mkClock {
  utc_now : Z;
  utc_offset : Z
}.

(** [date.today()]: the local calendar date, as a day number. *)
Definition date_today (c : Clock) : Z :=
  ((utc_now c + utc_offset c) / 86400)%Z.

(** An entry of [active_strategies]; the key [current_position], which is
    written once and never read, is left out. *)
Record StrategyInfo : Type := mkInfo {
  si_config : AITradingConfig;
  si_strategy : Strategy;
  last_analysis : option Analysis;
  daily_trades : Z;
  last_trade_date : option Z
}.

(** What one pass of the loop takes from outside: the clock, the candles
    that the data feed returns (empty when it fails), the leverage that
    [random.uniform] draws, and the trading mode. *)
Record Env : Type := mkEnv {
  clock : Clock;
  feed : string → string → Z → list Candle;
  uniform : Q → Q → Q;
  mode : TradingMode
}.

Section Engine.

(** numpy's standard deviation, see [bollinger_bands]. *)
Variable np_std : list Q → Q.

(** The performance tables, and [_update_performance], which keeps the
    cumulative counters and the Sharpe ratio (a square root) of a
    configuration from the logged exits. *)
Variable Perf : Type.
Variable _update_performance : Z → Q → list AITradingLog → Perf → Perf.

(** The tables and what the engine did to the data feed. *)
Record World : Type := mkWorld {
  positions : table;
  trades : list Trade;
  logs : list AITradingLog;
  perf : Perf;
  feed_calls : list (string * string * Z)
}.

(** [RealTradingService.place_real_order] hands the order to an exchange
    client: the tables after the call and the ['status'] of its answer are
    taken as given. *)
Variable place_real_order :
  World → string → string → string → Q → Q → World * string.

(** The dictionary that [_load_active_strategies] hands to
    [create_strategy]. *)
Definition strategy_config (c : AITradingConfig) : gmap string Q :=
  <["confidence_threshold" := confidence_threshold c]>
  (<["max_daily_trades" := inject_Z (max_daily_trades c)]>
  (<["stop_loss_pct" := stop_loss_pct c]>
  (<["take_profit_pct" := take_profit_pct c]>
  (<["leverage_min" := leverage_min c]>
  (<["leverage_max" := leverage_max c]>
  (<["position_size_usd" := position_size_usd c]> ∅)))))).

(** The body of the loop of [_load_active_strategies]; a configuration
    whose strategy cannot be created is skipped. *)
Definition load_strategy (c : AITradingConfig) : option (Z * StrategyInfo) :=
  match create_strategy (upper (risk_level c)) (strategy_config c) with
  | Ok s => Some (cfg_id c, mkInfo c s None 0 None)
  | Raise _ => None
  end.

Definition _load_active_strategies (configs : list AITradingConfig)
  : list (Z * StrategyInfo) :=
  omap load_strategy configs.

Definition _log_analysis (w : World) (config_id : Z) (sym : string)
                         (a : Analysis) : World :=
  mkWorld (positions w) (trades w)
    (logs w ++ [mkLog config_id "ANALYSIS" sym None None None 0
                  (Some (confidence a))
                  (default [] (technical_indicators a))
                  (Some (signal a)) (Some (reason a))])
    (perf w) (feed_calls w).

(** [_log_trade] for an entry, whose last argument is the analysis. *)
Definition _log_entry (lg : list AITradingLog) (config_id : Z)
    (sym side_ : string) (quantity price pnl : Q) (a : Analysis)
  : list AITradingLog :=
  lg ++ [mkLog config_id "ENTRY" sym (Some side_) (Some quantity)
           (Some price) pnl (Some (confidence a))
           (default [] (technical_indicators a))
           (Some (signal a)) (Some (reason a))].

(** [_log_trade] for an exit, whose last argument is [{'reason': reason}]. *)
Definition _log_exit (lg : list AITradingLog) (config_id : Z)
    (sym side_ : string) (quantity price pnl : Q) (why : string)
  : list AITradingLog :=
  lg ++ [mkLog config_id "EXIT" sym (Some side_) (Some quantity)
           (Some price) pnl None [] None (Some [Text why])].

Definition bump (info : StrategyInfo) : StrategyInfo :=
  mkInfo (si_config info) (si_strategy info) (last_analysis info)
         (daily_trades info + 1) (last_trade_date info).

(** [_open_position].  The quantity is computed before the [try], so a zero
    price raises; what the [try] catches leaves the counter as it is. *)
Definition _open_position (env : Env) (w : World) (info : StrategyInfo)
    (side_ : string) (price : Q) (a : Analysis)
  : World * StrategyInfo * result unit :=
  let config := si_config info in
  match truediv (position_size_usd config) price with
  | Raise e => (w, info, Raise e)
  | Ok quantity =>
      let leverage := uniform env (leverage_min config) (leverage_max config) in
      let leveraged_quantity := quantity * leverage in
      match mode env with
      | SIMULATION =>
          let pnl := 0 in
          match create_or_update_position (positions w) (cfg_symbol config)
                  side_ leveraged_quantity price (Some price) with
          | Raise _ => (w, info, Ok tt)
          | Ok (tbl, _) =>
              let w := mkWorld tbl
                (save_trade (trades w) (cfg_symbol config) side_ price
                            leveraged_quantity pnl)
                (_log_entry (logs w) (cfg_id config) (cfg_symbol config)
                            side_ leveraged_quantity price pnl a)
                (perf w) (feed_calls w) in
              (w, bump info, Ok tt)
          end
      | _ =>
          let '(w, status) :=
            place_real_order w (exchange_type config) (cfg_symbol config)
                             side_ leveraged_quantity price in
          if bool_decide (status = "filled") then
            match create_or_update_position (positions w) (cfg_symbol config)
                    side_ leveraged_quantity price (Some price) with
            | Raise _ => (w, info, Ok tt)
            | Ok (tbl, _) =>
                let w := mkWorld tbl (trades w)
                  (_log_entry (logs w) (cfg_id config) (cfg_symbol config)
                              side_ leveraged_quantity price 0 a)
                  (perf w) (feed_calls w) in
                (w, bump info, Ok tt)
            end
          else (w, bump info, Ok tt)
      end
  end.

(** [position.side != s], for a row that exists. *)
Definition side_differs (p : Position) (s : string) : bool :=
  negb (bool_decide (side p = Some s)).

Definition _process_trading_signal (env : Env) (w : World)
    (info : StrategyInfo) (a : Analysis) (latest_candle : Candle)
  : World * StrategyInfo * result unit :=
  let config := si_config info in
  let current_price := c_close latest_candle in
  let position := get_position (positions w) (cfg_symbol config) in
  if bool_decide (signal a = "BUY") then
    if match position with None => true | Some p => side_differs p "BUY" end
    then _open_position env w info "BUY" current_price a
    else (w, info, Ok tt)
  else if bool_decide (signal a = "SELL") then
    if match position with None => true | Some p => side_differs p "SELL" end
    then _open_position env w info "SELL" current_price a
    else (w, info, Ok tt)
  else (w, info, Ok tt).

(** The first lines of [_process_strategy]: the counter starts again when
    [date.today()] is not the stored date. *)
Definition roll (today : Z) (info : StrategyInfo) : StrategyInfo :=
  if bool_decide (last_trade_date info ≠ Some today) then
    mkInfo (si_config info) (si_strategy info) (last_analysis info)
           0 (Some today)
  else info.

Definition _process_strategy (env : Env) (w : World) (info : StrategyInfo)
  : World * StrategyInfo * result unit :=
  let config := si_config info in
  let info := roll (date_today (clock env)) info in
  if (max_daily_trades config <=? daily_trades info)%Z then (w, info, Ok tt)
  else
    let candles := feed env (cfg_symbol config) (timeframe config) 100 in
    let w := mkWorld (positions w) (trades w) (logs w) (perf w)
               (feed_calls w ++ [(cfg_symbol config, timeframe config, 100%Z)]) in
    if (len candles <? 50)%Z then (w, info, Ok tt)
    else
      match analyze_market np_std (si_strategy info) candles with
      | Raise e => (w, info, Raise e)
      | Ok a =>
          let info := mkInfo (si_config info) (si_strategy info) (Some a)
                             (daily_trades info) (last_trade_date info) in
          let w := _log_analysis w (cfg_id config) (cfg_symbol config) a in
          if (bool_decide (signal a = "BUY") || bool_decide (signal a = "SELL"))
             && Qle_bool (confidence_threshold config) (confidence a) then
            match getitem candles (-1) with
            | Raise e => (w, info, Raise e)
            | Ok latest_candle =>
                _process_trading_signal env w info a latest_candle
            end
          else (w, info, Ok tt)
      end.

(** [_process_strategies]: an error in one strategy is printed and the loop
    goes on with the next one. *)
Fixpoint _process_strategies (env : Env) (w : World)
    (active : list (Z * StrategyInfo)) : World * list (Z * StrategyInfo) :=
  match active with
  | [] => (w, [])
  | (config_id, info) :: rest =>
      let '(w, info, _) := _process_strategy env w info in
      let '(w, rest) := _process_strategies env w rest in
      (w, (config_id, info) :: rest)
  end.

(** Successive passes of the loop for one strategy: [_process_strategy]
    once per pass, an error being printed and dropped as in
    [_process_strategies]. *)
Fixpoint passes (envs : list Env) (w : World) (info : StrategyInfo)
  : World * StrategyInfo :=
  match envs with
  | [] => (w, info)
  | env :: rest =>
      let '(w, info, _) := _process_strategy env w info in
      passes rest w info
  end.

(** [pnl_pct] of [check_exit_conditions]. *)
Definition pnl_pct (position : Position) : result Q :=
  let current_price := latest_price position in
  let entry := entry_price position in
  if bool_decide (side position = Some "BUY") then
    q ← truediv (current_price - entry) entry; Ok (q * 100)
  else
    q ← truediv (entry - current_price) entry; Ok (q * 100).

(** Which of the two exits [check_exit_conditions] takes, if any. *)
Definition exit_reason (config : AITradingConfig) (pct : Q) : option string :=
  if Qle_bool pct (- stop_loss_pct config) then Some "STOP_LOSS"
  else if Qle_bool (take_profit_pct config) pct then Some "TAKE_PROFIT"
  else None.

(** [_close_position].  [position] is the row object of the session: after
    [close_position] has changed the row, the side and the quantity that
    are read for the trade and the log are those of the changed row. *)
Definition _close_position (w : World) (info : StrategyInfo)
    (position : Position) (current_price : Q) (why : string) : World :=
  let config := si_config info in
  let pnl :=
    if bool_decide (side position = Some "BUY")
    then (current_price - entry_price position) * qty position
    else (entry_price position - current_price) * qty position in
  let '(tbl, _) :=
    close_position (positions w) (cfg_symbol config) (Some (qty position)) in
  let position := default position (get_position tbl (cfg_symbol config)) in
  let close_side :=
    if bool_decide (side position = Some "BUY") then "SELL" else "BUY" in
  let trades_ := save_trade (trades w) (cfg_symbol config) close_side
                            current_price (qty position) pnl in
  let logs_ := _log_exit (logs w) (cfg_id config) (cfg_symbol config)
                         close_side (qty position) current_price pnl why in
  mkWorld tbl trades_ logs_
          (_update_performance (cfg_id config) pnl logs_ (perf w))
          (feed_calls w).

(** The body of the loop of [check_exit_conditions]. *)
Definition check_exit (w : World) (info : StrategyInfo) : World * result unit :=
  let config := si_config info in
  match get_position (positions w) (cfg_symbol config) with
  | None => (w, Ok tt)
  | Some position =>
      if Qeq_bool (qty position) 0 then (w, Ok tt)
      else
        match pnl_pct position with
        | Raise e => (w, Raise e)
        | Ok pct =>
            match exit_reason config pct with
            | Some why =>
                (_close_position w info position (latest_price position) why,
                 Ok tt)
            | None => (w, Ok tt)
            end
        end
  end.

(** [check_exit_conditions]: an error ends the loop. *)
Fixpoint check_exit_conditions (w : World) (active : list (Z * StrategyInfo))
  : World * result unit :=
  match active with
  | [] => (w, Ok tt)
  | (_, info) :: rest =>
      match check_exit w info with
      | (w, Ok _) => check_exit_conditions w rest
      | (w, Raise e) => (w, Raise e)
      end
  end.

(** The state after a forced close of the position of [sym] for the
    reason [why]: the position is flat and an exit is logged with that
    reason. *)
Definition closed_for (why sym : string) (w w' : World) : Prop :=
  ∃ p' l, get_position (positions w') sym = Some p' ∧ qty p' = 0 ∧
          side p' = None ∧ logs w' = logs w ++ [l] ∧
          log_action l = "EXIT" ∧ log_reason l = Some [Text why].

(** One pass of the loop of [start_engine]. *)
Definition tick (env : Env) (w : World) (active : list (Z * StrategyInfo))
  : World * list (Z * StrategyInfo) :=
  let '(w, active) := _process_strategies env w active in
  let '(w, _) := check_exit_conditions w active in
  (w, active).

End Engine.

Arguments mkWorld {Perf} _ _ _ _ _.
Arguments positions {Perf} _.
Arguments trades {Perf} _.
Arguments logs {Perf} _.
Arguments perf {Perf} _.
Arguments feed_calls {Perf} _.
Arguments closed_for {Perf} _ _ _ _.

(** The UTC calendar date of the specification, as a day number.  The
    engine does not compute it: it takes [date_today]. *)
Definition utc_date (c : Clock) : Z := (utc_now c / 86400)%Z.

End Engine.

(** ** main.py: the endpoints of the position ledger *)

Module Api.

Import Positions Ledger.

(** [TradeRequest] *)
Record TradeRequest : Set := mkTradeRequest {
  tr_symbol : string;
  tr_side : string;
  tr_price : Q;
  tr_qty : Q
}.

(** [POST /api/trade]: the position is updated with the side in upper
    case; the trade row keeps the symbol and the side as they were sent.
    The answer carries the realized profit. *)
Definition create_trade (db : table) (trades : list Trade) (r : TradeRequest)
  : result (table * list Trade * Q) :=
  '(db, pnl) ← update_position_on_trade db (tr_symbol r) (upper (tr_side r))
                  (tr_price r) (tr_qty r);
  Ok (db, save_trade trades (tr_symbol r) (tr_side r) (tr_price r) (tr_qty r)
            pnl, pnl).

(** Successive requests to [POST /api/trade]: a request that raises is
    answered with an error and leaves the tables as they were. *)
Fixpoint create_trades (db : table) (trades : list Trade)
    (rs : list TradeRequest) : table * list Trade :=
  match rs with
  | [] => (db, trades)
  | r :: rs' =>
      match create_trade db trades r with
      | Ok (db', trades', _) => create_trades db' trades' rs'
      | Raise _ => create_trades db trades rs'
      end
  end.

(** The cash that a trade row moves: a sale brings in [price * qty], a
    purchase takes it. *)
Definition cash_flow (t : Trade) : Q :=
  if String.eqb (upper (t_side t)) "SELL" then t_price t * t_qty t
  else - (t_price t * t_qty t).

(** The cost of the position that a row holds: [entry_price * qty] for a
    position bought, its opposite for a position sold, 0 when there is
    none. *)
Definition position_cost (position : option Position) : Q :=
  match position with
  | Some p =>
      if bool_decide (side p = Some "BUY") then entry_price p * qty p
      else if bool_decide (side p = Some "SELL") then - (entry_price p * qty p)
      else 0
  | None => 0
  end.

(** The first [ClosePositionRequest], which [POST /api/position/close]
    takes. *)
Record ClosePositionRequest : Set := mkCloseRequest {
  req_symbol : string;
  req_price : option Q;
  req_qty : option Q
}.

(** The answer of [POST /api/position/close]. *)
Inductive CloseResponse : Set :=
  | CloseError (message : string)
  | Closed (realized_pnl price closed_qty : Q).

(** [POST /api/position/close].  [latest] is the price that the broadcaster
    of the symbol last saw, if any; it is asked only when the request has
    no price.  The side and the quantity are read before the position is
    closed. *)
Definition close_position (db : table) (trades : list Trade)
    (latest : option Q) (req : ClosePositionRequest)
  : table * list Trade * CloseResponse :=
  let price := match req_price req with
               | Some p => Some p
               | None => latest
               end in
  match price with
  | None => (db, trades, CloseError "No price available to close position")
  | Some price =>
      match get_position db (req_symbol req) with
      | None => (db, trades, CloseError "No active position to close")
      | Some before =>
          if Qle_bool (qty before) 0 then
            (db, trades, CloseError "No active position to close")
          else
            let prev_side := side before in
            let prev_qty := qty before in
            let closed_qty :=
              match req_qty req with
              | None => prev_qty
              | Some q => if Qle_bool prev_qty q then prev_qty else q
              end in
            let realized :=
              if bool_decide (prev_side = Some "BUY")
              then (price - entry_price before) * closed_qty
              else (entry_price before - price) * closed_qty in
            let '(db, _) :=
              Positions.close_position db (req_symbol req) (Some closed_qty) in
            let close_side :=
              if bool_decide (prev_side = Some "BUY") then "SELL"
              else if bool_decide (prev_side = Some "SELL") then "BUY"
              else "CLOSE" in
            (db,
             save_trade trades (req_symbol req) close_side price closed_qty
                        realized,
             Closed realized price closed_qty)
      end
  end.

End Api.

(** ** main.py: the in-memory rate limiter *)

Module Limiter.

Definition _RL_WINDOW_SEC : Q := 10.
Definition _RL_MAX_CALLS : Z := 20.

(** [_rate_buckets]: for each key the times of the calls that were let
    through, the oldest first. *)
Abbreviation buckets := (gmap string (list Q)).

(** [while dq and now - dq[0] > _RL_WINDOW_SEC: dq.popleft()] *)
Fixpoint evict (now : Q) (dq : list Q) : list Q :=
  match dq with
  | [] => []
  | t :: dq' => if Qltb _RL_WINDOW_SEC (now - t) then evict now dq' else dq
  end.

(** What [_rl_check] does to its caller: it returns, or it raises
    [HTTPException] with the status 429. *)
Inductive verdict : Set := Pass | HTTP_429.

(** [_rl_check] without a Redis client ([_redis is None]), at the time
    [now] of [time.time()].  Reading [_rate_buckets[key]] makes the bucket
    of a new key.  The optional Prometheus counter is left out. *)
Definition _rl_check (now : Q) (b : buckets) (key : string)
  : buckets * verdict :=
  let dq := evict now (default [] (b !! key)) in
  if (_RL_MAX_CALLS <=? len dq)%Z then (<[key := dq]> b, HTTP_429)
  else (<[key := dq ++ [now]]> b, Pass).

(** Successive calls of [_rl_check] for [key], at the times [ts]: the
    buckets at the end, and the times of the calls that were let through. *)
Fixpoint calls (ts : list Q) (b : buckets) (key : string)
  : buckets * list Q :=
  match ts with
  | [] => (b, [])
  | now :: ts' =>
      let '(b, v) := _rl_check now b key in
      let '(b, passed) := calls ts' b key in
      (b, match v with Pass => now :: passed | HTTP_429 => passed end)
  end.

(** The times are those of a clock that does not go back. *)
Fixpoint ascending (ts : list Q) : Prop :=
  match ts with
  | [] => True
  | t :: ts' => Forall (λ u, t <= u) ts' ∧ ascending ts'
  end.

(** The elements of [l] in the closed window [[a, a + w]]. *)
Definition within (a w : Q) (l : list Q) : list Q :=
  List.filter (λ u, Qle_bool a u && Qle_bool u (a + w)) l.

End Limiter.

(** ** trading_config.py: class TradingManager *)

Module Manager.

Import Engine.

(** The fields of [ExchangeConfig] that the manager reads. *)
Record ExchangeConfig : Set := mkExchangeConfig {
  enabled : bool;
  max_position_size : Q;
  daily_loss_limit : Q
}.

(** The fields of [TradingConfig] that the manager reads. *)
Record TradingConfig : Type := mkTradingConfig {
  mode : TradingMode;
  exchanges : gmap string ExchangeConfig;
  risk_management : bool;
  max_daily_trades : Z
}.

(** [TradingManager]; [active_orders] is never read nor written. *)
Record TradingManager : Type := mkTradingManager {
  config : TradingConfig;
  daily_pnl : gmap string Q;
  daily_trades : gmap string Z
}.

Definition is_trading_enabled (tm : TradingManager) : bool :=
  match mode (config tm) with
  | PAPER_TRADING | LIVE_TRADING => true
  | SIMULATION => false
  end.

Definition is_live_trading (tm : TradingManager) : bool :=
  match mode (config tm) with
  | LIVE_TRADING => true
  | _ => false
  end.

Definition can_place_order (tm : TradingManager) (exchange_type : string)
  : bool :=
  if negb (is_trading_enabled tm) then false
  else
    match exchanges (config tm) !! exchange_type with
    | None => false
    | Some exchange_config =>
        if negb (enabled exchange_config) then false
        else
          let daily_trades_ := default 0%Z (daily_trades tm !! exchange_type) in
          if (max_daily_trades (config tm) <=? daily_trades_)%Z then false
          else true
    end.

Definition check_risk_limits (tm : TradingManager) (exchange_type : string)
    (order_value : Q) : bool :=
  if negb (risk_management (config tm)) then true
  else
    match exchanges (config tm) !! exchange_type with
    | None => false
    | Some exchange_config =>
        if Qltb (max_position_size exchange_config) order_value then false
        else
          let daily_pnl_ := default 0 (daily_pnl tm !! exchange_type) in
          if Qltb daily_pnl_ (- daily_loss_limit exchange_config) then false
          else true
    end.

Definition record_trade (tm : TradingManager) (exchange_type : string)
    (pnl : Q) : TradingManager :=
  mkTradingManager (config tm)
    (<[exchange_type := default 0 (daily_pnl tm !! exchange_type) + pnl]>
       (daily_pnl tm))
    (<[exchange_type :=
         (default 0 (daily_trades tm !! exchange_type) + 1)%Z]>
       (daily_trades tm)).

Definition reset_daily_stats (tm : TradingManager) : TradingManager :=
  mkTradingManager (config tm) ∅ ∅.

(** [get_daily_stats]: for each configured exchange its ["trades"] and its
    ["pnl"]. *)
Definition get_daily_stats (tm : TradingManager) : gmap string (Z * Q) :=
  map_imap (λ exchange_type _,
              Some (default 0%Z (daily_trades tm !! exchange_type),
                    default 0 (daily_pnl tm !! exchange_type)))
           (exchanges (config tm)).

(** The trades of a day, recorded one after the other. *)
Definition record_trades (tm : TradingManager) (l : list (string * Q))
  : TradingManager :=
  foldl (λ tm t, record_trade tm t.1 t.2) tm l.

End Manager.

(** ** multi_symbol_service.py: class MultiSymbolService *)

Module MultiSymbol.

Import Positions Ledger.

(** The service: the web-socket queues of a symbol, which no decision
    reads, are left out. *)
Record MultiSymbolService : Type := mkService {
  active_symbols : gset string;
  symbol_exchanges : gmap string (list string)
}.

(** [add_symbol]: a failed subscription is printed and the loop goes on. *)
Definition add_symbol (s : MultiSymbolService) (sym : string)
    (exchanges : option (list string)) : MultiSymbolService * bool :=
  let exchanges := default ["binance"; "bybit"] exchanges in
  let sym := upper sym in
  (mkService ({[sym]} ∪ active_symbols s)
             (<[sym := exchanges]> (symbol_exchanges s)), true).

Definition remove_symbol (s : MultiSymbolService) (sym : string)
  : MultiSymbolService * bool :=
  let sym := upper sym in
  if decide (sym ∈ active_symbols s) then
    (mkService (active_symbols s ∖ {[sym]}) (delete sym (symbol_exchanges s)),
     true)
  else (s, false).

Definition get_symbol_exchanges (s : MultiSymbolService) (sym : string)
  : list string :=
  default [] (symbol_exchanges s !! upper sym).

(** The answer of [place_multi_symbol_order]. *)
Inductive OrderResponse : Set :=
  | OrderError (message : string)
  | Placed (sym exchange side_ : string) (price quantity pnl : Q).

(** [place_multi_symbol_order]: the side is taken as it was sent. *)
Definition place_multi_symbol_order (s : MultiSymbolService) (db : table)
    (trades : list Trade) (sym side_ : string) (quantity price : Q)
    (exchange_type : option string)
  : result (table * list Trade * OrderResponse) :=
  let sym := upper sym in
  if decide (sym ∈ active_symbols s) then
    let available := default [] (symbol_exchanges s !! sym) in
    let chosen :=
      match exchange_type with
      | Some e =>
          if nonempty e then
            if decide (e ∈ available) then inr e
            else inl (String.append "Exchange "
                        (String.append e
                           (String.append " not available for " sym)))
          else
            match available with
            | [] => inl (String.append "No exchanges available for " sym)
            | e :: _ => inr e
            end
      | None =>
          match available with
          | [] => inl (String.append "No exchanges available for " sym)
          | e :: _ => inr e
          end
      end in
    match chosen with
    | inl message => Ok (db, trades, OrderError message)
    | inr exchange =>
        '(db, pnl) ← _update_position_on_trade db sym side_ price quantity;
        Ok (db, save_trade trades sym side_ price quantity pnl,
            Placed sym exchange side_ price quantity pnl)
    end
  else
    Ok (db, trades,
        OrderError (String.append "Symbol " (String.append sym " not active"))).

(** The answer of [close_symbol_position]. *)
Inductive CloseResponse : Set :=
  | CloseError (message : string)
  | Closed (sym : string) (closed_qty realized_pnl price : Q).

(** [close_symbol_position].  [position] is the row object of the session:
    the side that is read for the closing trade, after [close_position]
    has changed the row, is that of the changed row. *)
Definition close_symbol_position (db : table) (trades : list Trade)
    (sym : string) (quantity : option Q)
  : table * list Trade * CloseResponse :=
  let sym := upper sym in
  let no_position :=
    CloseError (String.append "No active position for " sym) in
  match get_position db sym with
  | None => (db, trades, no_position)
  | Some position =>
      if Qle_bool (qty position) 0 then (db, trades, no_position)
      else
        let close_qty :=
          match quantity with
          | Some q => if truthy q then q else qty position
          | None => qty position
          end in
        let realized_pnl :=
          if bool_decide (side position = Some "BUY")
          then (latest_price position - entry_price position) * close_qty
          else (entry_price position - latest_price position) * close_qty in
        let '(db, _) := close_position db sym (Some close_qty) in
        let position := default position (get_position db sym) in
        let close_side :=
          if bool_decide (side position = Some "BUY") then "SELL" else "BUY" in
        (db,
         save_trade trades sym close_side (latest_price position) close_qty
                    realized_pnl,
         Closed sym close_qty realized_pnl (latest_price position))
  end.

End MultiSymbol.

(** ** real_trading_service.py: class RealTradingService *)

Module RealTrading.

Import Positions Ledger Manager.

(** [_update_position_on_real_trade], which has the text of
    [_update_position_on_trade] of multi_symbol_service.py. *)
Definition _update_position_on_real_trade (db : table) (sym side_ : string)
    (price quantity : Q) : result (table * Q) :=
  let position := get_position db sym in
  if flat position then
    '(db, _) ← create_or_update_position db sym side_ quantity price
                  (Some price);
    Ok (db, 0)
  else
    match position with
    | None => Ok (db, 0)
    | Some position =>
        if bool_decide (Some side_ = side position) then
          let new_qty := qty position + quantity in
          new_entry_price ←
            truediv (entry_price position * qty position + price * quantity)
                    new_qty;
          '(db, _) ← create_or_update_position db sym side_ new_qty
                        new_entry_price (Some price);
          Ok (db, 0)
        else reduce_or_flip db position sym side_ price quantity
    end.

(** What [place_real_order] reads of the answer of the exchange: the
    ['status'], and what [float] makes of the ['price'] and of the
    ['origQty'] when the answer has them. *)
Record OrderResult : Set := mkOrderResult {
  or_status : option string;
  or_price : option (result Q);
  or_origQty : option (result Q)
}.

(** What an answer of [place_real_order] carries besides its ['status']:
    a message, the exception that was caught, or the fill. *)
Inductive Detail : Set :=
  | Message (message : string)
  | TradingError (e : exn)
  | Fill (price quantity pnl : Q) (exchange mode_ : string).

Record Response : Set := mkResponse {
  status : string;
  detail : Detail
}.

(** The tables and the manager of the service. *)
Record State : Type := mkState {
  db : table;
  trades : list Trade;
  trading_manager : TradingManager
}.

Section Exchange.

(** The exchange client, which is not of this repository:
    [ExchangeFactory.get_exchange] and the [place_order] of the client,
    for an exchange type, a symbol, a side, an order type, a quantity and a
    price.  What either raises is caught by [place_real_order]. *)
Variable place_order :
  string → string → string → string → Q → option Q → result OrderResult.

Definition place_real_order (st : State) (exchange_type sym side_ : string)
    (quantity : Q) (price : option Q) (order_type : string)
  : State * Response :=
  let tm := trading_manager st in
  if negb (can_place_order tm exchange_type) then
    (st, mkResponse "error"
           (Message (String.append "Trading not enabled for " exchange_type)))
  else
    let price_or_0 := match price with
                      | Some p => if truthy p then p else 0
                      | None => 0
                      end in
    let order_value := quantity * price_or_0 in
    if negb (check_risk_limits tm exchange_type order_value) then
      (st, mkResponse "error" (Message "Risk limits exceeded"))
    else
      match exchanges (config tm) !! exchange_type with
      | None =>
          (st, mkResponse "error"
                 (Message (String.append "Exchange "
                             (String.append exchange_type " not configured"))))
      | Some exchange_config =>
          let order_result :=
            if is_live_trading tm
            then place_order exchange_type sym side_ order_type quantity price
            else place_order exchange_type sym side_ order_type quantity price
          in
          match order_result with
          | Raise e => (st, mkResponse "error" (TradingError e))
          | Ok order_result =>
              if bool_decide (or_status order_result = Some "FILLED")
                 || bool_decide (or_status order_result = Some "Filled") then
                match
                  (filled_price ←
                     default (Ok price_or_0) (or_price order_result);
                   filled_quantity ←
                     default (Ok quantity) (or_origQty order_result);
                   '(db, pnl) ←
                     _update_position_on_real_trade (db st) sym side_
                       filled_price filled_quantity;
                   Ok (db, filled_price, filled_quantity, pnl))
                with
                | Raise e => (st, mkResponse "error" (TradingError e))
                | Ok (db, filled_price, filled_quantity, pnl) =>
                    let trades :=
                      save_trade (trades st) sym side_ filled_price
                                 filled_quantity pnl in
                    let tm := record_trade tm exchange_type pnl in
                    (mkState db trades tm,
                     mkResponse "ok"
                       (Fill filled_price filled_quantity pnl exchange_type
                             (if is_live_trading tm then "live"
                              else "paper")))
                end
              else
                (st, mkResponse "error"
                       (Message (String.append "Order failed: "
                                   (default "Unknown error"
                                            (or_status order_result)))))
          end
      end.

(** An order, as the arguments of [place_real_order]. *)
Record Order : Set := mkOrder {
  o_exchange_type : string;
  o_symbol : string;
  o_side : string;
  o_quantity : Q;
  o_price : option Q;
  o_order_type : string
}.

(** Successive calls of [place_real_order]: the state at the end and the
    answers. *)
Fixpoint place_real_orders (st : State) (orders : list Order)
  : State * list Response :=
  match orders with
  | [] => (st, [])
  | o :: orders' =>
      let '(st, r) :=
        place_real_order st (o_exchange_type o) (o_symbol o) (o_side o)
                         (o_quantity o) (o_price o) (o_order_type o) in
      let '(st, rs) := place_real_orders st orders' in
      (st, r :: rs)
  end.

(** The call of [place_real_order] in [_open_position] of the engine, which
    shares its session with the service: the price is passed, the order
    type is left to its default, and the ['status'] of the answer is read.
    The manager of the service is kept beside the performance tables. *)
Definition engine_place_real_order {Perf : Type}
    (w : Engine.World (Perf * TradingManager))
    (exchange_type sym side_ : string) (quantity price : Q)
  : Engine.World (Perf * TradingManager) * string :=
  let '(st, r) :=
    place_real_order
      (mkState (Engine.positions w) (Engine.trades w) (Engine.perf w).2)
      exchange_type sym side_ quantity (Some price) "MARKET" in
  (Engine.mkWorld (db st) (trades st) (Engine.logs w)
                  ((Engine.perf w).1, trading_manager st)
                  (Engine.feed_calls w),
   status r).

End Exchange.

End RealTrading.
(** ** ai_trading_strategies.py: the weights of the sub-rules *)

Module Voting.

Import Strategies.

(** The least and the greatest confidence weight that a sub-rule of a
    class appends. *)
Definition weights (k : risk) : Q * Q :=
  match k with
  | HIGH => (0.3, 0.8)
  | MEDIUM => (0.6, 0.8)
  | LOW => (0.5, 0.9)
  end.

(** The two lists of the votes are filled in parallel, with weights
    between [lo] and [hi]. *)
Definition well_formed (lo hi : Q) (v : Votes) : Prop :=
  length (signals v) = length (confidence_scores v) ∧
  Forall (λ w, lo <= w ∧ w <= hi) (confidence_scores v).

End Voting.

(** * Properties *)

(** ** Python's evaluation rules *)

Lemma bind_Ok {A B : Type} (m : result A) (f : A → result B) (b : B) :
  (x ← m; f x) = Ok b ↔ ∃ a, m = Ok a ∧ f a = Ok b.
Proof.
  destruct m as [a|e]; simpl; split.
  - intros H. exists a. auto.
  - intros (a' & Ha & Hf). by injection Ha as ->.
  - discriminate.
  - intros (a' & Ha & _). discriminate.
Qed.

Section MapM.

Context {A B : Type}.

Lemma mapM_nil (f : A → result B) : mapM f [] = Ok [].
Proof. reflexivity. Qed.

Lemma mapM_cons (f : A → result B) (x : A) (l : list A) :
  mapM f (x :: l) = (y ← f x; k ← mapM f l; Ok (y :: k)).
Proof. reflexivity. Qed.

Lemma mapM_Ok (f : A → result B) (l : list A) (out : list B) :
  mapM f l = Ok out ↔ Forall2 (λ x y, f x = Ok y) l out.
Proof.
  revert out. induction l as [|x l IH]; intros out.
  - rewrite mapM_nil. split.
    + intros [= <-]. constructor.
    + intros H. by inversion H.
  - rewrite mapM_cons. split.
    + intros H. apply bind_Ok in H as (y & Hy & H).
      apply bind_Ok in H as (k & Hk & H). injection H as <-.
      constructor; [done|]. by apply IH.
    + intros H. inversion H as [|? y ? k Hy Hk]; subst.
      apply IH in Hk. rewrite Hy, Hk. reflexivity.
Qed.

Lemma mapM_length (f : A → result B) (l : list A) (out : list B) :
  mapM f l = Ok out → length out = length l.
Proof. intros H. apply mapM_Ok in H. symmetry. by eapply Forall2_length. Qed.

Lemma mapM_total (f : A → result B) (l : list A) :
  (∀ x, x ∈ l → ∃ y, f x = Ok y) → ∃ out, mapM f l = Ok out.
Proof.
  induction l as [|x l IH]; intros H.
  - by exists [].
  - destruct (H x) as [y Hy]; [left|].
    destruct IH as [k Hk]; [intros z Hz; apply H; by right|].
    exists (y :: k). apply mapM_Ok. constructor; [done|]. by apply mapM_Ok.
Qed.

Lemma mapM_lookup (f : A → result B) (l : list A) (out : list B) k y :
  mapM f l = Ok out → out !! k = Some y →
  ∃ x, l !! k = Some x ∧ f x = Ok y.
Proof.
  intros H Hk. apply mapM_Ok in H.
  destruct (Forall2_lookup_r _ _ _ _ _ H Hk) as (x & Hx & Hf). eauto.
Qed.

Lemma mapM_never (f : A → result B) (l : list A) (e : exn) :
  (∀ x, x ∈ l → f x ≠ Raise e) → mapM f l ≠ Raise e.
Proof.
  induction l as [|x l IH]; intros H; [done|].
  rewrite mapM_cons.
  pose proof (H x ltac:(left)) as Hx.
  destruct (f x) as [y|e'] eqn:E; simpl; [|congruence].
  assert (mapM f l ≠ Raise e) as Hl by (apply IH; intros z Hz; apply H; by right).
  destruct (mapM f l) as [k|e'']; simpl; congruence.
Qed.

End MapM.

Lemma foldM_cons {A B : Type} (f : B → A → result B) x l acc :
  foldM f (x :: l) acc = (acc' ← f acc x; foldM f l acc').
Proof. reflexivity. Qed.

(** An invariant of a loop, indexed by the number of iterations done. *)
Lemma foldM_invariant {A B : Type} (P : nat → B → Prop)
    (f : B → A → result B) (l : list A) (acc : B) :
  P 0%nat acc →
  (∀ k x a, l !! k = Some x → P k a → ∃ a', f a x = Ok a' ∧ P (S k) a') →
  ∃ r, foldM f l acc = Ok r ∧ P (length l) r.
Proof.
  revert P acc. induction l as [|x l IH]; intros P acc H0 Hstep.
  - exists acc. auto.
  - destruct (Hstep 0%nat x acc) as (a' & Ha & HP); [done|done|].
    destruct (IH (λ k, P (S k)) a') as (r & Hr & HPr); [done| |].
    + intros k y a Hk Ha'. by apply (Hstep (S k)).
    + exists r. rewrite foldM_cons, Ha. auto.
Qed.

Lemma foldM_never {A B : Type} (f : B → A → result B) (l : list A)
    (acc : B) (e : exn) :
  (∀ a x, x ∈ l → f a x ≠ Raise e) → foldM f l acc ≠ Raise e.
Proof.
  revert acc. induction l as [|x l IH]; intros acc H; [done|].
  rewrite foldM_cons.
  pose proof (H acc x ltac:(left)) as Hx.
  destruct (f acc x) as [a'|e'] eqn:E; simpl; [|congruence].
  apply IH. intros a z Hz. apply H. by right.
Qed.

Lemma length_range a b : length (range a b) = Z.to_nat (b - a).
Proof. unfold range. by rewrite length_fmap, length_seq. Qed.

Lemma len_range a b : (a <= b)%Z → len (range a b) = (b - a)%Z.
Proof. intros H. unfold len. rewrite length_range. lia. Qed.

Lemma lookup_range a b k x :
  range a b !! k = Some x ↔ (x = a + Z.of_nat k ∧ Z.of_nat k < b - a)%Z.
Proof.
  unfold range. rewrite list_lookup_fmap. split.
  - intros H. destruct (seq 0 (Z.to_nat (b - a)) !! k) as [j|] eqn:E;
      [|discriminate].
    apply lookup_seq in E as [-> ?]. injection H as <-. lia.
  - intros [-> H]. rewrite (lookup_seq_lt 0 _ k) by lia. done.
Qed.

Lemma elem_of_range a b x : x ∈ range a b ↔ (a <= x < b)%Z.
Proof.
  rewrite list_elem_of_lookup. split.
  - intros [k Hk]. apply lookup_range in Hk. lia.
  - intros H. exists (Z.to_nat (x - a)). apply lookup_range. lia.
Qed.

Lemma length_times {A : Type} (x : A) k : length (times x k) = Z.to_nat k.
Proof. apply length_replicate. Qed.

Lemma lookup_times {A : Type} (x y : A) k i : times x k !! i = Some y → y = x.
Proof. unfold times. intros H. apply lookup_replicate in H. by destruct H. Qed.

Lemma length_times_len {A B : Type} (x : A) (l : list B) :
  length (times x (len l)) = length l.
Proof. rewrite length_times. unfold len. lia. Qed.

Lemma truediv_Ok a b : ¬ b == 0 → truediv a b = Ok (a / b).
Proof.
  intros H. unfold truediv. destruct (Qeq_bool b 0) eqn:E; [|done].
  by apply Qeq_bool_iff in E.
Qed.

Lemma truediv_inv a b q : truediv a b = Ok q → ¬ b == 0 ∧ q = a / b.
Proof.
  unfold truediv. destruct (Qeq_bool b 0) eqn:E; [discriminate|].
  intros [= <-]. split; [|done]. by apply Qeq_bool_neq.
Qed.

Lemma truediv_raise a b e : truediv a b = Raise e → b == 0 ∧ e = ZeroDivisionError.
Proof.
  unfold truediv. destruct (Qeq_bool b 0) eqn:E; [|discriminate].
  intros [= <-]. split; [|done]. by apply Qeq_bool_iff.
Qed.

Lemma inject_Z_nonzero p : p ≠ 0%Z → ¬ inject_Z p == 0.
Proof.
  intros H E. apply H. unfold Qeq in E. simpl in E. lia.
Qed.

Lemma getitem_nonneg {A : Type} (l : list A) i x :
  (0 <= i)%Z → getitem l i = Ok x ↔ l !! Z.to_nat i = Some x.
Proof.
  intros H. unfold getitem.
  destruct (i <? 0)%Z eqn:E; [lia|]. rewrite E.
  destruct (l !! Z.to_nat i); split; congruence.
Qed.

Lemma getitem_total {A : Type} (l : list A) i :
  (0 <= i < len l)%Z → ∃ x, getitem l i = Ok x ∧ l !! Z.to_nat i = Some x.
Proof.
  intros H. destruct (lookup_lt_is_Some_2 l (Z.to_nat i)) as [x Hx].
  { unfold len in H. lia. }
  exists x. split; [|done]. apply getitem_nonneg; [lia|done].
Qed.

Lemma getitem_negative {A : Type} (l : list A) i :
  (- len l <= i < 0)%Z →
  ∃ x, getitem l i = Ok x ∧ l !! Z.to_nat (i + len l) = Some x.
Proof.
  intros H. destruct (lookup_lt_is_Some_2 l (Z.to_nat (i + len l))) as [x Hx].
  { unfold len in *. lia. }
  exists x. split; [|done]. unfold getitem.
  destruct (i <? 0)%Z eqn:E; [|lia].
  destruct (i + len l <? 0)%Z eqn:E'; [lia|]. by rewrite Hx.
Qed.

Lemma getitem_raise {A : Type} (l : list A) i e :
  getitem l i = Raise e → e = IndexError.
Proof.
  unfold getitem. repeat case_match; congruence.
Qed.

Lemma setitem_length {A : Type} (l l' : list A) i x :
  setitem l i x = Ok l' → length l' = length l.
Proof.
  unfold setitem. repeat case_match; try discriminate;
    intros [= <-]; apply length_insert.
Qed.

Lemma setitem_total {A : Type} (l : list A) i x :
  (0 <= i < len l)%Z → ∃ l', setitem l i x = Ok l'.
Proof.
  intros H. unfold setitem.
  destruct (i <? 0)%Z eqn:E; [lia|]. rewrite E.
  destruct (i <? len l)%Z eqn:E'; [|lia]. eauto.
Qed.

Lemma setitem_raise {A : Type} (l : list A) i x e :
  setitem l i x = Raise e → e = IndexError.
Proof.
  unfold setitem. repeat case_match; congruence.
Qed.

Lemma length_slice {A : Type} (l : list A) a b :
  (0 <= a)%Z → (a <= b)%Z → (b <= len l)%Z →
  length (slice l a b) = Z.to_nat (b - a).
Proof.
  intros Ha Hab Hb. unfold slice, clamp.
  destruct (a <? 0)%Z eqn:Ea; [lia|].
  destruct (b <? 0)%Z eqn:Eb; [lia|].
  rewrite length_take, length_drop. unfold len in *. lia.
Qed.

Lemma max_list_total (l : list Q) : l ≠ [] → ∃ m, max_list l = Ok m.
Proof. destruct l; [done|]. simpl. eauto. Qed.

Lemma min_list_total (l : list Q) : l ≠ [] → ∃ m, min_list l = Ok m.
Proof. destruct l; [done|]. simpl. eauto. Qed.

Lemma max_list_raise l e : max_list l = Raise e → e = ValueError.
Proof. destruct l; simpl; congruence. Qed.

Lemma min_list_raise l e : min_list l = Raise e → e = ValueError.
Proof. destruct l; simpl; congruence. Qed.

Lemma slice_nonempty {A : Type} (l : list A) a b :
  (0 <= a)%Z → (a < b)%Z → (b <= len l)%Z → slice l a b ≠ [].
Proof.
  intros Ha Hab Hb E. apply (f_equal length) in E.
  rewrite length_slice in E by lia. simpl in E. lia.
Qed.

Lemma Qltb_lt x y : Qltb x y = true ↔ x < y.
Proof.
  unfold Qltb. rewrite negb_true_iff. split.
  - intros H. apply Qnot_le_lt. intros Hle. apply Qle_bool_iff in Hle. congruence.
  - intros H. destruct (Qle_bool y x) eqn:E; [|done].
    apply Qle_bool_iff in E. lra.
Qed.

Lemma Qltb_ge x y : Qltb x y = false ↔ y <= x.
Proof.
  unfold Qltb. rewrite negb_false_iff. apply Qle_bool_iff.
Qed.

(** [sum] of non-negative numbers. *)
Lemma fold_left_Qplus_nonneg (l : list Q) (acc : Q) :
  0 <= acc → Forall (λ x, 0 <= x) l → 0 <= fold_left Qplus l acc.
Proof.
  revert acc. induction l as [|x l IH]; intros acc Hacc H; simpl; [done|].
  inversion H; subst. apply IH; [lra|done].
Qed.

Lemma sum_nonneg (l : list Q) : Forall (λ x, 0 <= x) l → 0 <= sum l.
Proof. apply fold_left_Qplus_nonneg. lra. Qed.

Lemma Forall_slice {A : Type} (P : A → Prop) (l : list A) a b :
  Forall P l → Forall P (slice l a b).
Proof. intros H. unfold slice. by apply Forall_take, Forall_drop. Qed.

Lemma len_times_len {A B : Type} (x : A) (l : list B) :
  len (times x (len l)) = len l.
Proof. unfold len at 1 3. by rewrite length_times_len. Qed.

Lemma len_nonneg {A : Type} (l : list A) : (0 <= len l)%Z.
Proof. unfold len. lia. Qed.

Lemma bind_never {A B : Type} (m : result A) (f : A → result B) (e : exn) :
  m ≠ Raise e → (∀ a, m = Ok a → f a ≠ Raise e) → (x ← m; f x) ≠ Raise e.
Proof.
  intros Hm Hf. destruct m as [a|e']; simpl; [by apply Hf|congruence].
Qed.

Lemma getitem_never {A : Type} (l : list A) i :
  getitem l i ≠ Raise ZeroDivisionError.
Proof. intros H. by apply getitem_raise in H. Qed.

Lemma setitem_never {A : Type} (l : list A) i x :
  setitem l i x ≠ Raise ZeroDivisionError.
Proof. intros H. by apply setitem_raise in H. Qed.

Lemma max_list_never l : max_list l ≠ Raise ZeroDivisionError.
Proof. intros H. by apply max_list_raise in H. Qed.

Lemma min_list_never l : min_list l ≠ Raise ZeroDivisionError.
Proof. intros H. by apply min_list_raise in H. Qed.

Lemma truediv_never a b : ¬ b == 0 → truediv a b ≠ Raise ZeroDivisionError.
Proof. intros H. by rewrite truediv_Ok. Qed.

Lemma truediv_period a p :
  (1 <= p)%Z → truediv a (inject_Z p) = Ok (a / inject_Z p).
Proof. intros H. apply truediv_Ok, inject_Z_nonzero. lia. Qed.

Create HintDb never.

#[export] Hint Resolve getitem_never setitem_never max_list_never
  min_list_never : never.

(** ** The indicators *)

Module IndicatorFacts.

Import TechnicalIndicators.

(** *** sma *)

Lemma sma_total data p :
  (1 <= p)%Z → ∃ out, sma data p = Ok out ∧ length out = length data.
Proof.
  intros Hp. unfold sma. case_match.
  - eexists. split; [done|]. apply length_times_len.
  - destruct (mapM_total
      (λ i : Z, if (i <? p - 1)%Z then Ok 0
                else truediv (sum (slice data (i - p + 1) (i + 1)))
                             (inject_Z p))
      (range 0 (len data))) as [out Hout].
    + intros i _. case_match; [eauto|]. rewrite truediv_period by done. eauto.
    + exists out. split; [done|]. apply mapM_length in Hout.
      rewrite Hout, length_range. unfold len. lia.
Qed.

Lemma sma_nonneg data p out :
  (1 <= p)%Z → Forall (λ x, 0 <= x) data → sma data p = Ok out →
  Forall (λ x, 0 <= x) out.
Proof.
  intros Hp Hdata. unfold sma. case_match.
  - intros [= <-]. apply Forall_forall. intros x Hx.
    apply list_elem_of_lookup in Hx as [k Hk].
    apply lookup_times in Hk as ->. lra.
  - intros Hmap. apply Forall_forall. intros y Hy.
    apply list_elem_of_lookup in Hy as [k Hk].
    destruct (mapM_lookup _ _ _ _ _ Hmap Hk) as (i & _ & Hi).
    case_match.
    + injection Hi as <-. lra.
    + rewrite truediv_period in Hi by done. injection Hi as <-.
      apply Qle_shift_div_l.
      * replace 0 with (inject_Z 0) by done. rewrite <- Zlt_Qlt. lia.
      * rewrite Qmult_0_l. by apply sum_nonneg, Forall_slice.
Qed.

(** *** ema *)

Lemma ema_total data p :
  (1 <= p)%Z → ∃ out, ema data p = Ok out ∧ length out = length data.
Proof.
  intros Hp. unfold ema. destruct (len data <? p)%Z eqn:E.
  - eexists. split; [done|]. apply length_times_len.
  - apply Z.ltb_ge in E.
    rewrite !truediv_period by lia. simpl.
    destruct (setitem_total (times 0 (len data)) (p - 1)
                (sum (slice data 0 p) / inject_Z p)) as [r0 Hr0].
    { rewrite len_times_len. lia. }
    rewrite Hr0. simpl.
    apply setitem_length in Hr0. rewrite length_times_len in Hr0.
    match goal with |- ∃ out, foldM ?f ?l ?a0 = _ ∧ _ =>
      destruct (foldM_invariant (λ _ acc, length acc = length data) f l a0)
        as (r & Hr & Hlen) end; [done| |eauto].
    intros k i a Hk Ha. apply lookup_range in Hk as [-> Hk].
    destruct (getitem_total data (p + Z.of_nat k)) as (d & -> & _); [lia|].
    destruct (getitem_total a (p + Z.of_nat k - 1)) as (prev & -> & _).
    { unfold len in *. lia. }
    simpl.
    destruct (setitem_total a (p + Z.of_nat k)
      (d * (2 / inject_Z (p + 1)) + prev * (1 - 2 / inject_Z (p + 1))))
      as [a' Ha'].
    { unfold len in *. lia. }
    exists a'. split; [done|]. apply setitem_length in Ha'. congruence.
Qed.

(** *** rsi *)

Lemma rsi_at_total avg_gains avg_losses i :
  Forall (λ x, 0 <= x) avg_gains → Forall (λ x, 0 <= x) avg_losses →
  (0 <= i)%Z → ∃ y, rsi_at avg_gains avg_losses i = Ok y.
Proof.
  intros Hg Hl Hi. unfold rsi_at.
  destruct (i <? len avg_losses)%Z eqn:El.
  - apply Z.ltb_lt in El.
    destruct (getitem_total avg_losses i) as (al & Hal & Hlk); [lia|].
    rewrite Hal. simpl. destruct (Qeq_bool al 0) eqn:Ez; [eauto|].
    destruct (i <? len avg_gains)%Z eqn:Eg; simpl; [|eauto].
    apply Z.ltb_lt in Eg.
    destruct (getitem_total avg_gains i) as (ag & Hag & Hgk); [lia|].
    rewrite Hag. simpl.
    apply Qeq_bool_neq in Ez.
    assert (0 <= al) as Hal0.
    { rewrite Forall_forall in Hl. apply Hl. eapply list_elem_of_lookup_2, Hlk. }
    assert (0 <= ag) as Hag0.
    { rewrite Forall_forall in Hg. apply Hg. eapply list_elem_of_lookup_2, Hgk. }
    rewrite truediv_Ok by done. simpl.
    assert (0 <= ag / al) by (apply Qle_shift_div_l; lra).
    rewrite truediv_Ok by lra. simpl. eauto.
  - simpl. eauto.
Qed.

(** The value of [rsi_at] past the end of the averages. *)
Lemma rsi_at_past_end avg_gains avg_losses i :
  (len avg_losses <= i)%Z → rsi_at avg_gains avg_losses i = Ok 50.
Proof.
  intros H. unfold rsi_at.
  destruct (i <? len avg_losses)%Z eqn:E; [lia|]. done.
Qed.

(** What [rsi] computes when the data is long enough, piece by piece. *)
Lemma rsi_unfold data p :
  (1 <= p)%Z → (p + 1 <= len data)%Z →
  ∃ avg_gains avg_losses rest,
    length avg_losses = (length data - 1)%nat ∧
    mapM (rsi_at avg_gains avg_losses) (range p (len data)) = Ok rest ∧
    rsi data p = Ok (times 50 p ++ rest).
Proof.
  intros Hp Hn. unfold rsi.
  destruct (len data <? p + 1)%Z eqn:E; [lia|].
  destruct (mapM_total
    (λ i : Z, a ← getitem data i; b ← getitem data (i - 1); Ok (a - b))
    (range 1 (len data))) as [deltas Hd].
  { intros i Hi. apply elem_of_range in Hi.
    destruct (getitem_total data i) as (a & -> & _); [lia|].
    destruct (getitem_total data (i - 1)) as (b & -> & _); [lia|].
    simpl. eauto. }
  rewrite Hd. simpl.
  apply mapM_length in Hd. rewrite length_range in Hd.
  set (gains := (λ d : Q, if Qltb 0 d then d else 0) <$> deltas).
  set (losses := (λ d : Q, if Qltb d 0 then - d else 0) <$> deltas).
  assert (Forall (λ x, 0 <= x) gains) as Hgains.
  { apply Forall_fmap, Forall_forall. intros d _. simpl.
    destruct (Qltb 0 d) eqn:Ed; [|lra]. apply Qltb_lt in Ed. lra. }
  assert (Forall (λ x, 0 <= x) losses) as Hlosses.
  { apply Forall_fmap, Forall_forall. intros d _. simpl.
    destruct (Qltb d 0) eqn:Ed; [|lra]. apply Qltb_lt in Ed. lra. }
  destruct (sma_total gains p Hp) as (ag & Hag & Hagl).
  destruct (sma_total losses p Hp) as (al & Hal & Hall).
  rewrite Hag, Hal. simpl.
  destruct (mapM_total (rsi_at ag al) (range p (len data))) as [rest Hrest].
  { intros i Hi. apply elem_of_range in Hi.
    apply rsi_at_total;
      [exact (sma_nonneg gains p ag Hp Hgains Hag)
      |exact (sma_nonneg losses p al Hp Hlosses Hal)|lia]. }
  rewrite Hrest. simpl. exists ag, al, rest. split; [|done].
  rewrite Hall. unfold losses. rewrite length_fmap, Hd. unfold len. lia.
Qed.

Lemma rsi_total data p :
  (1 <= p)%Z → ∃ out, rsi data p = Ok out ∧ length out = length data.
Proof.
  intros Hp. destruct (Z.lt_ge_cases (len data) (p + 1)) as [Hn|Hn].
  - unfold rsi. apply Z.ltb_lt in Hn. rewrite Hn.
    eexists. split; [done|]. apply length_times_len.
  - destruct (rsi_unfold data p Hp Hn) as (ag & al & rest & _ & Hrest & ->).
    eexists. split; [done|].
    rewrite length_app, length_times. apply mapM_length in Hrest.
    rewrite Hrest, length_range. unfold len in *. lia.
Qed.

(** The last value of [rsi] is the fallback 50. *)
Lemma rsi_last data p :
  (1 <= p)%Z → data ≠ [] →
  ∃ out, rsi data p = Ok out ∧ getitem out (-1) = Ok 50.
Proof.
  intros Hp Hne.
  assert (0 < len data)%Z as Hpos.
  { unfold len. destruct data; [done|]. simpl. lia. }
  destruct (Z.lt_ge_cases (len data) (p + 1)) as [Hn|Hn].
  - unfold rsi. apply Z.ltb_lt in Hn. rewrite Hn.
    eexists. split; [done|].
    destruct (getitem_negative (times 50 (len data)) (-1)) as (x & Hx & Hlk).
    { rewrite len_times_len. lia. }
    rewrite Hx. by apply lookup_times in Hlk as ->.
  - destruct (rsi_unfold data p Hp Hn) as (ag & al & rest & Hal & Hrest & ->).
    eexists. split; [done|].
    pose proof (mapM_length _ _ _ Hrest) as Hlen. rewrite length_range in Hlen.
    destruct (getitem_negative (times 50 p ++ rest) (-1)) as (x & Hx & Hlk).
    { unfold len. rewrite length_app, length_times. lia. }
    rewrite Hx. f_equal.
    unfold len in Hlk. rewrite length_app, length_times in Hlk.
    rewrite lookup_app_r in Hlk by (rewrite length_times; unfold len in *; lia).
    destruct (mapM_lookup _ _ _ _ _ Hrest Hlk) as (i & Hi & Hv).
    apply lookup_range in Hi as [-> Hi].
    rewrite rsi_at_past_end in Hv; [by injection Hv|].
    rewrite length_times. unfold len in *. lia.
Qed.

(** The difference of two series of the length of the data, index by
    index, as [macd] takes it twice. *)
Lemma difference_total (a b : list Q) (n : Z) :
  len a = n → len b = n →
  ∃ out, mapM (λ i : Z, x ← getitem a i; y ← getitem b i; Ok (x - y))
              (range 0 n) = Ok out ∧ len out = n.
Proof.
  intros Ha Hb.
  destruct (mapM_total
    (λ i : Z, x ← getitem a i; y ← getitem b i; Ok (x - y)) (range 0 n))
    as [out Hout].
  { intros i Hi. apply elem_of_range in Hi.
    destruct (getitem_total a i) as (x & -> & _); [lia|].
    destruct (getitem_total b i) as (y & -> & _); [lia|].
    simpl. eauto. }
  exists out. split; [done|]. apply mapM_length in Hout.
  unfold len. rewrite Hout, length_range. pose proof (len_nonneg a). lia.
Qed.

Lemma ema_total_len data p :
  (1 <= p)%Z → ∃ out, ema data p = Ok out ∧ len out = len data.
Proof.
  intros Hp. destruct (ema_total data p Hp) as (out & H & Hl).
  exists out. split; [done|]. unfold len. by rewrite Hl.
Qed.

Lemma macd_total data fast slow signal :
  (1 <= fast)%Z → (1 <= slow)%Z → (1 <= signal)%Z →
  ∃ macd_line signal_line histogram,
    macd data fast slow signal = Ok (macd_line, signal_line, histogram) ∧
    length macd_line = length data ∧ length signal_line = length data ∧
    length histogram = length data.
Proof.
  intros Hf Hs Hg. unfold macd.
  destruct (ema_total_len data fast Hf) as (ef & -> & Hef).
  destruct (ema_total_len data slow Hs) as (es & -> & Hes). simpl.
  destruct (difference_total ef es (len data) Hef Hes) as (ml & -> & Hml).
  simpl.
  destruct (ema_total_len ml signal Hg) as (sl & -> & Hsl). simpl.
  rewrite Hml in Hsl.
  destruct (difference_total ml sl (len data) Hml Hsl) as (hi & -> & Hhi).
  simpl. exists ml, sl, hi. unfold len in *. split; [done|]. lia.
Qed.

Lemma bollinger_bands_total np_std data period std_dev :
  (1 <= period)%Z →
  ∃ upper middle lower,
    bollinger_bands np_std data period std_dev = Ok (upper, middle, lower) ∧
    length upper = length data ∧ length middle = length data ∧
    length lower = length data.
Proof.
  intros Hp. unfold bollinger_bands.
  destruct (sma_total data period Hp) as (m & -> & Hm). simpl.
  match goal with |- context [mapM ?f ?l] =>
    destruct (mapM_total f l) as [bands Hb] end.
  { intros i Hi. apply elem_of_range in Hi. case_match.
    - destruct (getitem_total data i) as (d & -> & _); [lia|]. simpl. eauto.
    - destruct (getitem_total m i) as (x & -> & _).
      { unfold len in *. lia. }
      simpl. eauto. }
  rewrite Hb. simpl. exists (bands.*1), m, (bands.*2).
  apply mapM_length in Hb. rewrite length_range in Hb.
  rewrite !length_fmap. unfold len in *. split; [done|]. lia.
Qed.

(** The window that ends at [i] is not empty once [i] is past the warm-up. *)
Lemma window_nonempty (l : list Q) period i :
  (1 <= period)%Z → (period - 1 <= i)%Z → (i < len l)%Z →
  slice l (i - period + 1) (i + 1) ≠ [].
Proof. intros. apply slice_nonempty; lia. Qed.

Lemma Qeq_bool_false_minus a b : Qeq_bool a b = false → ¬ a - b == 0.
Proof. intros H E. apply Qeq_bool_neq in H. apply H. lra. Qed.

Lemma stochastic_at_total high low close k i :
  (1 <= k)%Z → len high = len close → len low = len close →
  (0 <= i < len close)%Z → ∃ y, stochastic_at high low close k i = Ok y.
Proof.
  intros Hk Hh Hl Hi. unfold stochastic_at.
  destruct (i <? k - 1)%Z eqn:E; [eauto|]. apply Z.ltb_ge in E.
  destruct (max_list_total (slice high (i - k + 1) (i + 1))) as [hh ->].
  { apply window_nonempty; lia. }
  destruct (min_list_total (slice low (i - k + 1) (i + 1))) as [ll ->].
  { apply window_nonempty; lia. }
  simpl. destruct (Qeq_bool hh ll) eqn:Eq; simpl; [eauto|].
  destruct (getitem_total close i) as (c & -> & _); [lia|]. simpl.
  rewrite truediv_Ok by (by apply Qeq_bool_false_minus). simpl. eauto.
Qed.

Lemma stochastic_total high low close k d :
  (1 <= k)%Z → (1 <= d)%Z →
  length high = length close → length low = length close →
  ∃ k_percent d_percent,
    stochastic high low close k d = Ok (k_percent, d_percent) ∧
    length k_percent = length close ∧ length d_percent = length close.
Proof.
  intros Hk Hd Hh Hl. unfold stochastic.
  destruct (mapM_total (stochastic_at high low close k) (range 0 (len close)))
    as [kp Hkp].
  { intros i Hi. apply elem_of_range in Hi.
    apply stochastic_at_total; unfold len in *; lia. }
  rewrite Hkp. simpl.
  destruct (sma_total kp d Hd) as (dp & -> & Hdp). simpl.
  apply mapM_length in Hkp. rewrite length_range in Hkp.
  exists kp, dp. unfold len in *. split; [done|]. lia.
Qed.

Lemma true_range_total high low close i :
  len low = len high → len close = len high → (1 <= i < len high)%Z →
  ∃ y, true_range high low close i = Ok y.
Proof.
  intros Hl Hc Hi. unfold true_range.
  destruct (getitem_total high i) as (h & -> & _); [lia|].
  destruct (getitem_total low i) as (l & -> & _); [lia|].
  destruct (getitem_total close (i - 1)) as (pc & -> & _); [lia|].
  simpl. eauto.
Qed.

Lemma true_ranges_total high low close :
  len low = len high → len close = len high → (2 <= len high)%Z →
  ∃ trs, mapM (true_range high low close) (range 1 (len high)) = Ok trs ∧
         len trs = (len high - 1)%Z.
Proof.
  intros Hl Hc Hn.
  destruct (mapM_total (true_range high low close) (range 1 (len high)))
    as [trs Htrs].
  { intros i Hi. apply elem_of_range in Hi. by apply true_range_total. }
  exists trs. split; [done|]. apply mapM_length in Htrs.
  unfold len at 1. rewrite Htrs, length_range. lia.
Qed.

Lemma atr_total high low close period :
  (1 <= period)%Z →
  length high = length close → length low = length close →
  ∃ out, atr high low close period = Ok out ∧ length out = length close.
Proof.
  intros Hp Hh Hl. unfold atr.
  destruct (len high <? 2)%Z eqn:E.
  - eexists. split; [done|]. by rewrite length_times_len.
  - apply Z.ltb_ge in E.
    destruct (true_ranges_total high low close) as (trs & -> & Htrs);
      [unfold len; congruence|unfold len; congruence|done|].
    simpl. destruct (sma_total trs period Hp) as (avg & -> & Havg). simpl.
    eexists. split; [done|].
    rewrite length_app, length_times, Havg. unfold len in *. lia.
Qed.

Lemma williams_r_at_total high low close period i :
  (1 <= period)%Z → len high = len close → len low = len close →
  (0 <= i < len close)%Z → ∃ y, williams_r_at high low close period i = Ok y.
Proof.
  intros Hk Hh Hl Hi. unfold williams_r_at.
  destruct (i <? period - 1)%Z eqn:E; [eauto|]. apply Z.ltb_ge in E.
  destruct (max_list_total (slice high (i - period + 1) (i + 1))) as [hh ->].
  { apply window_nonempty; lia. }
  destruct (min_list_total (slice low (i - period + 1) (i + 1))) as [ll ->].
  { apply window_nonempty; lia. }
  simpl. destruct (Qeq_bool hh ll) eqn:Eq; simpl; [eauto|].
  destruct (getitem_total close i) as (c & -> & _); [lia|]. simpl.
  rewrite truediv_Ok by (by apply Qeq_bool_false_minus). simpl. eauto.
Qed.

Lemma williams_r_total high low close period :
  (1 <= period)%Z →
  length high = length close → length low = length close →
  ∃ out, williams_r high low close period = Ok out ∧
         length out = length close.
Proof.
  intros Hp Hh Hl. unfold williams_r.
  destruct (mapM_total (williams_r_at high low close period)
              (range 0 (len close))) as [out Hout].
  { intros i Hi. apply elem_of_range in Hi.
    apply williams_r_at_total; unfold len in *; lia. }
  exists out. split; [done|]. apply mapM_length in Hout.
  rewrite Hout, length_range. unfold len. lia.
Qed.

Lemma typical_price_total high low close j :
  len high = len close → len low = len close → (0 <= j < len close)%Z →
  ∃ y, typical_price high low close j = Ok y.
Proof.
  intros Hh Hl Hj. unfold typical_price.
  destruct (getitem_total high j) as (h & -> & _); [lia|].
  destruct (getitem_total low j) as (l & -> & _); [lia|].
  destruct (getitem_total close j) as (c & -> & _); [lia|].
  simpl. eauto.
Qed.

Lemma cci_at_total high low close period i :
  (1 <= period)%Z → len high = len close → len low = len close →
  (0 <= i < len close)%Z → ∃ y, cci_at high low close period i = Ok y.
Proof.
  intros Hp Hh Hl Hi. unfold cci_at.
  destruct (i <? period - 1)%Z eqn:E; [eauto|]. apply Z.ltb_ge in E.
  destruct (typical_price_total high low close i) as (tp & ->); [done..|].
  simpl. unfold cci_sma_tp.
  destruct (mapM_total (typical_price high low close)
              (range (i - period + 1) (i + 1))) as [tps ->].
  { intros j Hj. apply elem_of_range in Hj.
    apply typical_price_total; [done..|lia]. }
  simpl. rewrite truediv_period by done. simpl.
  unfold cci_mean_deviation.
  match goal with |- context [mapM ?f ?l] =>
    destruct (mapM_total f l) as [devs ->] end.
  { intros j Hj. apply elem_of_range in Hj.
    destruct (typical_price_total high low close j) as (t & ->);
      [done..|lia|]. simpl. eauto. }
  simpl. rewrite truediv_period by done. simpl.
  destruct (Qeq_bool _ 0) eqn:Ez; [eauto|].
  apply Qeq_bool_neq in Ez. rewrite truediv_Ok; [eauto|].
  intros Hz. apply Ez. apply Qmult_integral in Hz as [Hz|Hz]; [|done].
  discriminate Hz.
Qed.

Lemma cci_total high low close period :
  (1 <= period)%Z →
  length high = length close → length low = length close →
  ∃ out, cci high low close period = Ok out ∧ length out = length close.
Proof.
  intros Hp Hh Hl. unfold cci.
  destruct (mapM_total (cci_at high low close period) (range 0 (len close)))
    as [out Hout].
  { intros i Hi. apply elem_of_range in Hi.
    apply cci_at_total; unfold len in *; lia. }
  exists out. split; [done|]. apply mapM_length in Hout.
  rewrite Hout, length_range. unfold len. lia.
Qed.

Lemma adx_dm_total high low i :
  len low = len high → (1 <= i < len high)%Z →
  ∃ y, adx_dm high low i = Ok y.
Proof.
  intros Hl Hi. unfold adx_dm.
  destruct (getitem_total high i) as (hi & -> & _); [lia|].
  destruct (getitem_total high (i - 1)) as (hp & -> & _); [lia|].
  destruct (getitem_total low (i - 1)) as (lp & -> & _); [lia|].
  destruct (getitem_total low i) as (li & -> & _); [lia|].
  simpl. eauto.
Qed.

Lemma adx_di_total dm_plus dm_minus tr_values period i :
  (1 <= period)%Z → ∃ y, adx_di dm_plus dm_minus tr_values period i = Ok y.
Proof.
  intros Hp. unfold adx_di. case_match; [eauto|].
  rewrite !truediv_period by done. simpl.
  destruct (Qeq_bool _ 0) eqn:Ez; [eauto|]. apply Qeq_bool_neq in Ez.
  rewrite !truediv_Ok by done. simpl. eauto.
Qed.

Lemma adx_dx_total di_plus di_minus i :
  (0 <= i < len di_plus)%Z → len di_minus = len di_plus →
  ∃ y, adx_dx di_plus di_minus i = Ok y.
Proof.
  intros Hi Hm. unfold adx_dx.
  destruct (getitem_total di_plus i) as (p & -> & _); [lia|].
  destruct (getitem_total di_minus i) as (m & -> & _); [lia|].
  simpl. destruct (Qltb 0 (p + m)) eqn:E; [|eauto].
  apply Qltb_lt in E. rewrite truediv_Ok by lra. simpl. eauto.
Qed.

Lemma adx_step_total di_plus di_minus period adx_values i :
  (1 <= period)%Z → (0 <= i < len di_plus)%Z → len di_minus = len di_plus →
  adx_values ≠ [] →
  ∃ v, adx_step di_plus di_minus period adx_values i = Ok (adx_values ++ [v]).
Proof.
  intros Hp Hi Hm Hne. unfold adx_step. case_match; [eauto|].
  destruct (adx_dx_total di_plus di_minus i Hi Hm) as (dx & ->). simpl.
  case_match; [eauto|].
  destruct (getitem_negative adx_values (-1)) as (prev & -> & _).
  { unfold len. destruct adx_values; [done|]. simpl. lia. }
  simpl. rewrite truediv_period by done. simpl. eauto.
Qed.

Lemma adx_total high low close period :
  (1 <= period)%Z →
  length high = length close → length low = length close →
  ∃ out, adx high low close period = Ok out ∧ length out = length close.
Proof.
  intros Hp Hh Hl. unfold adx.
  destruct (len high <? 2)%Z eqn:E.
  - eexists. split; [done|]. by rewrite length_times_len.
  - apply Z.ltb_ge in E.
    destruct (mapM_total (adx_dm high low) (range 1 (len high))) as [dm Hdm].
    { intros i Hi. apply elem_of_range in Hi.
      apply adx_dm_total; [unfold len; congruence|done]. }
    rewrite Hdm. simpl.
    apply mapM_length in Hdm. rewrite length_range in Hdm.
    assert (len (dm.*1) = (len high - 1)%Z) as Hdm1.
    { unfold len in *. rewrite length_fmap. lia. }
    destruct (true_ranges_total high low close) as (trs & -> & Htrs);
      [unfold len; congruence|unfold len; congruence|done|].
    simpl.
    match goal with |- context [mapM ?f ?l] =>
      destruct (mapM_total f l) as [di Hdi] end.
    { intros i _. by apply adx_di_total. }
    rewrite Hdi. simpl.
    apply mapM_length in Hdi. rewrite length_range, Hdm1 in Hdi.
    assert (len (di.*1) = (len high - 1)%Z) as Hdi1.
    { unfold len. rewrite length_fmap. unfold len in *. lia. }
    assert (len (di.*2) = len (di.*1)) as Hdi2.
    { unfold len. by rewrite !length_fmap. }
    rewrite Hdi1.
    match goal with |- ∃ out, foldM ?f ?l ?a0 = _ ∧ _ =>
      destruct (foldM_invariant (λ k acc, length acc = S k) f l a0)
        as (r & Hr & Hlen) end.
    + rewrite length_times. lia.
    + intros k i a Hk Ha. apply lookup_range in Hk as [-> Hk].
      destruct (adx_step_total (di.*1) (di.*2) period a (0 + Z.of_nat k))
        as (v & Hv); [done|lia|done| |].
      * destruct a; [done|done].
      * exists (a ++ [v]). split; [done|]. rewrite length_app. simpl. lia.
    + exists r. split; [done|]. rewrite Hlen, length_range.
      unfold len in *. lia.
Qed.

Lemma Ok_never {A : Type} (a : A) (e : exn) : Ok a ≠ Raise e.
Proof. discriminate. Qed.

Lemma total_never {A : Type} (m : result A) (P : A → Prop) (e : exn) :
  (∃ a, m = Ok a ∧ P a) → m ≠ Raise e.
Proof. intros (a & -> & _). discriminate. Qed.

#[export] Hint Resolve Ok_never : never.

(** Splits a computation at its binds and loops, leaving the divisions. *)
Ltac never :=
  repeat first
    [ progress auto with never
    | apply bind_never; [|intros ? ?]
    | apply mapM_never; intros ? ? ].

Lemma sma_never data p : (1 <= p)%Z → sma data p ≠ Raise ZeroDivisionError.
Proof. intros Hp. eapply total_never, sma_total, Hp. Qed.

Lemma stochastic_at_never high low close k i :
  stochastic_at high low close k i ≠ Raise ZeroDivisionError.
Proof.
  unfold stochastic_at. case_match; never.
  destruct (Qeq_bool _ _) eqn:E; simpl; never.
  by apply truediv_never, Qeq_bool_false_minus.
Qed.

Lemma stochastic_never high low close k d :
  (1 <= d)%Z → stochastic high low close k d ≠ Raise ZeroDivisionError.
Proof.
  intros Hd. unfold stochastic. never.
  - apply stochastic_at_never.
  - by apply sma_never.
Qed.

Lemma williams_r_never high low close period :
  williams_r high low close period ≠ Raise ZeroDivisionError.
Proof.
  unfold williams_r. never. unfold williams_r_at. case_match; never.
  destruct (Qeq_bool _ _) eqn:E; simpl; never.
  by apply truediv_never, Qeq_bool_false_minus.
Qed.

Lemma typical_price_never high low close j :
  typical_price high low close j ≠ Raise ZeroDivisionError.
Proof. unfold typical_price. never. Qed.

Lemma true_range_never high low close i :
  true_range high low close i ≠ Raise ZeroDivisionError.
Proof. unfold true_range. never. Qed.

#[export] Hint Resolve typical_price_never true_range_never : never.

Lemma truediv_period_never a p :
  (1 <= p)%Z → truediv a (inject_Z p) ≠ Raise ZeroDivisionError.
Proof. intros. by rewrite truediv_period. Qed.

#[export] Hint Resolve truediv_period_never sma_never : never.

Lemma cci_never high low close period :
  (1 <= period)%Z → cci high low close period ≠ Raise ZeroDivisionError.
Proof.
  intros Hp. unfold cci, cci_at, cci_sma_tp, cci_mean_deviation.
  never. case_match; never.
  destruct (Qeq_bool _ 0) eqn:Ez; never.
  apply Qeq_bool_neq in Ez. apply truediv_never.
  intros Hz. apply Ez. apply Qmult_integral in Hz as [Hz|Hz]; [|done].
  discriminate Hz.
Qed.

Lemma atr_never high low close period :
  (1 <= period)%Z → atr high low close period ≠ Raise ZeroDivisionError.
Proof. intros Hp. unfold atr. case_match; never. Qed.

Lemma adx_dx_never di_plus di_minus i :
  adx_dx di_plus di_minus i ≠ Raise ZeroDivisionError.
Proof.
  unfold adx_dx. never. destruct (Qltb 0 _) eqn:E; never.
  apply Qltb_lt in E. apply truediv_never. lra.
Qed.

Lemma adx_di_never dm_plus dm_minus tr_values period i :
  (1 <= period)%Z →
  adx_di dm_plus dm_minus tr_values period i ≠ Raise ZeroDivisionError.
Proof.
  intros Hp. eapply total_never.
  destruct (adx_di_total dm_plus dm_minus tr_values period i Hp) as [y Hy].
  exists y. split; [exact Hy|exact I].
Qed.

#[export] Hint Resolve adx_dx_never adx_di_never : never.

Lemma adx_never high low close period :
  (1 <= period)%Z → adx high low close period ≠ Raise ZeroDivisionError.
Proof.
  intros Hp. unfold adx. case_match; never.
  apply foldM_never. intros acc i _. unfold adx_step.
  case_match; never. case_match; never.
Qed.

(** *** Warm-up values *)

Lemma rsi_warmup data p out k y :
  rsi data p = Ok out → out !! k = Some y → (Z.of_nat k < p)%Z → y = 50.
Proof.
  unfold rsi. destruct (len data <? p + 1)%Z.
  - intros [= <-] Hk _. by apply lookup_times in Hk.
  - intros H Hk Hlt.
    apply bind_Ok in H as (deltas & _ & H).
    apply bind_Ok in H as (ag & _ & H).
    apply bind_Ok in H as (al & _ & H).
    apply bind_Ok in H as (rest & _ & H). injection H as <-.
    rewrite lookup_app_l in Hk by (rewrite length_times; lia).
    by apply lookup_times in Hk.
Qed.

Lemma williams_r_warmup high low close p out k y :
  williams_r high low close p = Ok out → out !! k = Some y →
  (Z.of_nat k < p - 1)%Z → y = -50.
Proof.
  unfold williams_r. intros H Hk Hlt.
  destruct (mapM_lookup _ _ _ _ _ H Hk) as (i & Hi & Hy).
  apply lookup_range in Hi as [-> _]. unfold williams_r_at in Hy.
  destruct (0 + Z.of_nat k <? p - 1)%Z eqn:E; [|lia]. by injection Hy.
Qed.

Lemma cci_at_flat high low close p i sma_tp md y :
  cci_at high low close p i = Ok y →
  cci_sma_tp high low close p i = Ok sma_tp →
  cci_mean_deviation high low close p i sma_tp = Ok md →
  md == 0 → y = 0.
Proof.
  unfold cci_at. intros H Hs Hm Hz. case_match; [by injection H|].
  apply bind_Ok in H as (tp & _ & H). rewrite Hs in H. simpl in H.
  rewrite Hm in H. simpl in H.
  apply Qeq_bool_iff in Hz. rewrite Hz in H. by injection H.
Qed.

Lemma cci_warmup high low close p out k y :
  cci high low close p = Ok out → out !! k = Some y →
  ((Z.of_nat k < p - 1)%Z → y = 0) ∧
  (∀ sma_tp md,
     cci_sma_tp high low close p (Z.of_nat k) = Ok sma_tp →
     cci_mean_deviation high low close p (Z.of_nat k) sma_tp = Ok md →
     md == 0 → y = 0).
Proof.
  unfold cci. intros H Hk.
  destruct (mapM_lookup _ _ _ _ _ H Hk) as (i & Hi & Hy).
  apply lookup_range in Hi as [-> _]. rewrite Z.add_0_l in Hy. split.
  - intros Hlt. unfold cci_at in Hy.
    destruct (Z.of_nat k <? p - 1)%Z eqn:E; [|lia]. by injection Hy.
  - intros sma_tp md. by apply cci_at_flat.
Qed.

(** *** Guarded ratios *)

Lemma rsi_at_flat avg_gains avg_losses i x :
  (i < len avg_losses)%Z → getitem avg_losses i = Ok x → x == 0 →
  rsi_at avg_gains avg_losses i = Ok 100.
Proof.
  intros Hi Hx Hz. unfold rsi_at. apply Z.ltb_lt in Hi. rewrite Hi, Hx. simpl.
  apply Qeq_bool_iff in Hz. by rewrite Hz.
Qed.

Lemma stochastic_at_flat high low close k i hh ll :
  (k - 1 <= i)%Z →
  max_list (slice high (i - k + 1) (i + 1)) = Ok hh →
  min_list (slice low (i - k + 1) (i + 1)) = Ok ll →
  hh == ll → stochastic_at high low close k i = Ok 50.
Proof.
  intros Hi Hh Hl Hz. unfold stochastic_at.
  destruct (i <? k - 1)%Z eqn:E; [lia|]. rewrite Hh, Hl. simpl.
  apply Qeq_bool_iff in Hz. by rewrite Hz.
Qed.

Lemma williams_r_at_flat high low close p i hh ll :
  (p - 1 <= i)%Z →
  max_list (slice high (i - p + 1) (i + 1)) = Ok hh →
  min_list (slice low (i - p + 1) (i + 1)) = Ok ll →
  hh == ll → williams_r_at high low close p i = Ok (-50).
Proof.
  intros Hi Hh Hl Hz. unfold williams_r_at.
  destruct (i <? p - 1)%Z eqn:E; [lia|]. rewrite Hh, Hl. simpl.
  apply Qeq_bool_iff in Hz. by rewrite Hz.
Qed.

Lemma adx_di_flat dm_plus dm_minus tr_values p i :
  (1 <= p)%Z → (p - 1 <= i)%Z →
  sum (slice tr_values (i - p + 1) (i + 1)) / inject_Z p == 0 →
  adx_di dm_plus dm_minus tr_values p i = Ok (0, 0).
Proof.
  intros Hp Hi Hz. unfold adx_di.
  destruct (i <? p - 1)%Z eqn:E; [lia|].
  rewrite !truediv_period by done. simpl.
  apply Qeq_bool_iff in Hz. by rewrite Hz.
Qed.

Lemma adx_dx_flat di_plus di_minus i a b :
  getitem di_plus i = Ok a → getitem di_minus i = Ok b → a + b <= 0 →
  adx_dx di_plus di_minus i = Ok 0.
Proof.
  intros Ha Hb Hz. unfold adx_dx. rewrite Ha, Hb. simpl.
  apply Qltb_ge in Hz. by rewrite Hz.
Qed.

End IndicatorFacts.

(** ** The position ledger *)

Module LedgerFacts.

Import Positions Ledger.

Lemma get_position_insert (db : table) sym p :
  is_active p = true → get_position (<[upper sym := p]> db) sym = Some p.
Proof.
  intros H. unfold get_position. by rewrite lookup_insert_eq, H.
Qed.

Lemma get_position_Some (db : table) sym p :
  get_position db sym = Some p → db !! upper sym = Some p ∧ is_active p = true.
Proof.
  unfold get_position. destruct (db !! upper sym) as [q|]; [|done].
  destruct (is_active q) eqn:E; [|done]. by intros [= <-].
Qed.

Lemma mark_fields p s q e lp :
  symbol (mark p s q e lp) = symbol p ∧ side (mark p s q e lp) = side p ∧
  qty (mark p s q e lp) = qty p ∧
  entry_price (mark p s q e lp) = entry_price p ∧
  is_active (mark p s q e lp) = is_active p.
Proof. unfold mark. by repeat case_match. Qed.

(** What [create_or_update_position] leaves in the table when the symbol has
    an active row. *)
Lemma update_existing (db : table) sym p side_ qty_ entry lp :
  get_position db sym = Some p →
  ∃ db' p', create_or_update_position db sym side_ qty_ entry lp
              = Ok (db', p') ∧
            get_position db' sym = Some p' ∧ side p' = Some side_ ∧
            qty p' = qty_ ∧ entry_price p' = entry.
Proof.
  intros Hp. unfold create_or_update_position. rewrite Hp.
  apply get_position_Some in Hp as [_ Hact].
  eexists _, _. split; [done|].
  match goal with |- context [mark ?p0 ?s ?q ?e ?l] =>
    destruct (mark_fields p0 s q e l) as (_ & Hs & Hq & He & Ha) end.
  split; [by apply get_position_insert; rewrite Ha|]. by rewrite Hs, Hq, He.
Qed.

(** ... and when it has no row at all. *)
Lemma create_fresh (db : table) sym side_ qty_ entry lp :
  db !! upper sym = None →
  ∃ db' p', create_or_update_position db sym side_ qty_ entry lp
              = Ok (db', p') ∧
            get_position db' sym = Some p' ∧ side p' = Some side_ ∧
            qty p' = qty_ ∧ entry_price p' = entry.
Proof.
  intros Hp. unfold create_or_update_position, get_position. rewrite Hp.
  eexists _, _. split; [done|].
  match goal with |- context [mark ?p0 ?s ?q ?e ?l] =>
    destruct (mark_fields p0 s q e l) as (_ & Hs & Hq & He & Ha) end.
  split; [by apply get_position_insert; rewrite Ha|]. by rewrite Hs, Hq, He.
Qed.

(** A full close through [close_position]. *)
Lemma close_full (db : table) sym p q :
  get_position db sym = Some p → 0 < qty p → qty p <= q →
  ∃ db' p', close_position db sym (Some q) = (db', Some p') ∧
            get_position db' sym = Some p' ∧ side p' = None ∧ qty p' = 0.
Proof.
  intros Hp Hpos Hq. unfold close_position. rewrite Hp.
  apply get_position_Some in Hp as [_ Hact].
  destruct (Qle_bool (qty p) 0) eqn:E.
  { apply Qle_bool_iff in E. lra. }
  apply Qle_bool_iff in Hq. rewrite Hq.
  eexists _, _. split; [done|]. split; [|done].
  by apply get_position_insert.
Qed.

Lemma flat_open (db : table) sym :
  (db !! upper sym = None ∨
   ∃ p, get_position db sym = Some p ∧ (qty p == 0 ∨ side p = None)) →
  flat (get_position db sym) = true.
Proof.
  intros [H|(p & -> & H)].
  - unfold get_position. by rewrite H.
  - simpl. destruct H as [H| ->].
    + apply Qeq_bool_iff in H. by rewrite H.
    + rewrite bool_decide_eq_true_2 by done. apply orb_true_r.
Qed.

Lemma flat_held p s : 0 < qty p → side p = Some s → flat (Some p) = false.
Proof.
  intros Hq Hs. simpl. apply orb_false_iff. split.
  - destruct (Qeq_bool (qty p) 0) eqn:E; [|done].
    apply Qeq_bool_iff in E. lra.
  - apply bool_decide_eq_false_2. congruence.
Qed.

(** The opening of a position, common to the two functions. *)
Lemma open_position (db : table) sym side_ price qty_ :
  (db !! upper sym = None ∨
   ∃ p, get_position db sym = Some p ∧ (qty p == 0 ∨ side p = None)) →
  ∃ db' p',
    ('(db, _) ← create_or_update_position db sym side_ qty_ price (Some price);
     Ok (db, 0)) = Ok (db', 0) ∧
    get_position db' sym = Some p' ∧ qty p' = qty_ ∧
    entry_price p' = price ∧ side p' = Some side_.
Proof.
  intros [H|(p & H & _)].
  - destruct (create_fresh db sym side_ qty_ price (Some price) H)
      as (db' & p' & -> & ? & ? & ? & ?). simpl. eauto 10.
  - destruct (update_existing db sym p side_ qty_ price (Some price) H)
      as (db' & p' & -> & ? & ? & ? & ?). simpl. eauto 10.
Qed.

Lemma reduce_or_flip_partial (db : table) p sym side_ price qty_ s :
  get_position db sym = Some p → side p = Some s → qty_ < qty p →
  ∃ db' p', reduce_or_flip db p sym side_ price qty_
              = Ok (db', realized_on p price qty_) ∧
            get_position db' sym = Some p' ∧ qty p' = qty p - qty_ ∧
            entry_price p' = entry_price p ∧ side p' = Some s.
Proof.
  intros Hp Hs Hlt. unfold reduce_or_flip.
  apply Qltb_lt in Hlt. rewrite Hlt.
  destruct (update_existing db sym p (default EmptyString (side p))
              (qty p - qty_) (entry_price p) (Some price) Hp)
    as (db' & p' & -> & ? & Hs' & ? & ?).
  simpl. exists db', p'. rewrite Hs in Hs'. done.
Qed.

Lemma reduce_or_flip_full (db : table) p sym side_ price qty_ :
  get_position db sym = Some p → 0 < qty_ → qty_ == qty p →
  ∃ db' p' r, reduce_or_flip db p sym side_ price qty_ = Ok (db', r) ∧
              r == realized_on p price (qty p) ∧
              get_position db' sym = Some p' ∧ qty p' = 0 ∧ side p' = None.
Proof.
  intros Hp Hpos Heq. unfold reduce_or_flip.
  destruct (Qltb qty_ (qty p)) eqn:E.
  { apply Qltb_lt in E. lra. }
  pose proof Heq as Heqb. apply Qeq_bool_iff in Heqb. rewrite Heqb.
  destruct (close_full db sym p qty_ Hp) as (db' & p' & -> & ? & ? & ?);
    [lra|lra|].
  exists db', p', (realized_on p price qty_). split; [done|].
  split; [|done]. unfold realized_on. case_match; by rewrite Heq.
Qed.

Lemma reduce_or_flip_flip (db : table) p sym side_ price qty_ :
  get_position db sym = Some p → qty p < qty_ →
  ∃ db' p', reduce_or_flip db p sym side_ price qty_
              = Ok (db', realized_on p price (qty p)) ∧
            get_position db' sym = Some p' ∧ qty p' = qty_ - qty p ∧
            entry_price p' = price ∧ side p' = Some side_.
Proof.
  intros Hp Hlt. unfold reduce_or_flip.
  destruct (Qltb qty_ (qty p)) eqn:E.
  { apply Qltb_lt in E. lra. }
  destruct (Qeq_bool qty_ (qty p)) eqn:E'.
  { apply Qeq_bool_iff in E'. lra. }
  destruct (update_existing db sym p side_ (qty_ - qty p) price
              (Some price) Hp) as (db' & p' & -> & ? & ? & ? & ?).
  simpl. exists db', p'. done.
Qed.

(** The two ledger functions agree wherever the position after the trade
    has a positive quantity, and in particular on every trade with a
    positive quantity against a position that is flat or held. *)
Lemma same_side (f : table → string → string → Q → Q → result (table * Q))
    (db : table) sym side_ price qty_ p :
  f = update_position_on_trade ∨ f = _update_position_on_trade →
  0 < qty_ → get_position db sym = Some p → 0 < qty p →
  side p = Some side_ →
  ∃ db' p', f db sym side_ price qty_ = Ok (db', 0) ∧
            get_position db' sym = Some p' ∧ qty p' = qty p + qty_ ∧
            entry_price p' =
              (entry_price p * qty p + price * qty_) / (qty p + qty_) ∧
            side p' = Some side_.
Proof.
  intros Hf Hq Hp Hpos Hs.
  destruct (update_existing db sym p side_ (qty p + qty_)
              ((entry_price p * qty p + price * qty_) / (qty p + qty_))
              (Some price) Hp) as (db' & p' & Hc & ? & ? & ? & ?).
  exists db', p'. split; [|done].
  destruct Hf as [-> | ->];
    unfold update_position_on_trade, _update_position_on_trade;
    rewrite Hp, (flat_held p side_ Hpos Hs), Hs,
      bool_decide_eq_true_2 by done.
  - assert (Qltb 0 (qty p + qty_) = true) as -> by (apply Qltb_lt; lra).
    rewrite truediv_Ok by lra. simpl. by rewrite Hc.
  - rewrite truediv_Ok by lra. simpl. by rewrite Hc.
Qed.

Lemma other_side (f : table → string → string → Q → Q → result (table * Q))
    (db : table) sym side_ price qty_ p s :
  f = update_position_on_trade ∨ f = _update_position_on_trade →
  get_position db sym = Some p → 0 < qty p → side p = Some s → s ≠ side_ →
  f db sym side_ price qty_ = reduce_or_flip db p sym side_ price qty_.
Proof.
  intros Hf Hp Hpos Hs Hne.
  destruct Hf as [-> | ->];
    unfold update_position_on_trade, _update_position_on_trade;
    rewrite Hp, (flat_held p s Hpos Hs), Hs;
    rewrite bool_decide_eq_false_2 by congruence; done.
Qed.

End LedgerFacts.

(** ** The strategy runner *)

Module EngineFacts.

Import Strategies Positions Engine LedgerFacts.

Section Runner.

Variable np_std : list Q → Q.
Variable Perf : Type.
Variable _update_performance : Z → Q → list AITradingLog → Perf → Perf.
Variable place_real_order :
  World Perf → string → string → string → Q → Q → World Perf * string.

(** *** Exits *)

Lemma pnl_pct_long p :
  side p = Some "BUY" → ¬ entry_price p == 0 →
  pnl_pct p = Ok ((latest_price p - entry_price p) / entry_price p * 100).
Proof.
  intros Hs He. unfold pnl_pct. rewrite bool_decide_eq_true_2 by done.
  by rewrite truediv_Ok.
Qed.

Lemma pnl_pct_short p :
  side p = Some "SELL" → ¬ entry_price p == 0 →
  pnl_pct p = Ok ((entry_price p - latest_price p) / entry_price p * 100).
Proof.
  intros Hs He. unfold pnl_pct. rewrite bool_decide_eq_false_2 by congruence.
  by rewrite truediv_Ok.
Qed.

Lemma _close_position_closes w info p cur why :
  get_position (positions w) (cfg_symbol (si_config info)) = Some p →
  0 < qty p →
  closed_for why (cfg_symbol (si_config info)) w
    (_close_position Perf _update_performance w info p cur why).
Proof.
  intros Hp Hq. unfold _close_position.
  destruct (close_full (positions w) (cfg_symbol (si_config info)) p (qty p)
              Hp Hq) as (db' & p' & -> & Hp' & Hs & Hz); [lra|].
  rewrite Hp'. simpl. eexists p', _. repeat split; try done.
Qed.

Lemma check_exit_stop w info p pct :
  get_position (positions w) (cfg_symbol (si_config info)) = Some p →
  0 < qty p → pnl_pct p = Ok pct → pct <= - stop_loss_pct (si_config info) →
  check_exit Perf _update_performance w info
    = (_close_position Perf _update_performance w info p (latest_price p)
         "STOP_LOSS", Ok tt).
Proof.
  intros Hp Hq Hpct Hle. unfold check_exit. rewrite Hp.
  destruct (Qeq_bool (qty p) 0) eqn:E.
  { apply Qeq_bool_iff in E. lra. }
  rewrite Hpct. unfold exit_reason.
  apply Qle_bool_iff in Hle. by rewrite Hle.
Qed.

Lemma check_exit_profit w info p pct :
  get_position (positions w) (cfg_symbol (si_config info)) = Some p →
  0 < qty p → pnl_pct p = Ok pct → - stop_loss_pct (si_config info) < pct →
  take_profit_pct (si_config info) <= pct →
  check_exit Perf _update_performance w info
    = (_close_position Perf _update_performance w info p (latest_price p)
         "TAKE_PROFIT", Ok tt).
Proof.
  intros Hp Hq Hpct Hgt Hle. unfold check_exit. rewrite Hp.
  destruct (Qeq_bool (qty p) 0) eqn:E.
  { apply Qeq_bool_iff in E. lra. }
  rewrite Hpct. unfold exit_reason.
  destruct (Qle_bool pct _) eqn:E1.
  { apply Qle_bool_iff in E1. lra. }
  apply Qle_bool_iff in Hle. by rewrite Hle.
Qed.

Lemma check_exit_hold w info p pct :
  get_position (positions w) (cfg_symbol (si_config info)) = Some p →
  0 < qty p → pnl_pct p = Ok pct → - stop_loss_pct (si_config info) < pct →
  pct < take_profit_pct (si_config info) →
  check_exit Perf _update_performance w info = (w, Ok tt).
Proof.
  intros Hp Hq Hpct Hgt Hlt. unfold check_exit. rewrite Hp.
  destruct (Qeq_bool (qty p) 0) eqn:E.
  { apply Qeq_bool_iff in E. lra. }
  rewrite Hpct. unfold exit_reason.
  destruct (Qle_bool pct _) eqn:E1.
  { apply Qle_bool_iff in E1. lra. }
  destruct (Qle_bool _ pct) eqn:E2; [|done].
  apply Qle_bool_iff in E2. lra.
Qed.

(** The percentage of a position bought at 100. *)
Lemma pct_at_100 entry latest :
  entry == 100 → (latest - entry) / entry * 100 == latest - 100.
Proof. intros ->. field. Qed.

(** *** The daily counter *)

Lemma roll_same today info :
  last_trade_date info = Some today → roll today info = info.
Proof.
  intros H. unfold roll. case_bool_decide as Hd; [by destruct Hd|done].
Qed.

Lemma roll_new today info :
  last_trade_date info ≠ Some today →
  roll today info
    = mkInfo (si_config info) (si_strategy info) (last_analysis info) 0
             (Some today).
Proof. intros H. unfold roll. by rewrite bool_decide_eq_true_2. Qed.

Lemma roll_config today info : si_config (roll today info) = si_config info.
Proof. unfold roll. by case_match. Qed.

Lemma roll_date today info : last_trade_date (roll today info) = Some today.
Proof.
  unfold roll. case_bool_decide as H; [done|].
  destruct (decide (last_trade_date info = Some today)) as [E|E]; [done|].
  by destruct H.
Qed.

(** At the limit nothing is done: no call of the feed, no analysis, no
    trade, and only the roll of the counter is kept. *)
Lemma _process_strategy_skip env w info :
  (max_daily_trades (si_config info)
     <= daily_trades (roll (date_today (clock env)) info))%Z →
  _process_strategy np_std Perf place_real_order env w info
    = (w, roll (date_today (clock env)) info, Ok tt).
Proof.
  intros H. unfold _process_strategy. apply Z.leb_le in H. by rewrite H.
Qed.

(** What [_open_position] does in simulation: the feed is left alone, and
    either nothing is recorded or one trade is, with the counter moved. *)
Lemma _open_position_simulation env w info side_ price a :
  mode env = SIMULATION →
  ∃ w' info',
    _open_position Perf place_real_order env w info side_ price a
      = (w', info', if Qeq_bool price 0 then Raise ZeroDivisionError
                    else Ok tt) ∧
    feed_calls w' = feed_calls w ∧
    ((info' = info ∧ trades w' = trades w) ∨
     (info' = bump info ∧ ∃ t, trades w' = trades w ++ [t])).
Proof.
  intros Hm. unfold _open_position, truediv. rewrite Hm.
  destruct (Qeq_bool price 0); [eauto 10|].
  destruct (create_or_update_position _ _ _ _ _ _) as [[tbl p]|e].
  - eexists _, _. split; [done|]. split; [done|]. right. split; [done|].
    unfold save_trade. simpl. eauto.
  - eauto 10.
Qed.

Lemma _process_trading_signal_simulation env w info a candle :
  mode env = SIMULATION →
  ∃ w' info' r,
    _process_trading_signal Perf place_real_order env w info a candle
      = (w', info', r) ∧
    feed_calls w' = feed_calls w ∧
    ((info' = info ∧ trades w' = trades w) ∨
     (info' = bump info ∧ ∃ t, trades w' = trades w ++ [t])).
Proof.
  intros Hm. unfold _process_trading_signal.
  repeat case_match;
    try (destruct (_open_position_simulation env w info "BUY"
                     (c_close candle) a Hm) as (w' & info' & -> & ? & ?);
         by eauto 10);
    try (destruct (_open_position_simulation env w info "SELL"
                     (c_close candle) a Hm) as (w' & info' & -> & ? & ?);
         by eauto 10);
    eauto 10.
Qed.

(** One pass for one strategy, in simulation: the counter after the pass
    is the rolled counter, or one more when a trade was recorded below the
    limit. *)
Lemma _process_strategy_simulation env w info :
  mode env = SIMULATION →
  let today := date_today (clock env) in
  ∃ w' info' r,
    _process_strategy np_std Perf place_real_order env w info
      = (w', info', r) ∧
    si_config info' = si_config info ∧
    last_trade_date info' = Some today ∧
    ((daily_trades info' = daily_trades (roll today info) ∧
      trades w' = trades w) ∨
     ((daily_trades (roll today info) < max_daily_trades (si_config info))%Z ∧
      daily_trades info' = (daily_trades (roll today info) + 1)%Z ∧
      ∃ t, trades w' = trades w ++ [t])).
Proof.
  intros Hm today. unfold _process_strategy. fold today.
  pose proof (roll_config today info) as Hc.
  pose proof (roll_date today info) as Hd.
  destruct (max_daily_trades (si_config info) <=? _)%Z eqn:E; [eauto 10|].
  apply Z.leb_gt in E.
  case_match; [eauto 10|].
  destruct (analyze_market _ _ _) as [a|e]; [|eauto 10].
  case_match; [|eauto 10].
  destruct (getitem _ _) as [candle|e]; [|eauto 10].
  match goal with |- context [_process_trading_signal _ _ _ ?w0 ?i0 _ _] =>
    destruct (_process_trading_signal_simulation env w0 i0 a candle Hm)
      as (w' & info' & r & -> & _ & [[-> Ht]|[-> Ht]]) end.
  - eexists _, _, _. split; [done|]. simpl. eauto 10.
  - eexists _, _, _. split; [done|]. simpl. split; [done|]. split; [done|].
    right. eauto.
Qed.

(** In every mode a pass moves the counter by one at most, and only below
    the limit. *)
Lemma _open_position_counter env w info side_ price a :
  ∃ w' info' r,
    _open_position Perf place_real_order env w info side_ price a
      = (w', info', r) ∧
    (info' = info ∨ info' = bump info).
Proof.
  unfold _open_position.
  destruct (truediv _ _); [|eauto 10].
  destruct (mode env); repeat case_match; eauto 10.
Qed.

Lemma _process_strategy_counter env w info :
  let today := date_today (clock env) in
  ∃ w' info' r,
    _process_strategy np_std Perf place_real_order env w info
      = (w', info', r) ∧
    si_config info' = si_config info ∧
    last_trade_date info' = Some today ∧
    (daily_trades info' = daily_trades (roll today info) ∨
     ((daily_trades (roll today info) < max_daily_trades (si_config info))%Z ∧
      daily_trades info' = (daily_trades (roll today info) + 1)%Z)).
Proof.
  intros today. unfold _process_strategy. fold today.
  pose proof (roll_config today info) as Hc.
  pose proof (roll_date today info) as Hd.
  destruct (max_daily_trades (si_config info) <=? _)%Z eqn:E; [eauto 10|].
  apply Z.leb_gt in E.
  case_match; [eauto 10|].
  destruct (analyze_market _ _ _) as [a|e]; [|eauto 10].
  case_match; [|eauto 10].
  destruct (getitem _ _) as [candle|e]; [|eauto 10].
  unfold _process_trading_signal.
  repeat case_match; try (eexists _, _, _; split; [done|]; by eauto);
    match goal with |- context [_open_position _ _ _ ?w0 ?i0 ?s ?pr ?a0] =>
      destruct (_open_position_counter env w0 i0 s pr a0)
        as (w' & info' & r & -> & [-> | ->]) end;
    eexists _, _, _; (split; [done|]); simpl; eauto.
Qed.

(** The counter stays within the limit. *)
Lemma _process_strategy_bound env w info :
  (0 <= max_daily_trades (si_config info))%Z →
  (daily_trades info <= max_daily_trades (si_config info))%Z →
  (daily_trades
     (_process_strategy np_std Perf place_real_order env w info).1.2
   <= max_daily_trades (si_config info))%Z.
Proof.
  intros H0 Hle.
  destruct (_process_strategy_counter env w info)
    as (w' & info' & r & -> & _ & _ & H). simpl.
  assert (daily_trades (roll (date_today (clock env)) info)
          <= max_daily_trades (si_config info))%Z.
  { unfold roll. case_match; simpl; lia. }
  destruct H as [-> |(? & ->)]; lia.
Qed.

(** Over successive passes on one date, the trades recorded are at most
    what the limit leaves. *)
Lemma passes_bound envs w info today :
  Forall (λ env, mode env = SIMULATION ∧ date_today (clock env) = today) envs →
  last_trade_date info = Some today →
  (daily_trades info <= max_daily_trades (si_config info))%Z →
  let r := passes np_std Perf place_real_order envs w info in
  si_config r.2 = si_config info ∧
  (daily_trades r.2 <= max_daily_trades (si_config info))%Z ∧
  (Z.of_nat (length (trades r.1))
   = Z.of_nat (length (trades w)) + (daily_trades r.2 - daily_trades info))%Z.
Proof.
  revert w info. induction envs as [|env envs IH]; intros w info Henvs Hd Hle.
  - simpl. split; [done|]. lia.
  - inversion Henvs as [|? ? [Hm Hday] Hrest]; subst. simpl.
    destruct (_process_strategy_simulation env w info Hm)
      as (w' & info' & r & -> & Hc & Hd' & H).
    rewrite (roll_same _ _ Hd) in H.
    destruct (IH w' info' Hrest Hd') as (Hc' & Hb & Hn).
    { rewrite Hc. destruct H as [[-> _]|(? & -> & _)]; lia. }
    rewrite Hc in *. split; [done|]. split; [done|].
    rewrite Hn. destruct H as [[-> ->]|(_ & -> & t & ->)];
      rewrite ?length_app; simpl; lia.
Qed.

(** Below the limit, the feed is asked once for 100 candles. *)
Lemma _process_strategy_feed env w info :
  mode env = SIMULATION →
  (daily_trades (roll (date_today (clock env)) info)
   < max_daily_trades (si_config info))%Z →
  feed_calls (_process_strategy np_std Perf place_real_order env w info).1.1
    = feed_calls w ++
        [(cfg_symbol (si_config info), timeframe (si_config info), 100%Z)].
Proof.
  intros Hm Hlt. unfold _process_strategy.
  destruct (max_daily_trades (si_config info) <=? _)%Z eqn:E.
  { apply Z.leb_le in E. lia. }
  case_match; [done|].
  destruct (analyze_market _ _ _) as [a|e]; [|done].
  case_match; [|done].
  destruct (getitem _ _) as [candle|e]; [|done].
  match goal with |- context [_process_trading_signal _ _ _ ?w0 ?i0 _ _] =>
    destruct (_process_trading_signal_simulation env w0 i0 a candle Hm)
      as (w' & info' & r & -> & Hf & _) end.
  simpl. by rewrite Hf.
Qed.

(** *** Entries against a position of the other side *)

(** In simulation, an entry on the side [s] against a position held on
    another side replaces the position and records a trade and a log entry
    without profit. *)
Lemma _open_position_overwrites env w info s price a p :
  mode env = SIMULATION → ¬ price == 0 →
  get_position (positions w) (cfg_symbol (si_config info)) = Some p →
  let c := si_config info in
  let quantity :=
    position_size_usd c / price * uniform env (leverage_min c) (leverage_max c)
  in
  ∃ w' p',
    _open_position Perf place_real_order env w info s price a
      = (w', bump info, Ok tt) ∧
    get_position (positions w') (cfg_symbol c) = Some p' ∧
    side p' = Some s ∧ qty p' = quantity ∧ entry_price p' = price ∧
    trades w' = trades w ++ [mkTrade (cfg_symbol c) s price quantity 0] ∧
    ∃ l, logs w' = logs w ++ [l] ∧ log_action l = "ENTRY" ∧
         log_side l = Some s ∧ log_quantity l = Some quantity ∧
         log_price l = Some price ∧ log_pnl l = 0.
Proof.
  intros Hm Hp Hpos c quantity. unfold _open_position.
  rewrite truediv_Ok by done. rewrite Hm. fold c.
  destruct (update_existing (positions w) (cfg_symbol c) p s quantity price
              (Some price) Hpos) as (db' & p' & Hu & Hg & Hs & Hq & He).
  unfold quantity in Hu. rewrite Hu.
  eexists _, p'. split; [done|]. simpl. repeat split; try done.
  eexists. repeat split; done.
Qed.

End Runner.

End EngineFacts.

(** ** The strategies *)

Module StrategyFacts.

Import TechnicalIndicators Strategies.
Import IndicatorFacts.

Lemma avg_confidence_mean scores :
  ∃ avg, avg_confidence scores = Ok avg ∧
         (scores = [] → avg = 0) ∧
         (scores ≠ [] → avg = sum scores / inject_Z (len scores)).
Proof.
  destruct scores as [|x l].
  - exists 0. done.
  - exists (sum (x :: l) / inject_Z (len (x :: l))). split; [|done].
    unfold avg_confidence. apply truediv_Ok, inject_Z_nonzero.
    unfold len. simpl. lia.
Qed.

(** The decision taken from the votes. *)
Lemma aggregate_decision label fallback config v ti a :
  aggregate label fallback config v ti = Ok a →
  let buy := count "BUY" (signals v) in
  let sell := count "SELL" (signals v) in
  let limit := default fallback (config !! "confidence_threshold") in
  avg_confidence (confidence_scores v) = Ok (confidence a) ∧
  (signal a = "BUY" ↔ (sell < buy)%Z ∧ limit <= confidence a) ∧
  (signal a = "SELL" ↔ (buy < sell)%Z ∧ limit <= confidence a) ∧
  (signal a = "HOLD" ↔
     ¬ ((sell < buy)%Z ∧ limit <= confidence a) ∧
     ¬ ((buy < sell)%Z ∧ limit <= confidence a)).
Proof.
  intros H buy sell limit. unfold aggregate in H. fold buy sell limit in H.
  apply bind_Ok in H as (avg & Havg & H).
  destruct (sell <? buy)%Z eqn:Eb; destruct (buy <? sell)%Z eqn:Es;
    destruct (Qle_bool limit avg) eqn:El; simpl in H;
    apply bind_Ok in H as (t & _ & H); injection H as <-; simpl;
    (split; [done|]);
    try apply Z.ltb_lt in Eb; try apply Z.ltb_ge in Eb;
    try apply Z.ltb_lt in Es; try apply Z.ltb_ge in Es;
    try apply Qle_bool_iff in El;
    try (assert (¬ limit <= avg) as El'
           by (intros Hc; apply Qle_bool_iff in Hc; congruence));
    repeat split; intros; try done; try lia; try tauto;
    try (exfalso; tauto); try (intros []; lia).
Qed.

(** *** The analysis returns *)

Lemma returns_Ok {A : Type} (a : A) : returns (Ok a).
Proof. by exists a. Qed.

Lemma returns_bind {A B : Type} (m : result A) (f : A → result B) :
  returns m → (∀ a, m = Ok a → returns (f a)) → returns (x ← m; f x).
Proof. intros [a ->] Hf. simpl. by apply Hf. Qed.

Lemma returns_getitem_tail {A : Type} (l : list A) i n :
  length l = n → (50 <= n)%nat → (-10 <= i < 0)%Z → returns (getitem l i).
Proof.
  intros Hl Hn Hi. destruct (getitem_negative l i) as (x & Hx & _).
  - unfold len. lia.
  - by exists x.
Qed.

Lemma andM_returns a b :
  returns a → returns b → returns (andM a b).
Proof. intros [x ->] Hb. unfold andM. simpl. destruct x; [done|]. by eexists. Qed.

Lemma buy_elif_sell_returns a b w v :
  returns a → returns b → returns (buy_elif_sell a b w v).
Proof.
  intros [x ->] [y ->]. unfold buy_elif_sell. simpl.
  destruct x; [by eexists|]. simpl. destruct y; by eexists.
Qed.

Lemma returns_truediv a b : ¬ b == 0 → returns (truediv a b).
Proof. intros H. rewrite truediv_Ok by done. by eexists. Qed.

Lemma returns_tail {A : Type} (l : list A) i n :
  (50 <= n)%nat → length l = n → (-10 <= i < 0)%Z → returns (getitem l i).
Proof. intros. by eapply returns_getitem_tail. Qed.

Lemma returns_item (cmp : Q → Q → bool) (l : list Q) i q n :
  (50 <= n)%nat → length l = n → (-10 <= i < 0)%Z →
  returns (x ← getitem l i; Ok (cmp x q)).
Proof.
  intros Hn Hl Hi. destruct (returns_tail l i n Hn Hl Hi) as [x ->].
  by eexists.
Qed.

Lemma returns_items (cmp : Q → Q → bool) (a b : list Q) i n :
  (50 <= n)%nat → length a = n → length b = n → (-10 <= i < 0)%Z →
  returns (x ← getitem a i; y ← getitem b i; Ok (cmp x y)).
Proof.
  intros Hn Ha Hb Hi. destruct (returns_tail a i n Hn Ha Hi) as [x ->].
  destruct (returns_tail b i n Hn Hb Hi) as [y ->]. by eexists.
Qed.

(** Decomposes a rule into its reads, which return on aligned series. *)
Ltac ret :=
  repeat first
    [ apply returns_Ok
    | apply buy_elif_sell_returns
    | apply andM_returns
    | apply returns_truediv; assumption
    | (eapply returns_item; [eassumption|eassumption|lia])
    | (eapply returns_items; [eassumption|eassumption|eassumption|lia])
    | (eapply returns_tail; [eassumption|eassumption|lia])
    | (apply returns_bind; [|intros ? ?])
    | case_match ].

Section Aligned.

Variables (ind : Indicators) (n : nat).
Hypothesis Hal : aligned n ind.
Hypothesis Hn : (50 <= n)%nat.
Hypothesis Hcur : ¬ current_price ind == 0.
Hypothesis Hprev : ¬ prev_price ind == 0.

Lemma bb_position_returns : returns (bb_position ind).
Proof.
  destruct Hal as (?&?&?&?&?&?&?&?&?&?&?&?&?&?&?&?&?).
  unfold bb_position. ret.
Qed.

Lemma high_rules_return : returns (HighRisk.rules ind).
Proof.
  destruct Hal as (?&?&?&?&?&?&?&?&?&?&?&?&?&?&?&?&?).
  unfold HighRisk.rules, HighRisk.rule1, HighRisk.rule2, HighRisk.rule3,
    HighRisk.rule4, HighRisk.rule5, HighRisk.rule6, HighRisk.rule7,
    HighRisk.rule8, item_lt, item_gt, item_le, item_ge,
    items_lt, items_gt, items_le, items_ge.
  ret.
Qed.

Lemma medium_rules_return : returns (MediumRisk.rules ind).
Proof.
  pose proof bb_position_returns as Hbb.
  destruct Hal as (?&?&?&?&?&?&?&?&?&?&?&?&?&?&?&?&?).
  unfold MediumRisk.rules, MediumRisk.rule1, MediumRisk.rule2,
    MediumRisk.rule3, MediumRisk.rule4, MediumRisk.rule5, MediumRisk.rule6,
    MediumRisk.rule7, MediumRisk.rule8, item_lt, item_gt, item_le, item_ge,
    items_lt, items_gt, items_le, items_ge.
  ret; try exact Hbb.
Qed.

Lemma volume_ratio_returns : returns (LowRisk.volume_ratio ind).
Proof.
  destruct Hal as (?&?&?&?&?&?&?&?&?&?&?&?&?&?&?&?&?).
  unfold LowRisk.volume_ratio. apply returns_bind; [ret|]. intros cv _.
  destruct (Qltb 0 _) eqn:E; [|ret].
  apply Qltb_lt in E. apply returns_truediv. lra.
Qed.

Lemma macd_above_returns :
  returns (mapM (items_gt (macd_line ind) (macd_signal ind)) (range (-5) 0)).
Proof.
  destruct Hal as (?&?&?&?&?&?&?&?&?&?&?&?&?&?&?&?&?).
  apply mapM_total. intros i Hi. apply elem_of_range in Hi.
  unfold items_gt. eapply returns_items; [exact Hn|done|done|lia].
Qed.

Lemma low_rules_return : returns (LowRisk.rules ind).
Proof.
  pose proof bb_position_returns as Hbb.
  pose proof volume_ratio_returns as Hvr.
  pose proof macd_above_returns as Hma.
  destruct Hal as (?&?&?&?&?&?&?&?&?&?&?&?&?&?&?&?&?).
  unfold LowRisk.rules, LowRisk.rule1, LowRisk.rule2, LowRisk.rule3,
    LowRisk.rule4, LowRisk.rule5, LowRisk.rule6, LowRisk.rule7,
    LowRisk.rule8, item_lt, item_gt, item_le, item_ge,
    items_lt, items_gt, items_le, items_ge.
  repeat first
    [ exact Hbb | exact Hvr | exact Hma
    | apply returns_Ok
    | apply buy_elif_sell_returns
    | apply andM_returns
    | apply returns_truediv; assumption
    | (eapply returns_item; [eassumption|eassumption|lia])
    | (eapply returns_items; [eassumption|eassumption|eassumption|lia])
    | (eapply returns_tail; [eassumption|eassumption|lia])
    | (apply returns_bind; [|intros ? ?])
    | case_match ].
Qed.

Lemma rules_return k : returns (rules k ind).
Proof.
  destruct k; [apply high_rules_return|apply medium_rules_return
              |apply low_rules_return].
Qed.

Lemma last_of_returns name (l : list Q) :
  length l = n → returns (last_of name l).
Proof.
  intros Hl. unfold last_of. apply returns_bind; [|intros; apply returns_Ok].
  by eapply returns_tail.
Qed.

Lemma last_atr_returns : returns (last_atr ind).
Proof.
  destruct Hal as (?&?&?&?&?&?&?&?&?&?&?&?&?&?&?&?&?).
  unfold last_atr. ret.
Qed.

Lemma snapshots_return :
  returns (HighRisk.snapshot ind) ∧ returns (MediumRisk.snapshot ind) ∧
  returns (LowRisk.snapshot ind).
Proof.
  pose proof bb_position_returns as Hbb.
  pose proof last_atr_returns as Hat.
  destruct Hal as (?&?&?&?&?&?&?&?&?&?&?&?&?&?&?&?&?).
  unfold HighRisk.snapshot, MediumRisk.snapshot, LowRisk.snapshot.
  repeat split;
    repeat first
      [ exact Hbb | exact Hat | apply returns_Ok
      | by apply last_of_returns
      | (apply returns_bind; [|intros ? ?]) ].
Qed.

Lemma aggregate_returns label fallback config v ti :
  returns ti → returns (aggregate label fallback config v ti).
Proof.
  intros [t ->]. unfold aggregate.
  destruct (avg_confidence_mean (confidence_scores v)) as (avg & -> & _).
  simpl. repeat case_match; by eexists.
Qed.

Lemma _analyze_signals_returns s : returns (_analyze_signals s ind).
Proof.
  destruct snapshots_return as (Hh & Hm & Hl).
  unfold _analyze_signals. destruct (kind s).
  - unfold HighRisk._analyze_signals.
    apply returns_bind; [apply high_rules_return|]. intros v _.
    by apply aggregate_returns.
  - unfold MediumRisk._analyze_signals.
    apply returns_bind; [apply medium_rules_return|]. intros v _.
    by apply aggregate_returns.
  - unfold LowRisk._analyze_signals.
    apply returns_bind; [apply low_rules_return|]. intros v _.
    by apply aggregate_returns.
Qed.

End Aligned.

(** The indicators of [analyze_market] return aligned series. *)
Lemma indicators_aligned np_std candles :
  (50 <= length candles)%nat →
  ∃ ind, indicators np_std candles = Ok ind ∧
         aligned (length candles) ind ∧
         getitem (c_close <$> candles) (-1) = Ok (current_price ind) ∧
         getitem (c_close <$> candles) (-2) = Ok (prev_price ind).
Proof.
  intros Hn. unfold indicators.
  set (closes := c_close <$> candles).
  set (highs := c_high <$> candles).
  set (lows := c_low <$> candles).
  assert (length closes = length candles) as Hc by apply length_fmap.
  assert (length highs = length closes) as Hh
    by (unfold highs, closes; by rewrite !length_fmap).
  assert (length lows = length closes) as Hl
    by (unfold lows, closes; by rewrite !length_fmap).
  destruct (sma_total closes 20) as (s20 & -> & ?); [lia|].
  destruct (sma_total closes 50) as (s50 & -> & ?); [lia|].
  destruct (ema_total closes 12) as (e12 & -> & ?); [lia|].
  destruct (ema_total closes 26) as (e26 & -> & ?); [lia|].
  destruct (rsi_total closes 14) as (r & -> & ?); [lia|].
  destruct (macd_total closes 12 26 9) as (ml & ms & mh & -> & ? & ? & ?);
    [lia..|].
  destruct (bollinger_bands_total np_std closes 20 2)
    as (bu & bm & bl & -> & ? & ? & ?); [lia|].
  destruct (stochastic_total highs lows closes 14 3 ltac:(lia) ltac:(lia)
              Hh Hl) as (sk & sd & -> & ? & ?).
  destruct (atr_total highs lows closes 14 ltac:(lia) Hh Hl) as (at_ & -> & ?).
  destruct (williams_r_total highs lows closes 14 ltac:(lia) Hh Hl)
    as (wr & -> & ?).
  destruct (cci_total highs lows closes 20 ltac:(lia) Hh Hl) as (cc & -> & ?).
  destruct (adx_total highs lows closes 14 ltac:(lia) Hh Hl) as (ad & -> & ?).
  simpl.
  destruct (getitem_negative closes (-1)) as (cp & Hcp & _);
    [unfold len; lia|].
  destruct (getitem_negative closes (-2)) as (pp & Hpp & _);
    [unfold len; lia|].
  rewrite Hcp. simpl.
  destruct (1 <? len closes)%Z eqn:E; [|unfold len in E; lia].
  rewrite Hpp. simpl. eexists. split; [done|]. simpl.
  split; [|done]. unfold aligned. simpl.
  repeat split;
    first [apply length_fmap | etransitivity; [eassumption|exact Hc]].
Qed.

Lemma getitem_elem_of {A : Type} (l : list A) i x :
  getitem l i = Ok x → x ∈ l.
Proof.
  unfold getitem. repeat case_match; try discriminate;
    intros [= <-]; by eapply list_elem_of_lookup_2.
Qed.

(** With at least 50 candles whose closes are not zero, the analysis
    returns. *)
Lemma analyze_market_returns np_std s candles :
  (50 <= length candles)%nat →
  (kind s = MEDIUM ∨ ∀ c, c ∈ candles → ¬ c_close c == 0) →
  returns (analyze_market np_std s candles).
Proof.
  intros Hn Hz. unfold analyze_market.
  destruct (len candles <? 50)%Z eqn:E; [unfold len in E; lia|].
  destruct (indicators_aligned np_std candles Hn)
    as (ind & -> & Hal & Hcp & Hpp). simpl.
  destruct Hz as [Hk|Hz].
  - unfold _analyze_signals. rewrite Hk.
    destruct (snapshots_return ind _ Hal Hn) as (_ & Hm & _).
    unfold MediumRisk._analyze_signals.
    apply returns_bind; [by eapply medium_rules_return|]. intros v _.
    by apply aggregate_returns.
  - eapply _analyze_signals_returns; [done|done| |].
    + apply getitem_elem_of in Hcp.
      apply list_elem_of_fmap in Hcp as (c & -> & Hc). by apply Hz.
    + apply getitem_elem_of in Hpp.
      apply list_elem_of_fmap in Hpp as (c & -> & Hc). by apply Hz.
Qed.

(** The decision of [analyze_market] from the votes of the sub-rules. *)
Lemma analyze_market_decision np_std s candles a :
  (50 <= length candles)%nat → analyze_market np_std s candles = Ok a →
  ∃ ind v,
    indicators np_std candles = Ok ind ∧ rules (kind s) ind = Ok v ∧
    let buy := count "BUY" (signals v) in
    let sell := count "SELL" (signals v) in
    avg_confidence (confidence_scores v) = Ok (confidence a) ∧
    (signal a = "BUY" ↔ (sell < buy)%Z ∧ threshold s <= confidence a) ∧
    (signal a = "SELL" ↔ (buy < sell)%Z ∧ threshold s <= confidence a) ∧
    (signal a = "HOLD" ↔
       ¬ ((sell < buy)%Z ∧ threshold s <= confidence a) ∧
       ¬ ((buy < sell)%Z ∧ threshold s <= confidence a)).
Proof.
  intros Hn H. unfold analyze_market in H.
  destruct (len candles <? 50)%Z eqn:E; [unfold len in E; lia|].
  apply bind_Ok in H as (ind & Hind & H). exists ind.
  unfold _analyze_signals, threshold, rules in *.
  destruct (kind s);
    unfold HighRisk._analyze_signals, MediumRisk._analyze_signals,
      LowRisk._analyze_signals in H;
    apply bind_Ok in H as (v & Hv & H); exists v;
    (split; [done|]); (split; [done|]);
    by apply aggregate_decision in H.
Qed.

(** The series [rsi] that [analyze_market] hands to the sub-rules. *)
Lemma indicators_rsi np_std candles ind :
  indicators np_std candles = Ok ind →
  rsi (c_close <$> candles) 14 = Ok (rsi_ ind) ∧ candles ≠ [].
Proof.
  unfold indicators. intros H.
  apply bind_Ok in H as (s20 & _ & H).
  apply bind_Ok in H as (s50 & _ & H).
  apply bind_Ok in H as (e12 & _ & H).
  apply bind_Ok in H as (e26 & _ & H).
  apply bind_Ok in H as (r & Hr & H).
  apply bind_Ok in H as ([[ml ms] mh] & _ & H).
  apply bind_Ok in H as ([[bu bm] bl] & _ & H).
  apply bind_Ok in H as ([sk sd] & _ & H).
  apply bind_Ok in H as (at_ & _ & H).
  apply bind_Ok in H as (wr & _ & H).
  apply bind_Ok in H as (cc & _ & H).
  apply bind_Ok in H as (ad & _ & H).
  apply bind_Ok in H as (cp & Hcp & H).
  apply bind_Ok in H as (pp & _ & H).
  injection H as <-. simpl. split; [done|].
  intros ->. discriminate Hcp.
Qed.

(** The first sub-rule of the high-risk class never votes on a series whose
    last value is 50. *)
Lemma high_rule1_silent ind v :
  getitem (rsi_ ind) (-1) = Ok 50 → HighRisk.rule1 ind v = Ok v.
Proof.
  intros H. unfold HighRisk.rule1, buy_elif_sell, item_lt, item_gt.
  rewrite H. reflexivity.
Qed.

End StrategyFacts.

(** ** The statements of the specification *)

Import TechnicalIndicators Strategies Positions Ledger Engine.
Import IndicatorFacts LedgerFacts EngineFacts StrategyFacts.






(** C4.  For a non-empty input and a period of at least 1 the last value of
    [rsi] is the fallback 50, so the sub-rule that tests [rsi[-1] < 30] and
    [rsi[-1] > 70] casts no vote: not on that series, and so not on the
    indicators that [analyze_market] computes. *)
Theorem rsi_last_is_fallback (data : list Q) (p : Z) :
  (1 <= p)%Z → data ≠ [] →
  (∃ out, rsi data p = Ok out ∧ getitem out (-1) = Ok 50 ∧
          ∀ ind v, rsi_ ind = out → HighRisk.rule1 ind v = Ok v) ∧
  (∀ np_std candles ind v,
     indicators np_std candles = Ok ind → HighRisk.rule1 ind v = Ok v).
Proof.
  intros Hp Hne. split.
  - destruct (rsi_last data p Hp Hne) as (out & Hr & Hl).
    exists out. split; [done|]. split; [done|].
    intros ind v E. apply high_rule1_silent. by rewrite E.
  - intros np_std candles ind v Hi.
    apply indicators_rsi in Hi as [Hr Hc].
    destruct (rsi_last (c_close <$> candles) 14) as (out & Hr' & Hl);
      [lia|by destruct candles|].
    rewrite Hr in Hr'. injection Hr' as E. apply high_rule1_silent.
    by rewrite E.
Qed.

Lemma rsi_last_is_fallback_witness :
  (1 <= 2)%Z ∧ [1; 2; 3; 2; 5; 7; 3] ≠ ([] : list Q) ∧
  ∃ out, rsi [1; 2; 3; 2; 5; 7; 3] 2 = Ok out ∧ getitem out (-1) = Ok 50.
Proof.
  split; [lia|]. split; [discriminate|].
  destruct (rsi_last_is_fallback [1; 2; 3; 2; 5; 7; 3] 2)
    as [(out & H1 & H2 & _) _]; [lia|discriminate|].
  exists out. split; assumption.
Defined.






(** C7.  With fewer than 50 candles every strategy returns HOLD with
    confidence 0 and the reason "Insufficient data", whatever the candles
    are: no indicator snapshot is attached, nothing is raised. *)
Theorem insufficient_data (np_std : list Q → Q) (s : Strategy)
    (candles : list Candle) :
  (length candles < 50)%nat →
  analyze_market np_std s candles
    = Ok (mkAnalysis 0 "HOLD" [Text "Insufficient data"] None).
Proof.
  intros H. unfold analyze_market.
  destruct (len candles <? 50)%Z eqn:E; [done|]. unfold len in E. lia.
Qed.

Lemma insufficient_data_witness :
  Nat.lt (length [mkCandle 1 2 0 1 None]) 50 ∧
  analyze_market (λ _, 0) (mkStrategy HIGH ∅) [mkCandle 1 2 0 1 None]
    = Ok (mkAnalysis 0 "HOLD" [Text "Insufficient data"] None).
Proof.
  split; [simpl; lia|].
  apply (insufficient_data (λ _, 0) (mkStrategy HIGH ∅)
           [mkCandle 1 2 0 1 None]).
  simpl. lia.
Defined.










(** * Further properties of the code *)

(** ** Ranges of the indicators *)

Lemma step_max_ge m y : m <= (if Qltb m y then y else m) ∧
                        y <= (if Qltb m y then y else m).
Proof.
  destruct (Qltb m y) eqn:E.
  - apply Qltb_lt in E. lra.
  - apply Qltb_ge in E. lra.
Qed.

Lemma step_min_le m y : (if Qltb y m then y else m) <= m ∧
                        (if Qltb y m then y else m) <= y.
Proof.
  destruct (Qltb y m) eqn:E.
  - apply Qltb_lt in E. lra.
  - apply Qltb_ge in E. lra.
Qed.

Lemma fold_max_ge (l : list Q) (m : Q) :
  m <= fold_left (λ m y, if Qltb m y then y else m) l m ∧
  Forall (λ x, x <= fold_left (λ m y, if Qltb m y then y else m) l m) l.
Proof.
  revert m. induction l as [|y l IH]; intros m; simpl.
  - split; [lra|constructor].
  - destruct (IH (if Qltb m y then y else m)) as [H1 H2].
    destruct (step_max_ge m y) as [H3 H4].
    split; [lra|]. constructor; [lra|done].
Qed.

Lemma fold_min_le (l : list Q) (m : Q) :
  fold_left (λ m y, if Qltb y m then y else m) l m <= m ∧
  Forall (λ x, fold_left (λ m y, if Qltb y m then y else m) l m <= x) l.
Proof.
  revert m. induction l as [|y l IH]; intros m; simpl.
  - split; [lra|constructor].
  - destruct (IH (if Qltb y m then y else m)) as [H1 H2].
    destruct (step_min_le m y) as [H3 H4].
    split; [lra|]. constructor; [lra|done].
Qed.

Lemma max_list_ge (l : list Q) (m x : Q) :
  max_list l = Ok m → x ∈ l → x <= m.
Proof.
  destruct l as [|y l]; [discriminate|]. simpl. intros [= <-] Hx.
  destruct (fold_max_ge l y) as [H1 H2].
  apply elem_of_cons in Hx as [->|Hx]; [done|].
  rewrite Forall_forall in H2. by apply H2.
Qed.

Lemma min_list_le (l : list Q) (m x : Q) :
  min_list l = Ok m → x ∈ l → m <= x.
Proof.
  destruct l as [|y l]; [discriminate|]. simpl. intros [= <-] Hx.
  destruct (fold_min_le l y) as [H1 H2].
  apply elem_of_cons in Hx as [->|Hx]; [done|].
  rewrite Forall_forall in H2. by apply H2.
Qed.

Lemma max3_ge a b c : a <= max3 a b c ∧ b <= max3 a b c ∧ c <= max3 a b c.
Proof.
  unfold max3. simpl.
  destruct (step_max_ge a b) as [H1 H2].
  destruct (step_max_ge (if Qltb a b then b else a) c) as [H3 H4].
  repeat split; lra.
Qed.

(** The element at an index of the window is in the slice. *)
Lemma elem_of_slice {A : Type} (l : list A) (a b i : Z) (x : A) :
  (0 <= a <= i)%Z → (i < b)%Z → l !! Z.to_nat i = Some x → x ∈ slice l a b.
Proof.
  intros Ha Hb Hx. pose proof (lookup_lt_Some _ _ _ Hx) as Hlt.
  unfold slice, clamp.
  destruct (a <? 0)%Z eqn:Ea; [lia|].
  destruct (b <? 0)%Z eqn:Eb; [lia|].
  apply list_elem_of_lookup. exists (Z.to_nat (i - a)).
  rewrite lookup_take_lt by (unfold len; lia).
  rewrite lookup_drop. rewrite <- Hx. f_equal. unfold len. lia.
Qed.

Lemma rsi_at_range avg_gains avg_losses i y :
  Forall (λ x, 0 <= x) avg_gains → Forall (λ x, 0 <= x) avg_losses →
  rsi_at avg_gains avg_losses i = Ok y → 0 <= y <= 100.
Proof.
  intros Hg Hl. unfold rsi_at.
  destruct (i <? len avg_losses)%Z eqn:El; simpl.
  - intros H. apply bind_Ok in H as (fl & Hfl & H).
    apply bind_Ok in Hfl as (al & Hal & Hfl). injection Hfl as <-.
    destruct (Qeq_bool al 0) eqn:Ez. { injection H as <-. lra. }
    destruct (i <? len avg_gains)%Z eqn:Eg; simpl in H.
    + apply bind_Ok in H as (ag & Hag & H).
      apply bind_Ok in H as (al' & Hal' & H).
      rewrite Hal in Hal'. injection Hal' as <-.
      apply bind_Ok in H as (rs & Hrs & H).
      apply bind_Ok in H as (q & Hq & H). injection H as <-.
      apply truediv_inv in Hrs as [Hne ->].
      apply truediv_inv in Hq as [Hne' ->].
      apply getitem_elem_of in Hal, Hag.
      rewrite Forall_forall in Hg, Hl.
      pose proof (Hg _ Hag) as Hag0. pose proof (Hl _ Hal) as Hal0.
      assert (0 <= ag / al) as Hrs by (apply Qle_shift_div_l; lra).
      generalize dependent (ag / al). intros r _ Hr.
      assert (0 <= 100 / (1 + r)) by (apply Qle_shift_div_l; lra).
      assert (100 / (1 + r) <= 100) by (apply Qle_shift_div_r; lra).
      lra.
    + injection H as <-. lra.
  - intros [= <-]. lra.
Qed.

Lemma Forall_times {A : Type} (P : A → Prop) (x : A) (k : Z) :
  P x → Forall P (times x k).
Proof.
  intros H. apply Forall_forall. intros y Hy.
  apply list_elem_of_lookup in Hy as [j Hj]. by apply lookup_times in Hj as ->.
Qed.

Lemma mapM_Forall {A B : Type} (P : B → Prop) (f : A → result B)
    (l : list A) (out : list B) :
  mapM f l = Ok out → (∀ x y, x ∈ l → f x = Ok y → P y) → Forall P out.
Proof.
  intros H HP. apply Forall_forall. intros y Hy.
  apply list_elem_of_lookup in Hy as [k Hk].
  destruct (mapM_lookup _ _ _ _ _ H Hk) as (x & Hx & Hf).
  eapply HP; [|done]. by eapply list_elem_of_lookup_2.
Qed.

Lemma true_range_nonneg high low close i y :
  true_range high low close i = Ok y → 0 <= y.
Proof.
  unfold true_range. intros H.
  apply bind_Ok in H as (h & _ & H). apply bind_Ok in H as (l & _ & H).
  apply bind_Ok in H as (pc & _ & H). injection H as <-.
  destruct (max3_ge (h - l) (Qabs (h - pc)) (Qabs (l - pc))) as (_ & H & _).
  eapply Qle_trans; [apply (Qabs_nonneg (h - pc))|exact H].
Qed.

(** X1.  Whatever the prices are, every value that [rsi] returns lies
    between 0 and 100, for every period of at least one bar. *)
Theorem rsi_range (data : list Q) (period : Z) (out : list Q) :
  (1 <= period)%Z → rsi data period = Ok out →
  Forall (λ x, 0 <= x <= 100) out.
Proof.
  intros Hp. unfold rsi. destruct (len data <? period + 1)%Z.
  - intros [= <-]. apply Forall_times. lra.
  - intros H. apply bind_Ok in H as (deltas & _ & H).
    apply bind_Ok in H as (ag & Hag & H).
    apply bind_Ok in H as (al & Hal & H).
    apply bind_Ok in H as (rest & Hrest & H). injection H as <-.
    apply Forall_app. split; [apply Forall_times; lra|].
    eapply mapM_Forall; [exact Hrest|]. intros i y _ Hy.
    eapply rsi_at_range; [| |exact Hy].
    + eapply sma_nonneg; [done| |exact Hag].
      apply Forall_fmap, Forall_forall. intros d _. simpl.
      destruct (Qltb 0 d) eqn:Ed; [|lra]. apply Qltb_lt in Ed. lra.
    + eapply sma_nonneg; [done| |exact Hal].
      apply Forall_fmap, Forall_forall. intros d _. simpl.
      destruct (Qltb d 0) eqn:Ed; [|lra]. apply Qltb_lt in Ed. lra.
Qed.

Lemma rsi_range_witness :
  Forall (λ x, 0 <= x <= 100) [50; 50; 400 # 6; 0 # 2; 50].
Proof.
  apply (rsi_range [10; 11; 13; 12; 12] 2); [lia|vm_compute; reflexivity].
Defined.

(** X2.  The average true range is never negative, whatever the order of
    the highs, lows and closes of the bars. *)
Theorem atr_nonneg (high low close : list Q) (period : Z) (out : list Q) :
  (1 <= period)%Z → atr high low close period = Ok out →
  Forall (λ x, 0 <= x) out.
Proof.
  intros Hp. unfold atr. destruct (len high <? 2)%Z.
  - intros [= <-]. apply Forall_times. lra.
  - intros H. apply bind_Ok in H as (trs & Htrs & H).
    apply bind_Ok in H as (avg & Havg & H). injection H as <-.
    apply Forall_app. split; [apply Forall_times; lra|].
    eapply sma_nonneg; [done| |exact Havg].
    eapply mapM_Forall; [exact Htrs|]. intros i y _ Hy.
    by eapply true_range_nonneg.
Qed.

Lemma atr_nonneg_witness :
  Forall (λ x, 0 <= x) [0; 0; 7 # 2].
Proof.
  apply (atr_nonneg [3; 1; 4] [5; 2; 6] [0; 9; 2] 2); [lia|].
  vm_compute. reflexivity.
Defined.

(** The close of a bar lies between the extremes of the window that ends
    at the bar, when it lies between the low and the high of the bar. *)
Lemma window_bounds (high low close : list Q) (p i : Z) (hh ll c : Q) :
  (1 <= p)%Z → (p - 1 <= i)%Z →
  length high = length close → length low = length close →
  (∀ j h l x, high !! j = Some h → low !! j = Some l → close !! j = Some x →
              l <= x <= h) →
  max_list (slice high (i - p + 1) (i + 1)) = Ok hh →
  min_list (slice low (i - p + 1) (i + 1)) = Ok ll →
  getitem close i = Ok c → ll <= c <= hh.
Proof.
  intros Hp Hi Hh Hl Hbars Hmax Hmin Hc.
  apply getitem_nonneg in Hc; [|lia].
  pose proof (lookup_lt_Some _ _ _ Hc) as Hlt.
  destruct (lookup_lt_is_Some_2 high (Z.to_nat i)) as [h Hhi]; [lia|].
  destruct (lookup_lt_is_Some_2 low (Z.to_nat i)) as [l Hli]; [lia|].
  pose proof (Hbars _ _ _ _ Hhi Hli Hc) as [H1 H2].
  assert (h <= hh).
  { eapply max_list_ge; [exact Hmax|].
    eapply elem_of_slice; [| |exact Hhi]; lia. }
  assert (ll <= l).
  { eapply min_list_le; [exact Hmin|].
    eapply elem_of_slice; [| |exact Hli]; lia. }
  lra.
Qed.

Lemma ratio_unit (a b : Q) : 0 <= a → a <= b → ¬ b == 0 → 0 <= a / b <= 1.
Proof.
  intros Ha Hab Hb. assert (0 < b) by lra. split.
  - apply Qle_shift_div_l; lra.
  - apply Qle_shift_div_r; lra.
Qed.

Lemma stochastic_at_range high low close k i y :
  (1 <= k)%Z →
  length high = length close → length low = length close →
  (∀ j h l x, high !! j = Some h → low !! j = Some l → close !! j = Some x →
              l <= x <= h) →
  stochastic_at high low close k i = Ok y → 0 <= y <= 100.
Proof.
  intros Hk Hh Hl Hbars. unfold stochastic_at.
  destruct (i <? k - 1)%Z eqn:E; [intros [= <-]; lra|].
  apply Z.ltb_ge in E. intros H.
  apply bind_Ok in H as (hh & Hmax & H).
  apply bind_Ok in H as (ll & Hmin & H).
  destruct (Qeq_bool hh ll) eqn:Eq; simpl in H; [injection H as <-; lra|].
  apply bind_Ok in H as (c & Hc & H).
  apply bind_Ok in H as (q & Hq & H). injection H as <-.
  apply truediv_inv in Hq as [Hne ->].
  pose proof (window_bounds _ _ _ _ _ _ _ _ Hk E Hh Hl Hbars Hmax Hmin Hc)
    as [H1 H2].
  destruct (ratio_unit (c - ll) (hh - ll)) as [H3 H4]; [lra|lra|done|].
  remember ((c - ll) / (hh - ll)) as r eqn:Hr. clear Hr. lra.
Qed.

Lemma williams_r_at_range high low close p i y :
  (1 <= p)%Z →
  length high = length close → length low = length close →
  (∀ j h l x, high !! j = Some h → low !! j = Some l → close !! j = Some x →
              l <= x <= h) →
  williams_r_at high low close p i = Ok y → -100 <= y <= 0.
Proof.
  intros Hp Hh Hl Hbars. unfold williams_r_at.
  destruct (i <? p - 1)%Z eqn:E; [intros [= <-]; lra|].
  apply Z.ltb_ge in E. intros H.
  apply bind_Ok in H as (hh & Hmax & H).
  apply bind_Ok in H as (ll & Hmin & H).
  destruct (Qeq_bool hh ll) eqn:Eq; simpl in H; [injection H as <-; lra|].
  apply bind_Ok in H as (c & Hc & H).
  apply bind_Ok in H as (q & Hq & H). injection H as <-.
  apply truediv_inv in Hq as [Hne ->].
  pose proof (window_bounds _ _ _ _ _ _ _ _ Hp E Hh Hl Hbars Hmax Hmin Hc)
    as [H1 H2].
  destruct (ratio_unit (hh - c) (hh - ll)) as [H3 H4]; [lra|lra|done|].
  remember ((hh - c) / (hh - ll)) as r eqn:Hr. clear Hr. lra.
Qed.

Lemma fold_left_Qplus_le (l : list Q) (acc M : Q) :
  Forall (λ x, x <= M) l →
  fold_left Qplus l acc <= acc + M * inject_Z (len l).
Proof.
  revert acc. induction l as [|x l IH]; intros acc H.
  - simpl. change (inject_Z (len [])) with 0. lra.
  - inversion H as [|? ? Hx Hl]; subst. simpl.
    pose proof (IH (acc + x) Hl) as IH'.
    assert (inject_Z (len (x :: l)) == inject_Z (len l) + 1) as ->.
    { unfold len. simpl length. rewrite Nat2Z.inj_succ.
      unfold Z.succ. rewrite inject_Z_plus. reflexivity. }
    lra.
Qed.

(** A moving average of numbers in [[0, M]] lies in [[0, M]]. *)
Lemma sma_range data p M out :
  (1 <= p)%Z → 0 <= M → Forall (λ x, 0 <= x <= M) data →
  sma data p = Ok out → Forall (λ x, 0 <= x <= M) out.
Proof.
  intros Hp HM Hdata Hout.
  assert (Forall (λ x, 0 <= x) out) as Hlo.
  { eapply sma_nonneg; [done| |exact Hout].
    eapply Forall_impl; [exact Hdata|]. simpl. intros x Hx. lra. }
  assert (Forall (λ x, x <= M) out) as Hhi.
  { revert Hout. unfold sma. destruct (len data <? p)%Z eqn:E.
    - intros [= <-]. by apply Forall_times.
    - apply Z.ltb_ge in E. intros Hmap.
      eapply mapM_Forall; [exact Hmap|]. intros i y Hi Hy. simpl in Hy.
      apply elem_of_range in Hi.
      destruct (i <? p - 1)%Z eqn:Ei; [by injection Hy as <-|].
      apply Z.ltb_ge in Ei.
      rewrite truediv_period in Hy by done. injection Hy as <-.
      assert (0 < inject_Z p).
      { replace 0 with (inject_Z 0) by done. rewrite <- Zlt_Qlt. lia. }
      apply Qle_shift_div_r; [done|].
      pose proof (fold_left_Qplus_le (slice data (i - p + 1) (i + 1)) 0 M)
        as Hs.
      unfold len at 1 in Hs. rewrite length_slice in Hs by lia.
      replace (Z.of_nat (Z.to_nat (i + 1 - (i - p + 1)))) with p in Hs by lia.
      unfold sum. eapply Qle_trans; [apply Hs|lra].
      apply Forall_slice. eapply Forall_impl; [exact Hdata|].
      simpl. intros x Hx. lra. }
  rewrite Forall_forall in Hlo, Hhi. apply Forall_forall. intros x Hx.
  split; auto.
Qed.

(** X3.  When the close of every bar lies between its low and its high, the
    two lines of the stochastic oscillator, %K and %D, lie between 0 and
    100. *)
Theorem stochastic_range (high low close : list Q) (k_period d_period : Z)
    (k d : list Q) :
  (1 <= k_period)%Z → (1 <= d_period)%Z →
  length high = length close → length low = length close →
  (∀ j h l x, high !! j = Some h → low !! j = Some l → close !! j = Some x →
              l <= x <= h) →
  stochastic high low close k_period d_period = Ok (k, d) →
  Forall (λ x, 0 <= x <= 100) k ∧ Forall (λ x, 0 <= x <= 100) d.
Proof.
  intros Hk Hd Hh Hl Hbars. unfold stochastic. intros H.
  apply bind_Ok in H as (k' & Hk' & H).
  apply bind_Ok in H as (d' & Hd' & H). injection H as <- <-.
  assert (Forall (λ x, 0 <= x <= 100) k') as HK.
  { eapply mapM_Forall; [exact Hk'|]. intros i y _ Hy.
    exact (stochastic_at_range _ _ _ _ _ _ Hk Hh Hl Hbars Hy). }
  split; [done|]. eapply sma_range; [done| |exact HK|exact Hd']. lra.
Qed.

Lemma stochastic_range_witness :
  Forall (λ x, 0 <= x <= 100) [50; 200 # 3; 200 # 4] ∧
  Forall (λ x, 0 <= x <= 100) [0; 350 # 6; 1400 # 24].
Proof.
  apply (stochastic_range [3; 4; 5] [1; 1; 2] [2; 3; 3] 2 2);
    [lia|lia|reflexivity|reflexivity| |vm_compute; reflexivity].
  intros [|[|[|j]]] h l x [= <-] [= <-] [= <-]; lra.
Defined.

(** X4.  Under the same condition on the bars, every value of Williams %R
    lies between -100 and 0. *)
Theorem williams_r_range (high low close : list Q) (period : Z)
    (out : list Q) :
  (1 <= period)%Z →
  length high = length close → length low = length close →
  (∀ j h l x, high !! j = Some h → low !! j = Some l → close !! j = Some x →
              l <= x <= h) →
  williams_r high low close period = Ok out →
  Forall (λ x, -100 <= x <= 0) out.
Proof.
  intros Hp Hh Hl Hbars. unfold williams_r. intros H.
  eapply mapM_Forall; [exact H|]. intros i y _ Hy.
  exact (williams_r_at_range _ _ _ _ _ _ Hp Hh Hl Hbars Hy).
Qed.

Lemma williams_r_range_witness :
  Forall (λ x, -100 <= x <= 0) [-50; -100 # 3; -200 # 4].
Proof.
  apply (williams_r_range [3; 4; 5] [1; 1; 2] [2; 3; 3] 2);
    [lia|reflexivity|reflexivity| |vm_compute; reflexivity].
  intros [|[|[|j]]] h l x [= <-] [= <-] [= <-]; lra.
Defined.

Lemma williams_r_at_shift high low close p i a b :
  stochastic_at high low close p i = Ok a →
  williams_r_at high low close p i = Ok b → b == a - 100.
Proof.
  unfold stochastic_at, williams_r_at.
  destruct (i <? p - 1)%Z; [intros [= <-] [= <-]; lra|].
  intros Ha Hb.
  apply bind_Ok in Ha as (hh & Hmax & Ha).
  apply bind_Ok in Ha as (ll & Hmin & Ha).
  rewrite Hmax, Hmin in Hb. simpl in Hb.
  destruct (Qeq_bool hh ll) eqn:Eq; simpl in Ha, Hb.
  { injection Ha as <-. injection Hb as <-. lra. }
  apply bind_Ok in Ha as (c & Hc & Ha). rewrite Hc in Hb. simpl in Hb.
  apply bind_Ok in Ha as (q & Hq & Ha). injection Ha as <-.
  apply bind_Ok in Hb as (q' & Hq' & Hb). injection Hb as <-.
  apply truediv_inv in Hq as [Hne ->]. apply truediv_inv in Hq' as [_ ->].
  field. exact Hne.
Qed.





(** A property that every iteration of a loop keeps holds at its end. *)
Lemma foldM_preserves {A B : Type} (P : B → Prop) (f : B → A → result B)
    (l : list A) (acc r : B) :
  P acc → (∀ a x a', x ∈ l → P a → f a x = Ok a' → P a') →
  foldM f l acc = Ok r → P r.
Proof.
  revert acc. induction l as [|x l IH]; intros acc Hacc Hstep.
  - by intros [= <-].
  - rewrite foldM_cons. intros H. apply bind_Ok in H as (a' & Ha' & H).
    eapply IH; [| |exact H].
    + eapply Hstep; [left|exact Hacc|exact Ha'].
    + intros a y a'' Hy. apply Hstep. by right.
Qed.

Lemma adx_dm_nonneg high low i a b :
  adx_dm high low i = Ok (a, b) → 0 <= a ∧ 0 <= b.
Proof.
  unfold adx_dm. intros H.
  apply bind_Ok in H as (hi & _ & H). apply bind_Ok in H as (hp & _ & H).
  apply bind_Ok in H as (lp & _ & H). apply bind_Ok in H as (li & _ & H).
  injection H as <- <-. split.
  - destruct (Qltb (lp - li) (hi - hp)); simpl; [|lra].
    destruct (Qltb 0 (hi - hp)) eqn:E; [|lra]. apply Qltb_lt in E. lra.
  - destruct (Qltb (hi - hp) (lp - li)); simpl; [|lra].
    destruct (Qltb 0 (lp - li)) eqn:E; [|lra]. apply Qltb_lt in E. lra.
Qed.

Lemma window_mean_nonneg (l : list Q) (p i : Z) (y : Q) :
  (1 <= p)%Z → Forall (λ x, 0 <= x) l →
  truediv (sum (slice l (i - p + 1) (i + 1))) (inject_Z p) = Ok y → 0 <= y.
Proof.
  intros Hp Hl H. rewrite truediv_period in H by done. injection H as <-.
  apply Qle_shift_div_l.
  - replace 0 with (inject_Z 0) by done. rewrite <- Zlt_Qlt. lia.
  - rewrite Qmult_0_l. by apply sum_nonneg, Forall_slice.
Qed.

Lemma adx_di_nonneg dm_plus dm_minus tr_values p i a b :
  (1 <= p)%Z → Forall (λ x, 0 <= x) dm_plus → Forall (λ x, 0 <= x) dm_minus →
  Forall (λ x, 0 <= x) tr_values →
  adx_di dm_plus dm_minus tr_values p i = Ok (a, b) → 0 <= a ∧ 0 <= b.
Proof.
  intros Hp Hplus Hminus Htr. unfold adx_di.
  destruct (i <? p - 1)%Z; [intros [= <- <-]; lra|]. intros H.
  apply bind_Ok in H as (ps & Hps & H). apply bind_Ok in H as (ms & Hms & H).
  apply bind_Ok in H as (ts & Hts & H).
  apply window_mean_nonneg in Hps, Hms, Hts; try done.
  destruct (Qeq_bool ts 0) eqn:E; [injection H as <- <-; lra|].
  apply Qeq_bool_neq in E.
  apply bind_Ok in H as (x & Hx & H). apply bind_Ok in H as (y & Hy & H).
  injection H as <- <-.
  apply truediv_inv in Hx as [_ ->]. apply truediv_inv in Hy as [_ ->].
  assert (0 <= ps / ts) by (apply Qle_shift_div_l; lra).
  assert (0 <= ms / ts) by (apply Qle_shift_div_l; lra).
  remember (ps / ts) as u eqn:Hu. remember (ms / ts) as v eqn:Hv.
  clear Hu Hv. lra.
Qed.

Lemma adx_dx_range di_plus di_minus i y :
  Forall (λ x, 0 <= x) di_plus → Forall (λ x, 0 <= x) di_minus →
  adx_dx di_plus di_minus i = Ok y → 0 <= y <= 100.
Proof.
  intros Hplus Hminus. unfold adx_dx. intros H.
  apply bind_Ok in H as (p & Hp & H). apply bind_Ok in H as (m & Hm & H).
  apply getitem_elem_of in Hp, Hm.
  rewrite Forall_forall in Hplus, Hminus.
  pose proof (Hplus _ Hp). pose proof (Hminus _ Hm).
  destruct (Qltb 0 (p + m)) eqn:E; [|injection H as <-; lra].
  apply Qltb_lt in E.
  apply bind_Ok in H as (q & Hq & H). injection H as <-.
  apply truediv_inv in Hq as [_ ->].
  destruct (ratio_unit (Qabs (p - m)) (p + m)) as [Hr1 Hr2].
  - apply Qabs_nonneg.
  - apply Qabs_Qle_condition. lra.
  - lra.
  - remember (Qabs (p - m) / (p + m)) as r eqn:Hr. clear Hr. lra.
Qed.

Lemma adx_step_range di_plus di_minus p acc i acc' :
  (1 <= p)%Z →
  Forall (λ x, 0 <= x) di_plus → Forall (λ x, 0 <= x) di_minus →
  Forall (λ x, 0 <= x <= 100) acc →
  adx_step di_plus di_minus p acc i = Ok acc' →
  Forall (λ x, 0 <= x <= 100) acc'.
Proof.
  intros Hp Hplus Hminus Hacc. unfold adx_step.
  destruct (i <? p - 1)%Z.
  { intros [= <-]. apply Forall_app. split; [done|].
    constructor; [lra|constructor]. }
  intros H. apply bind_Ok in H as (dx & Hdx & H).
  apply adx_dx_range in Hdx; [|done|done].
  destruct (i =? p - 1)%Z.
  { injection H as <-. apply Forall_app. split; [done|].
    constructor; [done|constructor]. }
  apply bind_Ok in H as (prev & Hprev & H).
  apply bind_Ok in H as (v & Hv & H). injection H as <-.
  apply getitem_elem_of in Hprev. rewrite Forall_forall in Hacc.
  pose proof (Hacc _ Hprev) as Hpr.
  rewrite truediv_period in Hv by done. injection Hv as <-.
  apply Forall_app. split; [by apply Forall_forall|].
  constructor; [|constructor].
  assert (inject_Z (p - 1) == inject_Z p - 1) as Hm.
  { unfold Z.sub. rewrite inject_Z_plus. reflexivity. }
  assert (1 <= inject_Z p) as Hp1.
  { replace 1 with (inject_Z 1) by done. rewrite <- Zle_Qle. lia. }
  assert (0 <= prev * inject_Z (p - 1)) as Hlo.
  { apply Qmult_le_0_compat; [lra|]. rewrite Hm. lra. }
  assert (prev * inject_Z (p - 1) <= 100 * inject_Z (p - 1)) as Hhi.
  { apply Qmult_le_compat_r; [lra|]. rewrite Hm. lra. }
  split.
  - apply Qle_shift_div_l; lra.
  - apply Qle_shift_div_r; lra.
Qed.

(** X7.  The ADX is an average of directional indices, each between 0 and
    100: every value that [adx] returns lies between 0 and 100, whatever
    the bars are. *)
Theorem adx_range (high low close : list Q) (period : Z) (out : list Q) :
  (1 <= period)%Z → adx high low close period = Ok out →
  Forall (λ x, 0 <= x <= 100) out.
Proof.
  intros Hp. unfold adx. destruct (len high <? 2)%Z.
  { intros [= <-]. apply Forall_times. lra. }
  intros H. apply bind_Ok in H as (dm & Hdm & H).
  apply bind_Ok in H as (tr & Htr & H).
  apply bind_Ok in H as (di & Hdi & H).
  assert (Forall (λ x, 0 <= x) dm.*1 ∧ Forall (λ x, 0 <= x) dm.*2)
    as [Hplus Hminus].
  { assert (Forall (λ ab : Q * Q, 0 <= ab.1 ∧ 0 <= ab.2) dm) as Hall.
    { eapply mapM_Forall; [exact Hdm|]. intros i [a b] _ Hab.
      by eapply adx_dm_nonneg. }
    split; apply Forall_fmap; (eapply Forall_impl; [exact Hall|]);
      simpl; tauto. }
  assert (Forall (λ x, 0 <= x) tr) as Htr0.
  { eapply mapM_Forall; [exact Htr|]. intros i y _ Hy.
    by eapply true_range_nonneg. }
  assert (Forall (λ x, 0 <= x) di.*1 ∧ Forall (λ x, 0 <= x) di.*2)
    as [Hdp Hdn].
  { assert (Forall (λ ab : Q * Q, 0 <= ab.1 ∧ 0 <= ab.2) di) as Hall.
    { eapply mapM_Forall; [exact Hdi|]. intros i [a b] _ Hab.
      exact (adx_di_nonneg _ _ _ _ _ _ _ Hp Hplus Hminus Htr0 Hab). }
    split; apply Forall_fmap; (eapply Forall_impl; [exact Hall|]);
      simpl; tauto. }
  eapply foldM_preserves; [| |exact H].
  - apply Forall_times. lra.
  - intros a i a' _ Ha Hstep.
    exact (adx_step_range _ _ _ _ _ _ Hp Hdp Hdn Ha Hstep).
Qed.

Lemma adx_range_witness :
  Forall (λ x, 0 <= x <= 100)
         [0; 0; 8640000 # 86400; 5308416000000 # 53084160000].
Proof.
  apply (adx_range [1; 3; 2; 5] [0; 1; 1; 2] [1; 2; 2; 4] 2); [lia|].
  vm_compute. reflexivity.
Defined.

(** A comprehension raises when one of its elements does, and what it
    raises is what the elements can raise. *)
Lemma mapM_raises {A B : Type} (f : A → result B) (l : list A) (e : exn)
    (x : A) :
  (∀ y e', f y = Raise e' → e' = e) → x ∈ l → (∃ e', f x = Raise e') →
  mapM f l = Raise e.
Proof.
  intros Hall Hx [e' He']. induction l as [|y l IH]; [by inversion Hx|].
  rewrite mapM_cons. destruct (f y) as [b|e''] eqn:Ey; simpl.
  - apply elem_of_cons in Hx as [->|Hx]; [congruence|].
    rewrite (IH Hx). done.
  - by rewrite (Hall _ _ Ey).
Qed.

Lemma getitem_past_end {A : Type} (l : list A) (i : Z) :
  (len l <= i)%Z → getitem l i = Raise IndexError.
Proof.
  intros H. pose proof (len_nonneg l). unfold getitem.
  destruct (i <? 0)%Z eqn:E; [lia|]. rewrite E.
  rewrite lookup_ge_None_2; [done|]. unfold len in H. lia.
Qed.

Lemma true_range_raise high low close i e :
  true_range high low close i = Raise e → e = IndexError.
Proof.
  unfold true_range.
  destruct (getitem high i) as [h|e1] eqn:E1; simpl;
    [|intros [= <-]; by eapply getitem_raise].
  destruct (getitem low i) as [l|e2] eqn:E2; simpl;
    [|intros [= <-]; by eapply getitem_raise].
  destruct (getitem close (i - 1)) as [c|e3] eqn:E3; simpl;
    [discriminate|intros [= <-]; by eapply getitem_raise].
Qed.

(** X8.  [atr] walks over the highs: with two bars or more, it raises
    [IndexError] when there are fewer lows than highs, or when the closes
    are two or more short of the highs. *)
Theorem atr_short_series (high low close : list Q) (period : Z) :
  (2 <= len high)%Z →
  (len low < len high)%Z ∨ (len close < len high - 1)%Z →
  atr high low close period = Raise IndexError.
Proof.
  intros Hn Hshort. unfold atr.
  destruct (len high <? 2)%Z eqn:E; [lia|].
  rewrite (mapM_raises (true_range high low close) _ IndexError
             (len high - 1)%Z); [done| | |].
  - intros y e'. apply true_range_raise.
  - apply elem_of_range. lia.
  - unfold true_range.
    destruct (getitem high (len high - 1)) as [h|e1]; simpl; [|eauto].
    destruct Hshort as [Hl|Hc].
    + rewrite (getitem_past_end low) by lia. simpl. eauto.
    + destruct (getitem low (len high - 1)) as [l|e2]; simpl; [|eauto].
      rewrite (getitem_past_end close) by lia. simpl. eauto.
Qed.

Lemma atr_short_series_witness :
  atr [3; 4; 5] [1; 2] [2; 3; 4] 14 = Raise IndexError.
Proof.
  apply atr_short_series; [vm_compute; discriminate|left; vm_compute; reflexivity].
Defined.

(** ** The position service and the ledger *)

(** Each function of the service writes the row of its symbol only. *)
Lemma create_or_update_position_frame (db db' : table) sym side_ qty_ entry lp
    p k :
  create_or_update_position db sym side_ qty_ entry lp = Ok (db', p) →
  k ≠ upper sym → db' !! k = db !! k.
Proof.
  unfold create_or_update_position. intros H Hk.
  destruct (get_position db sym).
  - injection H as <- _. by rewrite lookup_insert_ne.
  - destruct (db !! upper sym); [discriminate|].
    injection H as <- _. by rewrite lookup_insert_ne.
Qed.

Lemma close_position_frame (db db' : table) sym q o k :
  close_position db sym q = (db', o) → k ≠ upper sym → db' !! k = db !! k.
Proof.
  unfold close_position. intros H Hk.
  destruct (get_position db sym); [|by injection H as <- _].
  destruct (Qle_bool (qty p) 0); [by injection H as <- _|].
  injection H as <- _. by rewrite lookup_insert_ne.
Qed.

Lemma reduce_or_flip_frame (db db' : table) p sym side_ price qty_ r k :
  reduce_or_flip db p sym side_ price qty_ = Ok (db', r) →
  k ≠ upper sym → db' !! k = db !! k.
Proof.
  unfold reduce_or_flip. intros H Hk.
  destruct (Qltb qty_ (qty p)).
  - apply bind_Ok in H as ([db1 p1] & Hc & H). injection H as <- _.
    by eapply create_or_update_position_frame.
  - destruct (Qeq_bool qty_ (qty p)).
    + destruct (close_position db sym (Some qty_)) as [db1 o] eqn:Hc.
      injection H as <- _. by eapply close_position_frame.
    + apply bind_Ok in H as ([db1 p1] & Hc & H). injection H as <- _.
      by eapply create_or_update_position_frame.
Qed.

Lemma ledger_frame
    (f : table → string → string → Q → Q → result (table * Q))
    (db db' : table) sym side_ price qty_ r k :
  f = update_position_on_trade ∨ f = _update_position_on_trade →
  f db sym side_ price qty_ = Ok (db', r) →
  k ≠ upper sym → db' !! k = db !! k.
Proof.
  intros Hf H Hk.
  destruct Hf as [-> | ->];
    unfold update_position_on_trade, _update_position_on_trade in H;
    (destruct (flat (get_position db sym));
     [apply bind_Ok in H as ([db1 p1] & Hc & H); injection H as <- _;
      by eapply create_or_update_position_frame|]);
    (destruct (get_position db sym) as [p|]; [|by injection H as <- _]);
    (destruct (bool_decide (Some side_ = side p));
     [|by eapply reduce_or_flip_frame]).
  - destruct (Qltb 0 (qty p + qty_)); [|by injection H as <- _].
    apply bind_Ok in H as (e & _ & H).
    apply bind_Ok in H as ([db1 p1] & Hc & H). injection H as <- _.
    by eapply create_or_update_position_frame.
  - apply bind_Ok in H as (e & _ & H).
    apply bind_Ok in H as ([db1 p1] & Hc & H). injection H as <- _.
    by eapply create_or_update_position_frame.
Qed.

(** X9.  The ledger keeps its rows well formed, and touches one row only.
    If the row of the symbol, when there is one, is either flat (no side
    and quantity 0) or held (a side and a positive quantity), then a trade
    of positive quantity through either ledger function leaves the symbol
    with a row that is flat or held, and the row of every other symbol as
    it was; the one trade that is refused is that on a symbol whose row is
    inactive, which breaks the unique constraint. *)
Theorem ledger_invariant
    (f : table → string → string → Q → Q → result (table * Q))
    (db : table) (sym side_ : string) (price qty_ : Q) :
  f = update_position_on_trade ∨ f = _update_position_on_trade →
  0 < qty_ →
  (∀ p, get_position db sym = Some p →
        (side p = None ∧ qty p == 0) ∨ (is_Some (side p) ∧ 0 < qty p)) →
  match f db sym side_ price qty_ with
  | Ok (db', _) =>
      (∃ p', get_position db' sym = Some p' ∧
             ((side p' = None ∧ qty p' == 0) ∨
              (is_Some (side p') ∧ 0 < qty p'))) ∧
      (∀ k, k ≠ upper sym → db' !! k = db !! k)
  | Raise e =>
      e = IntegrityError ∧
      ∃ p, db !! upper sym = Some p ∧ is_active p = false
  end.
Proof.
  intros Hf Hq Hwf.
  destruct (get_position db sym) as [p|] eqn:Hp.
  - assert (∃ db1 r1 p1, f db sym side_ price qty_ = Ok (db1, r1) ∧
              get_position db1 sym = Some p1 ∧
              ((side p1 = None ∧ qty p1 == 0) ∨
               (is_Some (side p1) ∧ 0 < qty p1)))
      as (db1 & r1 & p1 & Hf' & Hg & Hok).
    { destruct (Hwf p eq_refl) as [[Hs Hz]|[[s Hs] Hpos]].
      - destruct (open_position db sym side_ price qty_) as
          (db1 & p1 & Ho & Hg & Hq1 & _ & Hs1).
        { right. exists p. auto. }
        exists db1, 0, p1. split; [|split; [done|]].
        + destruct Hf as [-> | ->];
            unfold update_position_on_trade, _update_position_on_trade;
            rewrite (flat_open db sym) by (right; exists p; auto); exact Ho.
        + right. rewrite Hs1, Hq1. eauto.
      - destruct (decide (s = side_)) as [->|Hne].
        + destruct (same_side f db sym side_ price qty_ p Hf Hq Hp Hpos Hs)
            as (db1 & p1 & Hf' & Hg & Hq1 & _ & Hs1).
          exists db1, 0, p1. split; [done|split; [done|]].
          right. rewrite Hs1, Hq1. split; [eauto|lra].
        + rewrite (other_side f db sym side_ price qty_ p s Hf Hp Hpos Hs Hne).
          destruct (Qlt_le_dec qty_ (qty p)) as [Hlt|Hge].
          { destruct (reduce_or_flip_partial db p sym side_ price qty_ s
                        Hp Hs Hlt) as (db1 & p1 & Hr & Hg & Hq1 & _ & Hs1).
            exists db1, (realized_on p price qty_), p1.
            split; [done|split; [done|]].
            right. rewrite Hs1, Hq1. split; [eauto|lra]. }
          destruct (Qeq_dec qty_ (qty p)) as [Heq|Hneq].
          { destruct (reduce_or_flip_full db p sym side_ price qty_
                        Hp Hq Heq)
              as (db1 & p1 & r1 & Hr & _ & Hg & Hq1 & Hs1).
            exists db1, r1, p1. split; [done|split; [done|]].
            left. rewrite Hs1, Hq1. split; [done|lra]. }
          assert (qty p < qty_) as Hlt by lra.
          destruct (reduce_or_flip_flip db p sym side_ price qty_ Hp Hlt)
            as (db1 & p1 & Hr & Hg & Hq1 & _ & Hs1).
          exists db1, (realized_on p price (qty p)), p1.
          split; [done|split; [done|]].
          right. rewrite Hs1, Hq1. split; [eauto|lra]. }
    rewrite Hf'. split; [eauto|].
    intros k Hk. by eapply ledger_frame.
  - assert (f db sym side_ price qty_ =
              ('(db, _) ← create_or_update_position db sym side_ qty_ price
                             (Some price); Ok (db, 0))) as ->.
    { destruct Hf as [-> | ->];
        unfold update_position_on_trade, _update_position_on_trade;
        by rewrite Hp. }
    destruct (db !! upper sym) as [q|] eqn:Hrow.
    + unfold create_or_update_position. rewrite Hp, Hrow. simpl.
      split; [done|]. exists q. split; [done|].
      unfold get_position in Hp. rewrite Hrow in Hp.
      by destruct (is_active q).
    + destruct (create_fresh db sym side_ qty_ price (Some price) Hrow)
        as (db2 & p2 & Hc2 & Hg & Hs2 & Hq2 & _).
      rewrite Hc2. simpl. split.
      * exists p2. split; [done|]. right. rewrite Hs2, Hq2. eauto.
      * intros k Hk. by eapply create_or_update_position_frame.
Qed.

(** Bought 10 at 100, with another symbol held: the sale of the 10 leaves
    the row flat and the other row as it was. *)
Lemma ledger_invariant_witness :
  match update_position_on_trade
          {[ "BTCUSDT" := mkPosition "BTCUSDT" (Some "BUY") 10 100 0 100 true;
             "ETHUSDT" := mkPosition "ETHUSDT" (Some "SELL") 2 50 0 50 true ]}
          "btcusdt" "SELL" 110 10 with
  | Ok (db', _) =>
      (∃ p', get_position db' "btcusdt" = Some p' ∧
             ((side p' = None ∧ qty p' == 0) ∨
              (is_Some (side p') ∧ 0 < qty p'))) ∧
      (∀ k, k ≠ upper "btcusdt" → db' !! k =
         ({[ "BTCUSDT" := mkPosition "BTCUSDT" (Some "BUY") 10 100 0 100 true;
             "ETHUSDT" := mkPosition "ETHUSDT" (Some "SELL") 2 50 0 50 true ]}
            : table) !! k)
  | Raise e =>
      e = IntegrityError ∧
      ∃ p, ({[ "BTCUSDT" := mkPosition "BTCUSDT" (Some "BUY") 10 100 0 100 true;
               "ETHUSDT" := mkPosition "ETHUSDT" (Some "SELL") 2 50 0 50 true ]}
              : table) !! upper "btcusdt" = Some p ∧ is_active p = false
  end.
Proof.
  apply (ledger_invariant update_position_on_trade);
    [left; reflexivity|reflexivity|].
  intros p. vm_compute. intros [= <-]. right. split; [eauto|reflexivity].
Defined.

(** X10.  The two copies of the ledger function, that of main.py and that
    of multi_symbol_service.py, give the same table and the same realized
    profit on every trade of positive quantity, as long as no row has a
    negative quantity. *)
Theorem ledger_copies_agree (db : table) (sym side_ : string)
    (price qty_ : Q) :
  0 < qty_ →
  (∀ p, get_position db sym = Some p → 0 <= qty p) →
  update_position_on_trade db sym side_ price qty_ =
  _update_position_on_trade db sym side_ price qty_.
Proof.
  intros Hq Hwf. unfold update_position_on_trade, _update_position_on_trade.
  destruct (flat (get_position db sym)); [done|].
  destruct (get_position db sym) as [p|]; [|done].
  destruct (bool_decide (Some side_ = side p)); [|done].
  pose proof (Hwf p eq_refl).
  assert (Qltb 0 (qty p + qty_) = true) as -> by (apply Qltb_lt; lra).
  done.
Qed.

Lemma ledger_copies_agree_witness :
  update_position_on_trade
    {[ "BTCUSDT" := mkPosition "BTCUSDT" (Some "BUY") 10 100 0 100 true ]}
    "BTCUSDT" "BUY" 110 5 =
  _update_position_on_trade
    {[ "BTCUSDT" := mkPosition "BTCUSDT" (Some "BUY") 10 100 0 100 true ]}
    "BTCUSDT" "BUY" 110 5.
Proof.
  apply ledger_copies_agree; [reflexivity|].
  intros p. vm_compute. intros [= <-]. discriminate.
Defined.

(** X11.  Where the two copies differ: a trade on the side of the position
    whose quantity cancels that of the position.  main.py tests the new
    quantity and leaves the table alone; multi_symbol_service.py divides by
    it and raises [ZeroDivisionError]. *)
Theorem ledger_copies_differ (db : table) (sym s : string) (price : Q)
    (p : Position) :
  get_position db sym = Some p → side p = Some s → ¬ qty p == 0 →
  update_position_on_trade db sym s price (- qty p) = Ok (db, 0) ∧
  _update_position_on_trade db sym s price (- qty p) =
    Raise ZeroDivisionError.
Proof.
  intros Hp Hs Hq. unfold update_position_on_trade, _update_position_on_trade.
  rewrite Hp. simpl.
  assert (Qeq_bool (qty p) 0 = false) as ->.
  { destruct (Qeq_bool (qty p) 0) eqn:E; [|done].
    by apply Qeq_bool_iff in E. }
  rewrite (bool_decide_eq_false_2 (side p = None)) by congruence. simpl.
  rewrite (bool_decide_eq_true_2 (Some s = side p)) by done.
  assert (qty p + - qty p == 0) as Hz by ring.
  split.
  - assert (Qltb 0 (qty p + - qty p) = false) as ->; [|done].
    apply Qltb_ge. lra.
  - unfold truediv. apply Qeq_bool_iff in Hz. by rewrite Hz.
Qed.

Lemma ledger_copies_differ_witness :
  update_position_on_trade
    {[ "BTCUSDT" := mkPosition "BTCUSDT" (Some "BUY") 10 100 0 100 true ]}
    "BTCUSDT" "BUY" 110 (- 10) =
    Ok ({[ "BTCUSDT" := mkPosition "BTCUSDT" (Some "BUY") 10 100 0 100 true ]},
        0) ∧
  _update_position_on_trade
    {[ "BTCUSDT" := mkPosition "BTCUSDT" (Some "BUY") 10 100 0 100 true ]}
    "BTCUSDT" "BUY" 110 (- 10) = Raise ZeroDivisionError.
Proof.
  apply (ledger_copies_differ
           {[ "BTCUSDT" :=
                mkPosition "BTCUSDT" (Some "BUY") 10 100 0 100 true ]}
           "BTCUSDT" "BUY" 110
           (mkPosition "BTCUSDT" (Some "BUY") 10 100 0 100 true));
    [reflexivity|reflexivity|discriminate].
Defined.



(** ** The trade endpoint: realized profit and cash *)

Lemma fold_left_Qplus_acc (l : list Q) (a : Q) :
  fold_left Qplus l a == a + fold_left Qplus l 0.
Proof.
  revert a. induction l as [|x l IH]; intros a; simpl; [ring|].
  rewrite (IH (a + x)), (IH (0 + x)). ring.
Qed.

Lemma sum_cons (x : Q) (l : list Q) : sum (x :: l) == x + sum l.
Proof. unfold sum. simpl. rewrite fold_left_Qplus_acc. ring. Qed.

Lemma get_position_upper (db : table) (s1 s2 : string) :
  upper s1 = upper s2 → get_position db s1 = get_position db s2.
Proof. intros H. unfold get_position. by rewrite H. Qed.

Lemma position_cost_buy p :
  side p = Some "BUY" → Api.position_cost (Some p) = entry_price p * qty p.
Proof. intros H. unfold Api.position_cost. by rewrite H. Qed.

Lemma position_cost_sell p :
  side p = Some "SELL" →
  Api.position_cost (Some p) = - (entry_price p * qty p).
Proof. intros H. unfold Api.position_cost. by rewrite H. Qed.

Lemma position_cost_flat p :
  side p = None → Api.position_cost (Some p) = 0.
Proof. intros H. unfold Api.position_cost. by rewrite H. Qed.

Lemma position_cost_side p s :
  side p = Some s → s = "BUY" ∨ s = "SELL" →
  Api.position_cost (Some p) =
    (if String.eqb s "SELL" then - (entry_price p * qty p)
     else entry_price p * qty p).
Proof.
  intros H [-> | ->].
  - by rewrite position_cost_buy.
  - by rewrite position_cost_sell.
Qed.

(** One trade: what it realizes is the cash it moves plus the change of the
    cost of the position. *)
Lemma trade_moves_cash (db : table) (sym S : string) (P q : Q) :
  S = "BUY" ∨ S = "SELL" → 0 < q →
  (∀ p, get_position db sym = Some p →
        (side p = None ∧ qty p == 0) ∨
        ((side p = Some "BUY" ∨ side p = Some "SELL") ∧ 0 < qty p)) →
  match update_position_on_trade db sym S P q with
  | Ok (db', pnl) =>
      pnl == (if String.eqb S "SELL" then P * q else - (P * q))
             + Api.position_cost (get_position db' sym)
             - Api.position_cost (get_position db sym) ∧
      (∀ p, get_position db' sym = Some p →
            (side p = None ∧ qty p == 0) ∨
            ((side p = Some "BUY" ∨ side p = Some "SELL") ∧ 0 < qty p))
  | Raise _ => True
  end.
Proof.
  intros HS Hq Hwf.
  assert (∀ p', side p' = Some S → 0 < qty p' →
            (side p' = None ∧ qty p' == 0) ∨
            ((side p' = Some "BUY" ∨ side p' = Some "SELL") ∧ 0 < qty p'))
    as HwfS.
  { intros p' Hs' Hq'. right. split; [|done]. rewrite Hs'.
    destruct HS as [-> | ->]; auto. }
  destruct (get_position db sym) as [p|] eqn:Hp.
  - destruct (Hwf p eq_refl) as [[Hs Hz]|[Hs Hpos]].
    + (* a flat row *)
      destruct (open_position db sym S P q) as
        (db1 & p1 & Ho & Hg & Hq1 & He1 & Hs1).
      { right. exists p. auto. }
      unfold update_position_on_trade.
      rewrite (flat_open db sym) by (right; exists p; auto).
      rewrite Ho, Hg. split.
      * rewrite (position_cost_side p1 S Hs1 HS), (position_cost_flat p Hs).
        rewrite He1, Hq1. destruct (String.eqb S "SELL"); ring.
      * intros p' [= <-]. apply HwfS; [done|]. by rewrite Hq1.
    + assert (∃ s, side p = Some s ∧ (s = "BUY" ∨ s = "SELL")) as (s & Hs' & Hs2).
      { destruct Hs as [Hs|Hs]; eauto. }
      destruct (decide (s = S)) as [->|Hne].
      * (* the side of the position *)
        destruct (same_side update_position_on_trade db sym S P q p
                    (or_introl eq_refl) Hq Hp Hpos Hs')
          as (db1 & p1 & Hf' & Hg & Hq1 & He1 & Hs1).
        rewrite Hf', Hg. split.
        -- rewrite (position_cost_side p1 S Hs1 HS),
             (position_cost_side p S Hs' HS).
           rewrite He1, Hq1. destruct (String.eqb S "SELL"); field; lra.
        -- intros p' [= <-]. apply HwfS; [done|]. rewrite Hq1. lra.
      * rewrite (other_side update_position_on_trade db sym S P q p s
                   (or_introl eq_refl) Hp Hpos Hs' Hne).
        assert (realized_on p P q =
                  (if String.eqb S "SELL" then (P - entry_price p) * q
                   else (entry_price p - P) * q) ∧
                realized_on p P (qty p) =
                  (if String.eqb S "SELL" then (P - entry_price p) * qty p
                   else (entry_price p - P) * qty p) ∧
                String.eqb s "SELL" = negb (String.eqb S "SELL")) as
          (Hr1 & Hr2 & Hflip).
        { unfold realized_on. rewrite Hs'.
          destruct Hs2 as [-> | ->], HS as [-> | ->]; try done. }
        destruct (Qlt_le_dec q (qty p)) as [Hlt|Hge].
        { destruct (reduce_or_flip_partial db p sym S P q s Hp Hs' Hlt)
            as (db1 & p1 & Hr & Hg & Hq1 & He1 & Hs1).
          rewrite Hr, Hg. split.
          - rewrite (position_cost_side p1 s Hs1 Hs2),
              (position_cost_side p s Hs' Hs2).
            rewrite He1, Hq1, Hr1, Hflip.
            destruct (String.eqb S "SELL"); simpl; ring.
          - intros p' [= <-]. right. rewrite Hs1, Hq1. split; [|lra].
            destruct Hs2 as [-> | ->]; auto. }
        destruct (Qeq_dec q (qty p)) as [Heq|Hneq].
        { destruct (reduce_or_flip_full db p sym S P q Hp Hq Heq)
            as (db1 & p1 & r1 & Hr & Hr' & Hg & Hq1 & Hs1).
          rewrite Hr, Hg. split.
          - rewrite (position_cost_flat p1 Hs1),
              (position_cost_side p s Hs' Hs2).
            rewrite Hr', Hr2, Hflip.
            destruct (String.eqb S "SELL"); simpl; rewrite Heq; ring.
          - intros p' [= <-]. left. rewrite Hs1, Hq1. split; [done|lra]. }
        assert (qty p < q) as Hlt by lra.
        destruct (reduce_or_flip_flip db p sym S P q Hp Hlt)
          as (db1 & p1 & Hr & Hg & Hq1 & He1 & Hs1).
        rewrite Hr, Hg. split.
        -- rewrite (position_cost_side p1 S Hs1 HS),
             (position_cost_side p s Hs' Hs2).
           rewrite He1, Hq1, Hr2, Hflip.
           destruct (String.eqb S "SELL"); simpl; ring.
        -- intros p' [= <-]. apply HwfS; [done|]. rewrite Hq1. lra.
  - unfold update_position_on_trade. rewrite Hp. simpl.
    destruct (db !! upper sym) as [row|] eqn:Hrow.
    + unfold create_or_update_position. by rewrite Hp, Hrow.
    + destruct (create_fresh db sym S q P (Some P) Hrow)
        as (db2 & p2 & Hc2 & Hg & Hs2 & Hq2 & He2).
      rewrite Hc2. simpl. rewrite Hg. split.
      * rewrite (position_cost_side p2 S Hs2 HS). simpl.
        rewrite He2, Hq2. destruct (String.eqb S "SELL"); ring.
      * intros p' [= <-]. apply HwfS; [done|]. by rewrite Hq2.
Qed.



(** ** Closing a position: the two endpoints *)

Lemma upper_ascii_idemp (c : ascii) : upper_ascii (upper_ascii c) = upper_ascii c.
Proof.
  destruct c as [[] [] [] [] [] [] [] []]; vm_compute; reflexivity.
Qed.

Lemma upper_idemp (s : string) : upper (upper s) = upper s.
Proof.
  induction s as [|c s IH]; simpl; [done|].
  by rewrite upper_ascii_idemp, IH.
Qed.

Lemma Qle_bool_false (x y : Q) : Qle_bool x y = false ↔ y < x.
Proof.
  split.
  - intros H. apply Qnot_le_lt. intros Hle. apply Qle_bool_iff in Hle.
    congruence.
  - intros H. destruct (Qle_bool x y) eqn:E; [|done].
    apply Qle_bool_iff in E. lra.
Qed.

(** A partial close through [close_position]. *)
Lemma close_partial (db : table) sym p q :
  get_position db sym = Some p → 0 < qty p → q < qty p →
  ∃ db' p', close_position db sym (Some q) = (db', Some p') ∧
            get_position db' sym = Some p' ∧ side p' = side p ∧
            qty p' = qty p - q ∧ entry_price p' = entry_price p ∧
            latest_price p' = latest_price p.
Proof.
  intros Hp Hpos Hq. unfold close_position. rewrite Hp.
  apply get_position_Some in Hp as [_ Hact].
  assert (Qle_bool (qty p) 0 = false) as -> by (apply Qle_bool_false; lra).
  assert (Qle_bool (qty p) q = false) as -> by (by apply Qle_bool_false).
  eexists _, _. split; [done|]. split; [|done].
  by apply get_position_insert.
Qed.

(** X14.  [POST /api/position/close] and the ledger.  Closing a position
    bought or sold through the endpoint, with a price and a positive
    quantity (or none), is a trade of the closed quantity on the other side
    through [update_position_on_trade]: the closed quantity never exceeds
    the quantity held, the profit realized is the same, and so are the
    side, the quantity and the entry price left in the table.  The trade
    row carries the other side, the closed quantity and that profit. *)
Theorem close_endpoint_is_opposite_trade (db : table) (trades : list Trade)
    (latest : option Q) (req : Api.ClosePositionRequest) (p : Position)
    (s : string) (price : Q) :
  let sym := Api.req_symbol req in
  let other := if String.eqb s "BUY" then "SELL" else "BUY" in
  get_position db sym = Some p → 0 < qty p →
  side p = Some s → s = "BUY" ∨ s = "SELL" →
  match Api.req_price req with Some x => Some x | None => latest end
    = Some price →
  (∀ q, Api.req_qty req = Some q → 0 < q) →
  ∃ c r db1 db2 p1 p2,
    0 < c ∧ c <= qty p ∧
    Api.close_position db trades latest req =
      (db1, trades ++ [mkTrade sym other price c r], Api.Closed r price c) ∧
    update_position_on_trade db sym other price c = Ok (db2, r) ∧
    get_position db1 sym = Some p1 ∧ get_position db2 sym = Some p2 ∧
    side p1 = side p2 ∧ qty p1 = qty p2 ∧ entry_price p1 = entry_price p2.
Proof.
  intros sym other Hp Hpos Hs Hside Hprice Hqty.
  assert (s ≠ other) as Hne.
  { unfold other. destruct Hside as [-> | ->]; done. }
  assert ((if bool_decide (side p = Some "BUY") then "SELL"
           else if bool_decide (side p = Some "SELL") then "BUY"
           else "CLOSE") = other) as Hother.
  { unfold other. rewrite Hs. destruct Hside as [-> | ->]; done. }
  assert (Qle_bool (qty p) 0 = false) as Hz by (apply Qle_bool_false; lra).
  pose proof (λ c, other_side update_position_on_trade db sym other price c
                     p s (or_introl eq_refl) Hp Hpos Hs Hne) as Hupd.
  assert (∀ c, (if bool_decide (side p = Some "BUY")
                then (price - entry_price p) * c
                else (entry_price p - price) * c) = realized_on p price c)
    as Hreal by done.
  assert (∃ db' p',
            close_position db sym (Some (qty p)) = (db', Some p') ∧
            get_position db' sym = Some p' ∧
            reduce_or_flip db p sym other price (qty p)
              = Ok (db', realized_on p price (qty p)))
    as (dbf & pf & Hcf & Hgf & Hrf).
  { destruct (close_full db sym p (qty p) Hp Hpos) as
      (db' & p' & Hc & Hg & _); [lra|].
    exists db', p'. split; [done|]. split; [done|].
    unfold reduce_or_flip.
    assert (Qltb (qty p) (qty p) = false) as -> by (apply Qltb_ge; lra).
    assert (Qeq_bool (qty p) (qty p) = true) as ->
      by (by apply Qeq_bool_iff).
    by rewrite Hc. }
  unfold Api.close_position. fold sym. rewrite Hprice, Hp, Hz, Hother.
  rewrite Hreal.
  destruct (Api.req_qty req) as [q|] eqn:Hq.
  - pose proof (Hqty q eq_refl) as Hq0.
    destruct (Qle_bool (qty p) q) eqn:Hle.
    + rewrite Hcf.
      exists (qty p), (realized_on p price (qty p)), dbf, dbf, pf, pf.
      rewrite Hupd, Hrf. repeat split; try done. lra.
    + apply Qle_bool_false in Hle.
      destruct (close_partial db sym p q Hp Hpos Hle) as
        (db' & p' & Hc & Hg & Hs1 & Hq1 & He1 & _).
      destruct (reduce_or_flip_partial db p sym other price q s Hp Hs Hle)
        as (db2 & p2 & Hr & Hg2 & Hq2 & He2 & Hs2).
      rewrite Hc.
      exists q, (realized_on p price q), db', db2, p', p2.
      rewrite Hupd, Hr. repeat split; try done; try lra; congruence.
  - rewrite Hcf.
    exists (qty p), (realized_on p price (qty p)), dbf, dbf, pf, pf.
    rewrite Hupd, Hrf. repeat split; try done. lra.
Qed.

(** Bought 10 at 100: closing 4 at 110 through the endpoint. *)
Lemma close_endpoint_is_opposite_trade_witness :
  let p := mkPosition "BTCUSDT" (Some "BUY") 10 100 0 105 true in
  let db : table := {[ "BTCUSDT" := p ]} in
  let req := Api.mkCloseRequest "BTCUSDT" (Some 110) (Some 4) in
  ∃ c r db1 db2 p1 p2,
    0 < c ∧ c <= 10 ∧
    Api.close_position db [] None req =
      (db1, [] ++ [mkTrade "BTCUSDT" "SELL" 110 c r], Api.Closed r 110 c) ∧
    update_position_on_trade db "BTCUSDT" "SELL" 110 c = Ok (db2, r) ∧
    get_position db1 "BTCUSDT" = Some p1 ∧
    get_position db2 "BTCUSDT" = Some p2 ∧
    side p1 = side p2 ∧ qty p1 = qty p2 ∧ entry_price p1 = entry_price p2.
Proof.
  intros p db req.
  apply (close_endpoint_is_opposite_trade db [] None req p "BUY" 110);
    [reflexivity|reflexivity|reflexivity|by left|reflexivity|].
  intros q [= <-]. reflexivity.
Defined.

(** A full close through [close_symbol_position]: the side of the trade
    is read from the emptied row. *)
Lemma close_symbol_position_full (db : table) (trades : list Trade)
    (sym : string) (quantity : option Q) (p : Position) :
  get_position db (upper sym) = Some p → 0 < qty p →
  let c := match quantity with
           | Some q => if Qeq_bool q 0 then qty p else q
           | None => qty p
           end in
  let r := realized_on p (latest_price p) c in
  qty p <= c →
  ∃ db' p',
    get_position db' (upper sym) = Some p' ∧
    MultiSymbol.close_symbol_position db trades sym quantity =
      (db', trades ++ [mkTrade (upper sym) "BUY" (latest_price p) c r],
       MultiSymbol.Closed (upper sym) c r (latest_price p)) ∧
    side p' = None ∧ qty p' = 0.
Proof.
  intros Hp Hpos c r Hge.
  assert (Qle_bool (qty p) 0 = false) as Hz by (apply Qle_bool_false; lra).
  assert (match quantity with
          | Some q => if truthy q then q else qty p
          | None => qty p
          end = c) as Hc.
  { unfold c, truthy. destruct quantity as [q|]; [|done].
    by destruct (Qeq_bool q 0). }
  unfold MultiSymbol.close_symbol_position. rewrite Hp, Hz, Hc.
  destruct (close_full db (upper sym) p c Hp Hpos Hge) as
    (db' & p' & Hcl & Hg & Hs1 & Hq1).
  exists db', p'. split; [done|].
  rewrite Hcl, Hg. simpl. rewrite Hs1.
  rewrite (bool_decide_eq_false_2 (None = Some "BUY")) by done.
  assert (latest_price p' = latest_price p) as ->.
  { revert Hcl. unfold close_position. rewrite Hp, Hz.
    apply Qle_bool_iff in Hge. rewrite Hge. by intros [= _ <-]. }
  done.
Qed.

(** X15.  What [close_symbol_position] records.  When it closes the whole
    position (no quantity, a quantity of 0, or one that is not below the
    quantity held), the row is flat afterwards and the closing trade is
    recorded on the side BUY, whatever the side of the position was: the
    side is read from the row after the close has emptied it.  When it
    closes a part, the trade is recorded on the side opposite to the
    position (any side that is not BUY counting as sold).  In both cases
    the profit is that of the quantity asked for at the latest price of
    the row. *)
Theorem close_symbol_position_records (db : table) (trades : list Trade)
    (sym : string) (quantity : option Q) (p : Position) :
  get_position db (upper sym) = Some p → 0 < qty p →
  let c := match quantity with
           | Some q => if Qeq_bool q 0 then qty p else q
           | None => qty p
           end in
  let r := realized_on p (latest_price p) c in
  ∃ db' p',
    get_position db' (upper sym) = Some p' ∧
    (qty p <= c →
     MultiSymbol.close_symbol_position db trades sym quantity =
       (db', trades ++ [mkTrade (upper sym) "BUY" (latest_price p) c r],
        MultiSymbol.Closed (upper sym) c r (latest_price p)) ∧
     side p' = None ∧ qty p' = 0) ∧
    (c < qty p →
     MultiSymbol.close_symbol_position db trades sym quantity =
       (db', trades ++
               [mkTrade (upper sym)
                  (if bool_decide (side p = Some "BUY") then "SELL" else "BUY")
                  (latest_price p) c r],
        MultiSymbol.Closed (upper sym) c r (latest_price p)) ∧
     side p' = side p ∧ qty p' = qty p - c).
Proof.
  intros Hp Hpos c r.
  assert (Qle_bool (qty p) 0 = false) as Hz by (apply Qle_bool_false; lra).
  assert (match quantity with
          | Some q => if truthy q then q else qty p
          | None => qty p
          end = c) as Hc.
  { unfold c, truthy. destruct quantity as [q|]; [|done].
    by destruct (Qeq_bool q 0). }
  unfold MultiSymbol.close_symbol_position. rewrite Hp, Hz, Hc.
  assert (∀ x, (if bool_decide (side p = Some "BUY")
                then (latest_price p - entry_price p) * x
                else (entry_price p - latest_price p) * x)
               = realized_on p (latest_price p) x) as Hreal by done.
  rewrite Hreal. fold r.
  destruct (Qlt_le_dec c (qty p)) as [Hlt|Hge].
  - destruct (close_partial db (upper sym) p c Hp Hpos Hlt) as
      (db' & p' & Hcl & Hg & Hs1 & Hq1 & _ & Hl1).
    exists db', p'. split; [done|]. split; [intros; lra|]. intros _.
    rewrite Hcl, Hg. simpl. rewrite Hs1, Hl1. done.
  - destruct (close_symbol_position_full db trades sym quantity p Hp Hpos
                Hge) as (db' & p' & Hg & Hcl & Hs1 & Hq1).
    exists db', p'. split; [done|]. split; [|intros; lra]. intros _.
    fold c r in Hcl. unfold MultiSymbol.close_symbol_position in Hcl.
    rewrite Hp, Hz, Hc in Hcl. rewrite Hreal in Hcl. fold r in Hcl. done.
Qed.

(** Bought 10 at 100 and marked at 110: closing all of it records a
    purchase. *)
Lemma close_symbol_position_records_witness :
  let p := mkPosition "BTCUSDT" (Some "BUY") 10 100 0 110 true in
  let db : table := {[ "BTCUSDT" := p ]} in
  ∃ db' p',
    get_position db' "BTCUSDT" = Some p' ∧
    MultiSymbol.close_symbol_position db [] "btcusdt" None =
      (db', [mkTrade "BTCUSDT" "BUY" 110 10 ((110 - 100) * 10)],
       MultiSymbol.Closed "BTCUSDT" 10 ((110 - 100) * 10) 110) ∧
    side p' = None ∧ qty p' = 0.
Proof.
  intros p db.
  destruct (close_symbol_position_records db [] "btcusdt" None p)
    as (db' & p' & Hg & Hfull & _); [reflexivity|reflexivity|].
  exists db', p'. split; [exact Hg|]. apply Hfull. discriminate.
Defined.

(** X16.  Where the two close endpoints part: a quantity of 0, and a
    quantity above the one held.  On a quantity of 0 the endpoint of
    main.py closes nothing and records a trade of quantity 0, that of
    multi_symbol_service.py closes the whole position.  On a quantity [q]
    above the quantity held both empty the row; main.py records the
    quantity held and its profit, multi_symbol_service.py records [q] and
    the profit of [q]. *)
Theorem close_endpoints_differ (db : table) (trades : list Trade)
    (sym : string) (price q : Q) (p : Position) :
  get_position db (upper sym) = Some p → 0 < qty p → price = latest_price p →
  (∃ db1 db2 p1 p2 t1 t2,
     Api.close_position db trades None
       (Api.mkCloseRequest (upper sym) (Some price) (Some 0))
       = (db1, trades ++ [t1], Api.Closed (t_pnl t1) price 0) ∧
     MultiSymbol.close_symbol_position db trades sym (Some 0)
       = (db2, trades ++ [t2],
          MultiSymbol.Closed (upper sym) (qty p) (t_pnl t2) price) ∧
     get_position db1 (upper sym) = Some p1 ∧
     get_position db2 (upper sym) = Some p2 ∧
     side p1 = side p ∧ qty p1 == qty p ∧ t_qty t1 = 0 ∧ t_pnl t1 == 0 ∧
     side p2 = None ∧ qty p2 = 0 ∧ t_qty t2 = qty p ∧
     t_pnl t2 = realized_on p price (qty p)) ∧
  (qty p < q →
   ∃ db1 db2 p1 p2 t1 t2,
     Api.close_position db trades None
       (Api.mkCloseRequest (upper sym) (Some price) (Some q))
       = (db1, trades ++ [t1], Api.Closed (t_pnl t1) price (qty p)) ∧
     MultiSymbol.close_symbol_position db trades sym (Some q)
       = (db2, trades ++ [t2],
          MultiSymbol.Closed (upper sym) q (t_pnl t2) price) ∧
     get_position db1 (upper sym) = Some p1 ∧
     get_position db2 (upper sym) = Some p2 ∧
     qty p1 = 0 ∧ qty p2 = 0 ∧
     t_qty t1 = qty p ∧ t_pnl t1 = realized_on p price (qty p) ∧
     t_qty t2 = q ∧ t_pnl t2 = realized_on p price q).
Proof.
  intros Hp Hpos ->.
  assert (Qle_bool (qty p) 0 = false) as Hz by (apply Qle_bool_false; lra).
  split.
  - destruct (close_partial db (upper sym) p 0 Hp Hpos Hpos) as
      (db1 & p1 & Hc1 & Hg1 & Hs1 & Hq1 & _).
    destruct (close_symbol_position_full db trades sym (Some 0) p Hp Hpos)
      as (db2 & p2 & Hg2 & Hm & Hs2 & Hq2); [simpl; lra|].
    simpl in Hm.
    exists db1, db2, p1, p2,
      (mkTrade (upper sym)
         (if bool_decide (side p = Some "BUY") then "SELL"
          else if bool_decide (side p = Some "SELL") then "BUY" else "CLOSE")
         (latest_price p) 0
         (if bool_decide (side p = Some "BUY")
          then (latest_price p - entry_price p) * 0
          else (entry_price p - latest_price p) * 0)),
      (mkTrade (upper sym) "BUY" (latest_price p) (qty p)
         (realized_on p (latest_price p) (qty p))).
    split.
    { unfold Api.close_position.
      cbn [Api.req_symbol Api.req_price Api.req_qty].
      rewrite Hp, Hz, Hc1. reflexivity. }
    split; [exact Hm|]. cbn [t_qty t_pnl].
    repeat split; try done.
    + rewrite Hq1. ring.
    + destruct (bool_decide (side p = Some "BUY")); ring.
  - intros Hlt.
    assert (qty p <= q) as Hle by lra.
    destruct (close_full db (upper sym) p (qty p) Hp Hpos) as
      (db1 & p1 & Hc1 & Hg1 & _ & Hq1); [lra|].
    assert (Qeq_bool q 0 = false) as Hq0.
    { destruct (Qeq_bool q 0) eqn:E; [|done]. apply Qeq_bool_iff in E. lra. }
    pose proof (close_symbol_position_full db trades sym (Some q) p Hp Hpos)
      as Hfull.
    simpl in Hfull. rewrite Hq0 in Hfull.
    destruct (Hfull Hle) as (db2 & p2 & Hg2 & Hm & _ & Hq2).
    exists db1, db2, p1, p2,
      (mkTrade (upper sym)
         (if bool_decide (side p = Some "BUY") then "SELL"
          else if bool_decide (side p = Some "SELL") then "BUY" else "CLOSE")
         (latest_price p) (qty p)
         (realized_on p (latest_price p) (qty p))),
      (mkTrade (upper sym) "BUY" (latest_price p) q
         (realized_on p (latest_price p) q)).
    split.
    { unfold Api.close_position.
      cbn [Api.req_symbol Api.req_price Api.req_qty].
      rewrite Hp, Hz.
      apply Qle_bool_iff in Hle. rewrite Hle, Hc1. reflexivity. }
    split; [exact Hm|]. cbn [t_qty t_pnl]. repeat split; done.
Qed.

Lemma close_endpoints_differ_witness :
  let p := mkPosition "BTCUSDT" (Some "BUY") 10 100 0 110 true in
  let db : table := {[ "BTCUSDT" := p ]} in
  ∃ db1 db2 p1 p2 t1 t2,
    Api.close_position db [] None
      (Api.mkCloseRequest "BTCUSDT" (Some 110) (Some 12))
      = (db1, [] ++ [t1], Api.Closed (t_pnl t1) 110 10) ∧
    MultiSymbol.close_symbol_position db [] "BTCUSDT" (Some 12)
      = (db2, [] ++ [t2], MultiSymbol.Closed "BTCUSDT" 12 (t_pnl t2) 110) ∧
    get_position db1 "BTCUSDT" = Some p1 ∧
    get_position db2 "BTCUSDT" = Some p2 ∧
    qty p1 = 0 ∧ qty p2 = 0 ∧
    t_qty t1 = 10 ∧ t_pnl t1 = (110 - 100) * 10 ∧
    t_qty t2 = 12 ∧ t_pnl t2 = (110 - 100) * 12.
Proof.
  intros p db.
  destruct (close_endpoints_differ db [] "BTCUSDT" 110 12 p)
    as [_ H]; [reflexivity|reflexivity|reflexivity|].
  apply H. reflexivity.
Defined.

(** ** The rate limiter *)

Lemma calls_snoc (ts : list Q) (t : Q) (b : Limiter.buckets) (key : string) :
  Limiter.calls (ts ++ [t]) b key =
    (let '(b1, passed) := Limiter.calls ts b key in
     let '(b2, v) := Limiter._rl_check t b1 key in
     (b2, passed ++ match v with
                    | Limiter.Pass => [t]
                    | Limiter.HTTP_429 => []
                    end)).
Proof.
  revert b. induction ts as [|x ts IH]; intros b; simpl.
  - destruct (Limiter._rl_check t b key) as [b2 []]; done.
  - destruct (Limiter._rl_check x b key) as [b1 v1]. rewrite IH.
    destruct (Limiter.calls ts b1 key) as [b2 passed].
    destruct (Limiter._rl_check t b2 key) as [b3 v3].
    by destruct v1.
Qed.

Lemma ascending_snoc (l : list Q) (x : Q) :
  Limiter.ascending (l ++ [x]) ↔
  Limiter.ascending l ∧ Forall (λ u, u <= x) l.
Proof.
  induction l as [|y l IH]; simpl.
  - split; [done|]. intros _. split; [constructor|done].
  - rewrite IH, Forall_app, Forall_singleton, Forall_cons. tauto.
Qed.

(** What [evict] drops is older than the window. *)
Lemma evict_split (now : Q) (dq : list Q) :
  ∃ ev, dq = ev ++ Limiter.evict now dq ∧
        Forall (λ u, Limiter._RL_WINDOW_SEC < now - u) ev.
Proof.
  induction dq as [|t dq (ev & Hdq & Hev)]; simpl.
  - by exists [].
  - destruct (Qltb Limiter._RL_WINDOW_SEC (now - t)) eqn:E.
    + exists (t :: ev). split; [simpl; congruence|].
      constructor; [by apply Qltb_lt|done].
    + by exists [].
Qed.

(** What it keeps of an ascending bucket is within the window. *)
Lemma evict_fresh (now : Q) (dq : list Q) :
  Limiter.ascending dq →
  Forall (λ u, now - u <= Limiter._RL_WINDOW_SEC) (Limiter.evict now dq).
Proof.
  induction dq as [|t dq IH]; simpl; [constructor|].
  intros [Ht Hasc].
  destruct (Qltb Limiter._RL_WINDOW_SEC (now - t)) eqn:E; [by apply IH|].
  apply Qltb_ge in E. constructor; [done|].
  eapply Forall_impl; [exact Ht|]. intros u Hu. cbn beta in *. lra.
Qed.

Lemma ascending_app_r (l1 l2 : list Q) :
  Limiter.ascending (l1 ++ l2) → Limiter.ascending l2.
Proof.
  induction l1 as [|x l1 IH]; simpl; [done|]. intros [_ H]. by apply IH.
Qed.

Lemma within_app (a w : Q) (l1 l2 : list Q) :
  Limiter.within a w (l1 ++ l2) = Limiter.within a w l1 ++ Limiter.within a w l2.
Proof. unfold Limiter.within. apply List.filter_app. Qed.

Lemma within_none (a w : Q) (l : list Q) :
  Forall (λ u, u < a ∨ a + w < u) l → Limiter.within a w l = [].
Proof.
  induction 1 as [|u l Hu _ IH]; [done|].
  unfold Limiter.within in *. simpl. rewrite IH.
  destruct (Qle_bool a u) eqn:E1; [|done].
  destruct (Qle_bool u (a + w)) eqn:E2; [|done].
  apply Qle_bool_iff in E1, E2. lra.
Qed.

Lemma within_all (a w : Q) (l : list Q) :
  Forall (λ u, a <= u ∧ u <= a + w) l → Limiter.within a w l = l.
Proof.
  induction 1 as [|u l [Hu1 Hu2] _ IH]; [done|].
  unfold Limiter.within in *. simpl. rewrite IH.
  apply Qle_bool_iff in Hu1, Hu2. by rewrite Hu1, Hu2.
Qed.

Lemma within_length (a w : Q) (l : list Q) :
  (length (Limiter.within a w l) <= length l)%nat.
Proof. unfold Limiter.within. apply List.filter_length_le. Qed.

(** The state of the limiter after calls at ascending times, from a key
    that has no bucket: the bucket is the end of the list of the calls let
    through, what is before it is older than the window at any later time,
    and no closed window holds more than the limit. *)
Lemma calls_invariant (ts : list Q) (b : Limiter.buckets) (key : string) :
  Limiter.ascending ts → b !! key = None →
  ∃ pre,
    (Limiter.calls ts b key).2 =
      pre ++ default [] ((Limiter.calls ts b key).1 !! key) ∧
    (∀ t, Forall (λ x, x <= t) ts →
          Forall (λ u, Limiter._RL_WINDOW_SEC < t - u) pre ∧
          Forall (λ u, u <= t) (Limiter.calls ts b key).2) ∧
    Limiter.ascending (Limiter.calls ts b key).2 ∧
    (∀ a, (len (Limiter.within a Limiter._RL_WINDOW_SEC
                  (Limiter.calls ts b key).2) <= Limiter._RL_MAX_CALLS)%Z).
Proof.
  intros Hasc Hb. induction ts as [|now ts IH] using rev_ind.
  - exists []. simpl. rewrite Hb. repeat split; try constructor.
    intros a. done.
  - apply ascending_snoc in Hasc as [Hasc Hnow].
    destruct (IH Hasc) as (pre & Hpassed & Hold & Hsorted & Hwin).
    clear IH. rewrite calls_snoc.
    destruct (Limiter.calls ts b key) as [b1 passed]. cbn [fst snd] in *.
    destruct (Hold now Hnow) as [Hpre Hle].
    set (dq := default [] (b1 !! key)) in *.
    destruct (evict_split now dq) as (ev & Hdq & Hev).
    assert (Limiter.ascending dq) as Hdqs.
    { eapply ascending_app_r. by rewrite <- Hpassed. }
    pose proof (evict_fresh now dq Hdqs) as Hfresh.
    unfold Limiter._rl_check. fold dq.
    set (dq1 := Limiter.evict now dq) in *.
    assert (∀ t, Forall (λ x, x <= t) (ts ++ [now]) →
                 Forall (λ u, Limiter._RL_WINDOW_SEC < t - u) (pre ++ ev))
      as Hpre'.
    { intros t Ht. rewrite Forall_app, Forall_singleton in Ht. destruct Ht as [_ Ht]. apply Forall_app. split.
      - eapply Forall_impl; [exact Hpre|]. intros u Hu. cbn beta in *. lra.
      - eapply Forall_impl; [exact Hev|]. intros u Hu. cbn beta in *. lra. }
    destruct (Limiter._RL_MAX_CALLS <=? len dq1)%Z eqn:Efull; simpl.
    + exists (pre ++ ev). rewrite lookup_insert_eq. simpl.
      rewrite app_nil_r. split; [by rewrite Hpassed, Hdq, app_assoc|].
      split; [|done]. intros t Ht. split; [by apply Hpre'|].
      rewrite Forall_app, Forall_singleton in Ht. destruct Ht as [_ Ht].
      eapply Forall_impl; [exact Hle|]. intros u Hu. cbn beta in *. lra.
    + exists (pre ++ ev). rewrite lookup_insert_eq. simpl.
      split; [by rewrite Hpassed, Hdq, !app_assoc|].
      split; [|split].
      * intros t Ht. split; [by apply Hpre'|].
        rewrite Forall_app, Forall_singleton in Ht. destruct Ht as [_ Ht].
        apply Forall_app. split; [|by apply Forall_singleton].
        eapply Forall_impl; [exact Hle|]. intros u Hu. cbn beta in *. lra.
      * by apply ascending_snoc.
      * intros a. rewrite within_app.
        destruct (Qlt_le_dec now a) as [Hlo|Hlo].
        { rewrite (within_none a _ [now]), app_nil_r; [apply Hwin|].
          apply Forall_singleton. by left. }
        destruct (Qlt_le_dec (a + Limiter._RL_WINDOW_SEC) now) as [Hhi|Hhi].
        { rewrite (within_none a _ [now]), app_nil_r; [apply Hwin|].
          apply Forall_singleton. by right. }
        rewrite Hpassed, Hdq, app_assoc, within_app.
        rewrite (within_none a _ (pre ++ ev)).
        2:{ apply Forall_app. split.
            - eapply Forall_impl; [exact Hpre|]. intros u Hu. cbn beta in *.
              left. lra.
            - eapply Forall_impl; [exact Hev|]. intros u Hu. cbn beta in *.
              left. lra. }
        simpl. unfold len in *. rewrite length_app.
        pose proof (within_length a Limiter._RL_WINDOW_SEC dq1).
        pose proof (within_length a Limiter._RL_WINDOW_SEC [now]).
        simpl in *. apply Z.leb_gt in Efull.
        fold dq1. lia.
Qed.

(** X17.  The limiter holds its limit.  For calls of [_rl_check] with one
    key at times that do not go back, starting from a key that has no
    bucket, no closed window of [_RL_WINDOW_SEC] seconds holds more than
    [_RL_MAX_CALLS] of the calls that were let through. *)
Theorem rate_limit_window (ts : list Q) (b : Limiter.buckets) (key : string)
    (a : Q) :
  Limiter.ascending ts → b !! key = None →
  (len (Limiter.within a Limiter._RL_WINDOW_SEC (Limiter.calls ts b key).2)
   <= Limiter._RL_MAX_CALLS)%Z.
Proof.
  intros Hasc Hb.
  destruct (calls_invariant ts b key Hasc Hb) as (_ & _ & _ & _ & H).
  apply H.
Qed.

(** Twenty-five calls in the same second: twenty are let through. *)
Lemma rate_limit_window_witness :
  (len (Limiter.within 0 Limiter._RL_WINDOW_SEC
          (Limiter.calls (replicate 25 1%Q) ∅ "k").2) <= Limiter._RL_MAX_CALLS)%Z
  ∧ (Limiter.calls (replicate 25 1%Q) ∅ "k").2 = replicate 20 1%Q.
Proof.
  split; [|vm_compute; reflexivity].
  apply (rate_limit_window (replicate 25 1%Q) ∅ "k" 0); [|reflexivity].
  simpl. repeat split; repeat constructor; discriminate.
Defined.

(** X18.  Which calls the limiter refuses.  Under the same conditions, a
    call at the time [now] is let through exactly when fewer than
    [_RL_MAX_CALLS] of the calls let through before lie in the
    [_RL_WINDOW_SEC] seconds that end at [now]; a call that is refused does
    not count. *)
Theorem rate_limit_verdict (ts : list Q) (now : Q) (b : Limiter.buckets)
    (key : string) :
  Limiter.ascending (ts ++ [now]) → b !! key = None →
  (Limiter._rl_check now (Limiter.calls ts b key).1 key).2 =
    (if (len (Limiter.within (now - Limiter._RL_WINDOW_SEC)
                Limiter._RL_WINDOW_SEC (Limiter.calls ts b key).2)
         <? Limiter._RL_MAX_CALLS)%Z
     then Limiter.Pass else Limiter.HTTP_429).
Proof.
  intros Hasc Hb. apply ascending_snoc in Hasc as [Hasc Hnow].
  destruct (calls_invariant ts b key Hasc Hb)
    as (pre & Hpassed & Hold & Hsorted & _).
  destruct (Hold now Hnow) as [Hpre Hle].
  destruct (Limiter.calls ts b key) as [b1 passed]. cbn [fst snd] in *.
  set (dq := default [] (b1 !! key)) in *.
  destruct (evict_split now dq) as (ev & Hdq & Hev).
  assert (Limiter.ascending dq) as Hdqs.
  { eapply ascending_app_r. by rewrite <- Hpassed. }
  pose proof (evict_fresh now dq Hdqs) as Hfresh.
  unfold Limiter._rl_check. fold dq.
  set (dq1 := Limiter.evict now dq) in *.
  assert (Limiter.within (now - Limiter._RL_WINDOW_SEC)
            Limiter._RL_WINDOW_SEC passed = dq1) as ->.
  { rewrite Hpassed, Hdq, app_assoc, within_app.
    rewrite (within_none _ _ (pre ++ ev)).
    2:{ apply Forall_app. split.
        - eapply Forall_impl; [exact Hpre|]. intros u Hu. cbn beta in *. left. lra.
        - eapply Forall_impl; [exact Hev|]. intros u Hu. cbn beta in *. left. lra. }
    simpl. apply within_all.
    assert (Forall (λ u, u <= now) dq1) as Hle1.
    { rewrite Hpassed, Hdq in Hle.
      rewrite !Forall_app in Hle. tauto. }
    apply Forall_forall. intros u Hu.
    rewrite Forall_forall in Hfresh, Hle1.
    specialize (Hfresh u Hu). specialize (Hle1 u Hu). simpl in *. lra. }
  rewrite Z.ltb_antisym.
  by destruct (Limiter._RL_MAX_CALLS <=? len dq1)%Z.
Qed.

(** Twenty calls in the first second and one refused in the fifth: a call
    in the eleventh second is refused, one in the twelfth is let through. *)
Lemma rate_limit_verdict_witness :
  (Limiter._rl_check 11
     (Limiter.calls (replicate 20 1%Q ++ [5]) ∅ "k").1 "k").2 = Limiter.HTTP_429
  ∧ (Limiter._rl_check 12
       (Limiter.calls (replicate 20 1%Q ++ [5]) ∅ "k").1 "k").2 = Limiter.Pass.
Proof.
  split.
  - rewrite (rate_limit_verdict (replicate 20 1%Q ++ [5]) 11 ∅ "k");
      [vm_compute; reflexivity| |reflexivity].
    simpl. repeat split; repeat constructor; discriminate.
  - rewrite (rate_limit_verdict (replicate 20 1%Q ++ [5]) 12 ∅ "k");
      [vm_compute; reflexivity| |reflexivity].
    simpl. repeat split; repeat constructor; discriminate.
Defined.

(** ** The trading manager *)

Lemma record_trade_config (tm : Manager.TradingManager) ex pnl :
  Manager.config (Manager.record_trade tm ex pnl) = Manager.config tm.
Proof. done. Qed.

Lemma record_trades_config (tm : Manager.TradingManager) l :
  Manager.config (Manager.record_trades tm l) = Manager.config tm.
Proof.
  revert tm. induction l as [|t l IH]; intros tm; [done|].
  unfold Manager.record_trades in *. simpl. by rewrite IH.
Qed.

(** The counters of an exchange after a list of trades: the trades of the
    exchange are counted and their profits added, in their order. *)
Lemma record_trades_counters (tm : Manager.TradingManager)
    (l : list (string * Q)) (ex : string) :
  let mine := filter (λ t, t.1 = ex) l in
  default 0%Z (Manager.daily_trades (Manager.record_trades tm l) !! ex)
    = (default 0 (Manager.daily_trades tm !! ex) + len mine)%Z ∧
  default 0 (Manager.daily_pnl (Manager.record_trades tm l) !! ex)
    = fold_left Qplus (snd <$> mine) (default 0 (Manager.daily_pnl tm !! ex)).
Proof.
  revert tm. induction l as [|[e pnl] l IH]; intros tm; simpl.
  - split; [unfold len; simpl; lia|done].
  - unfold Manager.record_trades in *. simpl.
    destruct (IH (Manager.record_trade tm e pnl)) as [IH1 IH2].
    rewrite IH1, IH2. clear IH IH1 IH2. simpl.
    rewrite filter_cons. simpl. destruct (decide (e = ex)) as [->|Hne].
    + rewrite !lookup_insert_eq. simpl. split; [|done].
      unfold len. simpl. lia.
    + by rewrite !lookup_insert_ne.
Qed.

(** The counters since the last [reset_daily_stats]. *)
Lemma record_trades_reset (tm : Manager.TradingManager)
    (l : list (string * Q)) (ex : string) :
  let tm' := Manager.record_trades (Manager.reset_daily_stats tm) l in
  let mine := filter (λ t, t.1 = ex) l in
  Manager.config tm' = Manager.config tm ∧
  default 0%Z (Manager.daily_trades tm' !! ex) = len mine ∧
  default 0 (Manager.daily_pnl tm' !! ex) = sum (snd <$> mine).
Proof.
  intros tm' mine.
  split; [exact (record_trades_config (Manager.reset_daily_stats tm) l)|].
  destruct (record_trades_counters (Manager.reset_daily_stats tm) l ex)
    as [H1 H2].
  fold tm' mine in H1, H2. rewrite H1, H2.
  cbn [Manager.reset_daily_stats Manager.daily_trades Manager.daily_pnl].
  rewrite !lookup_empty. cbn [default]. split; [apply Z.add_0_l|done].
Qed.

(** X19.  The daily quota of an exchange.  After [reset_daily_stats] and
    any list of recorded trades, [can_place_order] allows an order on an
    exchange exactly when trading is enabled (paper or live), the exchange
    is configured and enabled, and the trades recorded on that exchange
    since the reset are fewer than [max_daily_trades]; trades recorded on
    other exchanges do not count. *)
Theorem daily_quota (tm : Manager.TradingManager) (l : list (string * Q))
    (ex : string) :
  Manager.can_place_order
    (Manager.record_trades (Manager.reset_daily_stats tm) l) ex = true
  ↔ Manager.is_trading_enabled tm = true ∧
    (∃ c, Manager.exchanges (Manager.config tm) !! ex = Some c ∧
          Manager.enabled c = true) ∧
    (len (filter (λ t, t.1 = ex) l)
     < Manager.max_daily_trades (Manager.config tm))%Z.
Proof.
  set (n := len (filter (λ t, t.1 = ex) l)).
  assert (Manager.can_place_order
            (Manager.record_trades (Manager.reset_daily_stats tm) l) ex
          = Manager.is_trading_enabled tm
            && match Manager.exchanges (Manager.config tm) !! ex with
               | Some c => Manager.enabled c
               | None => false
               end
            && (n <? Manager.max_daily_trades (Manager.config tm))%Z) as ->.
  { unfold Manager.can_place_order, Manager.is_trading_enabled.
    destruct (record_trades_reset tm l ex) as (-> & -> & _).
    fold n. rewrite Z.ltb_antisym.
    destruct (Manager.mode (Manager.config tm)); [done| |];
      destruct (Manager.exchanges (Manager.config tm) !! ex) as [c|];
      try done; by destruct (Manager.enabled c). }
  rewrite !andb_true_iff, Z.ltb_lt. split.
  - intros [[Hen Hc] Hn]. split; [done|]. split; [|done].
    destruct (Manager.exchanges (Manager.config tm) !! ex) as [c|];
      [by exists c|done].
  - intros (Hen & (c & -> & Hc) & Hn). done.
Qed.

(** With a quota of 2: after two trades on binance and one on bybit, bybit
    takes an order and binance does not. *)
Lemma daily_quota_witness :
  let cfg := Manager.mkTradingConfig PAPER_TRADING
               {[ "binance" := Manager.mkExchangeConfig true 1000 100;
                  "bybit" := Manager.mkExchangeConfig true 1000 100 ]}
               true 2 in
  let tm := Manager.mkTradingManager cfg ∅ ∅ in
  let l := [("binance", 1); ("bybit", -2); ("binance", 3)] in
  Manager.can_place_order
    (Manager.record_trades (Manager.reset_daily_stats tm) l) "bybit" = true
  ∧ Manager.can_place_order
      (Manager.record_trades (Manager.reset_daily_stats tm) l) "binance"
    = false.
Proof.
  intros cfg tm l. split.
  - apply (daily_quota tm l "bybit"). split; [reflexivity|].
    split; [|vm_compute; reflexivity].
    exists (Manager.mkExchangeConfig true 1000 100).
    split; reflexivity.
  - vm_compute. reflexivity.
Defined.

(** X20.  What [get_daily_stats] reports.  After [reset_daily_stats] and a
    list of recorded trades, the statistics have one entry for each
    configured exchange and no other: the number of the trades recorded on
    that exchange and the sum of their profits.  Trades recorded on an
    exchange that is not configured are not reported. *)
Theorem daily_stats_totals (tm : Manager.TradingManager)
    (l : list (string * Q)) (ex : string) :
  let mine := filter (λ t, t.1 = ex) l in
  Manager.get_daily_stats
    (Manager.record_trades (Manager.reset_daily_stats tm) l) !! ex
  = (λ _, (len mine, sum (snd <$> mine)))
      <$> Manager.exchanges (Manager.config tm) !! ex.
Proof.
  intros mine. unfold Manager.get_daily_stats.
  rewrite map_lookup_imap.
  destruct (record_trades_reset tm l ex) as (-> & H1 & H2).
  fold mine in H1, H2.
  destruct (Manager.exchanges (Manager.config tm) !! ex); [|done].
  simpl. by rewrite H1, H2.
Qed.

(** X21.  The risk limits.  While risk management is on, the check of an
    order on a configured exchange passes exactly when the order value is
    at most [max_position_size] and the profit recorded on the exchange is
    at least [- daily_loss_limit]; so an order value that passes lets every
    smaller one pass, and once the losses recorded since the reset exceed
    the limit every order is refused, whatever its value.  With risk
    management off every order passes. *)
Theorem risk_limits (tm : Manager.TradingManager) (l : list (string * Q))
    (ex : string) (c : Manager.ExchangeConfig) (v : Q) :
  let tm' := Manager.record_trades (Manager.reset_daily_stats tm) l in
  let losses := sum (snd <$> filter (λ t, t.1 = ex) l) in
  Manager.exchanges (Manager.config tm) !! ex = Some c →
  (Manager.risk_management (Manager.config tm) = false →
   Manager.check_risk_limits tm' ex v = true) ∧
  (Manager.risk_management (Manager.config tm) = true →
   (Manager.check_risk_limits tm' ex v = true ↔
    v <= Manager.max_position_size c ∧
    - Manager.daily_loss_limit c <= losses) ∧
   (∀ v', v' <= v → Manager.check_risk_limits tm' ex v = true →
          Manager.check_risk_limits tm' ex v' = true) ∧
   (losses < - Manager.daily_loss_limit c →
    ∀ v', Manager.check_risk_limits tm' ex v' = false)).
Proof.
  intros tm' losses Hc.
  assert (∀ x, Manager.check_risk_limits tm' ex x =
               if negb (Manager.risk_management (Manager.config tm)) then true
               else if Qltb (Manager.max_position_size c) x then false
               else if Qltb losses (- Manager.daily_loss_limit c) then false
               else true) as Hcheck.
  { intros x. unfold Manager.check_risk_limits, tm'.
    destruct (record_trades_reset tm l ex) as (-> & _ & ->).
    by rewrite Hc. }
  split.
  - intros Hoff. by rewrite Hcheck, Hoff.
  - intros Hon.
    assert (∀ x, Manager.check_risk_limits tm' ex x = true ↔
                 x <= Manager.max_position_size c ∧
                 - Manager.daily_loss_limit c <= losses) as Hiff.
    { intros x. rewrite Hcheck, Hon. simpl.
      destruct (Qltb (Manager.max_position_size c) x) eqn:E1.
      { apply Qltb_lt in E1. split; [done|]. intros [? _]. lra. }
      apply Qltb_ge in E1.
      destruct (Qltb losses (- Manager.daily_loss_limit c)) eqn:E2.
      { apply Qltb_lt in E2. split; [done|]. intros [_ ?]. lra. }
      apply Qltb_ge in E2. done. }
    split; [apply Hiff|]. split.
    + intros v' Hv'. rewrite !Hiff. intros [? ?]. split; [lra|done].
    + intros Hloss v'.
      destruct (Manager.check_risk_limits tm' ex v') eqn:E; [|done].
      apply Hiff in E as [_ ?]. lra.
Qed.

(** A loss limit of 100: after losses of 60 and 50 on binance no order
    passes there, not even one of value 1. *)
Lemma risk_limits_witness :
  let c := Manager.mkExchangeConfig true 1000 100 in
  let cfg := Manager.mkTradingConfig LIVE_TRADING {[ "binance" := c ]}
               true 50 in
  let tm := Manager.mkTradingManager cfg ∅ ∅ in
  let l := [("binance", -60); ("binance", -50)] in
  Manager.check_risk_limits
    (Manager.record_trades (Manager.reset_daily_stats tm) l) "binance" 1
  = false.
Proof.
  intros c cfg tm l.
  destruct (risk_limits tm l "binance" c 1) as [_ H]; [reflexivity|].
  destruct (H eq_refl) as (_ & _ & Hloss).
  apply Hloss. reflexivity.
Defined.

(** ** Orders on an exchange *)

Section RealOrders.

Variable place_order :
  string → string → string → string → Q → option Q
  → result RealTrading.OrderResult.

(** The two outcomes of [place_real_order]. *)
Lemma place_real_order_cases (st : RealTrading.State)
    (ex sym side_ : string) (quantity : Q) (price : option Q)
    (order_type : string) :
  let tm := RealTrading.trading_manager st in
  let out := RealTrading.place_real_order place_order st ex sym side_
               quantity price order_type in
  (RealTrading.status out.2 = "error" ∧ out.1 = st) ∨
  (RealTrading.status out.2 = "ok" ∧
   Manager.can_place_order tm ex = true ∧
   ∃ o fp fq pnl,
     place_order ex sym side_ order_type quantity price = Ok o ∧
     (RealTrading.or_status o = Some "FILLED" ∨
      RealTrading.or_status o = Some "Filled") ∧
     _update_position_on_trade (RealTrading.db st) sym side_ fp fq
       = Ok (RealTrading.db out.1, pnl) ∧
     RealTrading.trades out.1
       = RealTrading.trades st ++ [mkTrade sym side_ fp fq pnl] ∧
     RealTrading.trading_manager out.1 = Manager.record_trade tm ex pnl).
Proof.
  intros tm out. unfold out, RealTrading.place_real_order. fold tm.
  destruct (Manager.can_place_order tm ex) eqn:Hcan; [|by left].
  cbn [negb].
  destruct (negb (Manager.check_risk_limits tm ex _)); [by left|].
  destruct (Manager.exchanges (Manager.config tm) !! ex); [|by left].
  assert ((if Manager.is_live_trading tm
           then place_order ex sym side_ order_type quantity price
           else place_order ex sym side_ order_type quantity price)
          = place_order ex sym side_ order_type quantity price) as ->
    by (by destruct (Manager.is_live_trading tm)).
  destruct (place_order ex sym side_ order_type quantity price) as [o|?];
    [|by left].
  destruct (bool_decide (RealTrading.or_status o = Some "FILLED")
            || bool_decide (RealTrading.or_status o = Some "Filled"))
    eqn:Hfilled; [|by left].
  destruct (default (Ok _) (RealTrading.or_price o)) as [fp|?];
    [|by left].
  destruct (default (Ok quantity) (RealTrading.or_origQty o)) as [fq|?];
    [|by left].
  cbn [mbind result_bind].
  change (RealTrading._update_position_on_real_trade (RealTrading.db st)
            sym side_ fp fq)
    with (_update_position_on_trade (RealTrading.db st) sym side_ fp fq).
  destruct (_update_position_on_trade (RealTrading.db st) sym side_ fp fq)
    as [[db' pnl]|?] eqn:Hupd; [|by left].
  right. cbn [mbind result_bind fst snd RealTrading.status].
  split; [done|]. split; [done|].
  exists o, fp, fq, pnl. split; [done|]. split; [|done].
  apply orb_true_iff in Hfilled as [H|H]; apply bool_decide_eq_true in H;
    auto.
Qed.

(** The counter of an exchange is moved only by an order on it that is
    answered "ok", and by one. *)
Lemma place_real_order_counter (st : RealTrading.State) (o : RealTrading.Order)
    (ex : string) :
  let tm := RealTrading.trading_manager st in
  let out := RealTrading.place_real_order place_order st
               (RealTrading.o_exchange_type o) (RealTrading.o_symbol o)
               (RealTrading.o_side o) (RealTrading.o_quantity o)
               (RealTrading.o_price o) (RealTrading.o_order_type o) in
  let tm' := RealTrading.trading_manager out.1 in
  Manager.config tm' = Manager.config tm ∧
  if bool_decide (RealTrading.o_exchange_type o = ex
                  ∧ RealTrading.status out.2 = "ok")
  then (default 0 (Manager.daily_trades tm !! ex)
        < Manager.max_daily_trades (Manager.config tm))%Z ∧
       default 0%Z (Manager.daily_trades tm' !! ex)
         = (default 0 (Manager.daily_trades tm !! ex) + 1)%Z
  else Manager.daily_trades tm' !! ex = Manager.daily_trades tm !! ex.
Proof.
  intros tm out tm'.
  pose proof (place_real_order_cases st (RealTrading.o_exchange_type o)
                (RealTrading.o_symbol o) (RealTrading.o_side o)
                (RealTrading.o_quantity o) (RealTrading.o_price o)
                (RealTrading.o_order_type o)) as H.
  fold tm out in H. cbv zeta in H.
  destruct H as [[Hs Hst]|(Hs & Hcan & ox & fp & fq & pnl & _ & _ & _ & _ & Htm)].
  - unfold tm'. rewrite Hst. split; [done|].
    rewrite bool_decide_eq_false_2; [done|].
    rewrite Hs. intros [_ ?]. discriminate.
  - unfold tm'. rewrite Htm. split; [done|].
    destruct (decide (RealTrading.o_exchange_type o = ex)) as [He|He].
    + rewrite bool_decide_eq_true_2 by done. rewrite He in *.
      cbn [Manager.record_trade Manager.daily_trades Manager.config].
      rewrite lookup_insert_eq. split; [|done].
      revert Hcan. unfold Manager.can_place_order.
      destruct (negb (Manager.is_trading_enabled tm)); [done|].
      destruct (Manager.exchanges (Manager.config tm) !! ex) as [c|];
        [|done].
      destruct (negb (Manager.enabled c)); [done|].
      destruct (Z.leb_spec (Manager.max_daily_trades (Manager.config tm))
                  (default 0%Z (Manager.daily_trades tm !! ex))); [done|].
      intros _. lia.
    + rewrite bool_decide_eq_false_2 by (intros [? _]; done).
      cbn [Manager.record_trade Manager.daily_trades].
      by rewrite lookup_insert_ne.
Qed.

End RealOrders.

(** X22.  What [place_real_order] answers and does.  The ['status'] of
    its answer is "error" or "ok", never "filled".  With an error the
    tables and the counters of the manager are as they were.  With "ok" the
    manager had allowed the order, the exchange had answered FILLED or
    Filled, the position was updated by the ledger arithmetic of
    [_update_position_on_trade] for the filled price and quantity, one
    trade row carrying the realized profit was appended, and the trade was
    recorded once with the manager. *)
Theorem real_order_outcome
    (place_order : string → string → string → string → Q → option Q
                   → result RealTrading.OrderResult)
    (st : RealTrading.State)
    (ex sym side_ : string) (quantity : Q) (price : option Q)
    (order_type : string) :
  let tm := RealTrading.trading_manager st in
  let out := RealTrading.place_real_order place_order st ex sym side_
               quantity price order_type in
  RealTrading.status out.2 ≠ "filled" ∧
  ((RealTrading.status out.2 = "error" ∧ out.1 = st) ∨
   (RealTrading.status out.2 = "ok" ∧
    Manager.can_place_order tm ex = true ∧
    ∃ o fp fq pnl,
      place_order ex sym side_ order_type quantity price = Ok o ∧
      (RealTrading.or_status o = Some "FILLED" ∨
       RealTrading.or_status o = Some "Filled") ∧
      _update_position_on_trade (RealTrading.db st) sym side_ fp fq
        = Ok (RealTrading.db out.1, pnl) ∧
      RealTrading.trades out.1
        = RealTrading.trades st ++ [mkTrade sym side_ fp fq pnl] ∧
      RealTrading.trading_manager out.1 = Manager.record_trade tm ex pnl)).
Proof.
  intros tm out.
  pose proof (place_real_order_cases place_order st ex sym side_ quantity price
                order_type) as H.
  fold tm out in H. cbv zeta in H. split; [|exact H].
  destruct H as [[-> _]|[-> _]]; discriminate.
Qed.

(** X23.  Paper trading sends the order to the exchange.  With the mode
    PAPER_TRADING [place_real_order] makes the same call of the exchange
    client as with LIVE_TRADING, and what follows is the same: the rows of
    the positions and of the trades, the counters of the manager and the
    ['status'] of the answer do not depend on which of the two modes is
    configured. *)
Theorem paper_orders_reach_exchange
    (place_order : string → string → string → string → Q → option Q
                   → result RealTrading.OrderResult)
    (db : table) (trades : list Trade)
    (exchanges : gmap string Manager.ExchangeConfig) (risk : bool)
    (quota : Z) (pnls : gmap string Q) (counts : gmap string Z)
    (ex sym side_ : string) (quantity : Q) (price : option Q)
    (order_type : string) :
  let st m := RealTrading.mkState db trades
                (Manager.mkTradingManager
                   (Manager.mkTradingConfig m exchanges risk quota)
                   pnls counts) in
  let out m := RealTrading.place_real_order place_order (st m) ex sym side_
                 quantity price order_type in
  RealTrading.db (out PAPER_TRADING).1 = RealTrading.db (out LIVE_TRADING).1 ∧
  RealTrading.trades (out PAPER_TRADING).1
    = RealTrading.trades (out LIVE_TRADING).1 ∧
  Manager.daily_pnl (RealTrading.trading_manager (out PAPER_TRADING).1)
    = Manager.daily_pnl (RealTrading.trading_manager (out LIVE_TRADING).1) ∧
  Manager.daily_trades (RealTrading.trading_manager (out PAPER_TRADING).1)
    = Manager.daily_trades (RealTrading.trading_manager (out LIVE_TRADING).1)
  ∧ RealTrading.status (out PAPER_TRADING).2
    = RealTrading.status (out LIVE_TRADING).2.
Proof.
  intros st out. unfold out, st, RealTrading.place_real_order.
  cbn [RealTrading.trading_manager].
  unfold Manager.can_place_order, Manager.check_risk_limits,
    Manager.is_trading_enabled, Manager.is_live_trading.
  cbn [Manager.config Manager.mode Manager.exchanges Manager.daily_trades
       Manager.daily_pnl Manager.risk_management Manager.max_daily_trades
       negb].
  destruct (exchanges !! ex) as [c|]; [|done].
  destruct (negb (Manager.enabled c)); [done|].
  destruct (quota <=? default 0 (counts !! ex))%Z; [done|].
  destruct (if negb risk then true else _); [|done]. cbn [negb].
  destruct (place_order ex sym side_ order_type quantity price) as [o|?];
    [|done].
  destruct (bool_decide _ || bool_decide _); [|done].
  destruct (default (Ok _) (RealTrading.or_price o)) as [fp|?]; [|done].
  destruct (default (Ok quantity) (RealTrading.or_origQty o)) as [fq|?];
    [|done].
  cbn [mbind result_bind RealTrading.db].
  destruct (RealTrading._update_position_on_real_trade db sym side_ fp fq)
    as [[db' pnl]|?]; done.
Qed.

(** X24.  The daily quota holds for the orders.  In any sequence of calls
    of [place_real_order], the orders on one exchange that are answered
    "ok" are at most [max_daily_trades] less the trades that the manager
    had counted for the exchange before, and none when that is negative. *)
Theorem real_orders_quota
    (place_order : string → string → string → string → Q → option Q
                   → result RealTrading.OrderResult)
    (st : RealTrading.State)
    (orders : list RealTrading.Order) (ex : string) :
  let tm := RealTrading.trading_manager st in
  let answers := (RealTrading.place_real_orders place_order st orders).2 in
  (len (filter (λ x, RealTrading.o_exchange_type x.1 = ex
                     ∧ RealTrading.status x.2 = "ok")
               (zip orders answers))
   <= Z.max 0 (Manager.max_daily_trades (Manager.config tm)
               - default 0 (Manager.daily_trades tm !! ex)))%Z.
Proof.
  revert st. induction orders as [|o orders IH]; intros st tm answers.
  { unfold len. simpl. lia. }
  unfold answers. cbn [RealTrading.place_real_orders].
  pose proof (place_real_order_counter place_order st o ex) as H. cbv zeta in H.
  destruct (RealTrading.place_real_order place_order st
              (RealTrading.o_exchange_type o) (RealTrading.o_symbol o)
              (RealTrading.o_side o) (RealTrading.o_quantity o)
              (RealTrading.o_price o) (RealTrading.o_order_type o))
    as [st1 r] eqn:Hout.
  cbn [fst snd] in H. destruct H as [Hcfg H].
  specialize (IH st1). cbv zeta in IH.
  destruct (RealTrading.place_real_orders place_order st1 orders)
    as [st2 rs].
  cbn [fst snd zip zip_with] in *. rewrite filter_cons. cbn [fst snd].
  rewrite Hcfg in IH. fold tm in H, IH.
  destruct (decide (RealTrading.o_exchange_type o = ex
                    ∧ RealTrading.status r = "ok")) as [Hok|Hno].
  - rewrite bool_decide_eq_true_2 in H by done. destruct H as [Hlt Hinc].
    rewrite Hinc in IH. unfold len in *. simpl. lia.
  - rewrite bool_decide_eq_false_2 in H by done.
    rewrite H in IH. exact IH.
Qed.

(** X25.  The engine in paper or live mode.  When the mode is not
    SIMULATION and the price is not 0, [_open_position] hands the order
    to [place_real_order] and, whatever the answer, writes nothing itself:
    the tables are those that [place_real_order] left, no ENTRY is added
    to the log (the status "filled" that the engine waits for is never
    answered), and the daily counter of the strategy goes up by one, also
    for an order that was refused. *)
Theorem real_entry_never_logged
    (place_order : string → string → string → string → Q → option Q
                   → result RealTrading.OrderResult)
    (Perf : Type) (env : Env)
    (w : World (Perf * Manager.TradingManager)) (info : StrategyInfo)
    (side_ : string) (price : Q) (a : Analysis) :
  mode env ≠ SIMULATION → ¬ price == 0 →
  let c := si_config info in
  let quantity :=
    position_size_usd c / price * uniform env (leverage_min c) (leverage_max c)
  in
  let placed :=
    RealTrading.engine_place_real_order place_order w (exchange_type c)
      (cfg_symbol c) side_ quantity price in
  _open_position (Perf * Manager.TradingManager)
    (RealTrading.engine_place_real_order place_order) env w info side_ price a
    = (placed.1, bump info, Ok tt)
  ∧ logs placed.1 = logs w
  ∧ daily_trades (bump info) = (daily_trades info + 1)%Z.
Proof.
  intros Hmode Hprice c quantity placed.
  split; [|split; [|done]].
  - unfold _open_position. rewrite truediv_Ok by done. fold c.
    assert (∀ X (x y : X), match mode env with
                           | SIMULATION => x
                           | _ => y
                           end = y) as Hm
      by (intros; by destruct (mode env)).
    rewrite Hm. fold quantity placed.
    destruct placed as [w1 status] eqn:Hplaced.
    rewrite bool_decide_eq_false_2; [done|].
    assert (status = placed.2) as -> by (by rewrite Hplaced).
    unfold placed, RealTrading.engine_place_real_order.
    pose proof (place_real_order_cases place_order
                  (RealTrading.mkState (positions w) (trades w) (perf w).2)
                  (exchange_type c) (cfg_symbol c) side_ quantity
                  (Some price) "MARKET") as H.
    cbv zeta in H.
    destruct (RealTrading.place_real_order _ _ _ _ _ _ _ _) as [st r].
    cbn [fst snd] in *.
    destruct H as [[-> _]|[-> _]]; discriminate.
  - unfold placed, RealTrading.engine_place_real_order.
    by destruct (RealTrading.place_real_order _ _ _ _ _ _ _ _).
Qed.


(** A paper-trading engine whose exchange fills the order: the position
    is written by the service, the log stays empty, the counter is 1. *)
Lemma real_entry_never_logged_witness :
  let place_order := λ (_ _ _ _ : string) (_ : Q) (_ : option Q),
    Ok (RealTrading.mkOrderResult (Some "FILLED") None None) in
  let tm := Manager.mkTradingManager
              (Manager.mkTradingConfig PAPER_TRADING
                 {[ "binance" := Manager.mkExchangeConfig true 1000 100 ]}
                 true 50) ∅ ∅ in
  let c := mkConfig 1 "high" "HIGH" "BTCUSDT" "binance" "1m" 1 1 100
             0.7 100 2 3 in
  let info := mkInfo c (mkStrategy HIGH ∅) None 0 None in
  let env := mkEnv (mkClock 0 0) (λ _ _ _, []) (λ a _, a) PAPER_TRADING in
  let w : World (unit * Manager.TradingManager) := mkWorld ∅ [] [] (tt, tm) []
  in
  let a := mkAnalysis 0.8 "BUY" [] None in
  let out := _open_position (unit * Manager.TradingManager)
               (RealTrading.engine_place_real_order place_order)
               env w info "BUY" 100 a in
  logs out.1.1 = [] ∧ daily_trades out.1.2 = 1%Z ∧
  (side <$> get_position (positions out.1.1) "BTCUSDT") = Some (Some "BUY").
Proof.
  intros place_order tm c info env w a out.
  destruct (real_entry_never_logged place_order unit env w info "BUY" 100 a)
    as (Hout & Hlogs & Hcount); [discriminate|discriminate|].
  fold out in Hout. rewrite Hout. cbn [fst snd].
  split; [exact Hlogs|]. split; [exact Hcount|].
  vm_compute. reflexivity.
Defined.

(** ** The engine: what an exit records, what is loaded, what a pass leaves *)

(** X26.  What the engine records for an exit.  [_close_position] on a
    held position computes the profit of the whole position, empties the
    row, and then reads the side and the quantity for the trade and for the
    log from the emptied row: the trade and the EXIT entry carry the side
    BUY and the quantity 0, whatever the side and the quantity of the
    position were, together with the profit of the whole position. *)
Theorem exit_record (Perf : Type)
    (_update_performance : Z → Q → list AITradingLog → Perf → Perf)
    (w : World Perf) (info : StrategyInfo) (p : Position) (cur : Q)
    (why : string) :
  let c := si_config info in
  get_position (positions w) (cfg_symbol c) = Some p → 0 < qty p →
  let pnl := realized_on p cur (qty p) in
  let w' := _close_position Perf _update_performance w info p cur why in
  trades w' = trades w ++ [mkTrade (cfg_symbol c) "BUY" cur 0 pnl] ∧
  logs w' = logs w ++
    [mkLog (cfg_id c) "EXIT" (cfg_symbol c) (Some "BUY") (Some 0) (Some cur)
           pnl None [] None (Some [Text why])] ∧
  perf w' = _update_performance (cfg_id c) pnl (logs w') (perf w).
Proof.
  intros c Hp Hq pnl w'. unfold w', _close_position. fold c.
  destruct (close_full (positions w) (cfg_symbol c) p (qty p) Hp Hq)
    as (db' & p' & -> & Hp' & Hs & Hz); [lra|].
  rewrite Hp'. cbn [from_option id trades logs perf]. rewrite Hs, Hz.
  rewrite (bool_decide_eq_false_2 (None = Some "BUY")) by done.
  done.
Qed.

(** Sold 2 at 100 and marked at 90: the exit is recorded as a purchase of
    nothing with a profit of 20. *)
Lemma exit_record_witness :
  let p := mkPosition "BTCUSDT" (Some "SELL") 2 100 0 90 true in
  let c := mkConfig 1 "high" "HIGH" "BTCUSDT" "binance" "1m" 10 50 100
             0.7 100 2 3 in
  let info := mkInfo c (mkStrategy HIGH ∅) None 0 None in
  let w := mkWorld {[ "BTCUSDT" := p ]} [] [] tt [] in
  trades (_close_position unit (λ _ _ _ u, u) w info p 90 "TAKE_PROFIT")
    = [mkTrade "BTCUSDT" "BUY" 90 0 ((100 - 90) * 2)].
Proof.
  intros p c info w.
  destruct (exit_record unit (λ _ _ _ u, u) w info p 90 "TAKE_PROFIT")
    as (Ht & _); [reflexivity|reflexivity|].
  exact Ht.
Defined.

(** The strategies that [_load_active_strategies] keeps. *)
Lemma load_strategy_Some (c : AITradingConfig) id info :
  load_strategy c = Some (id, info) →
  id = cfg_id c ∧ si_config info = c ∧
  config (si_strategy info) = strategy_config c ∧
  (upper (risk_level c) = "HIGH" ∧ kind (si_strategy info) = HIGH ∨
   upper (risk_level c) = "MEDIUM" ∧ kind (si_strategy info) = MEDIUM ∨
   upper (risk_level c) = "LOW" ∧ kind (si_strategy info) = LOW) ∧
  last_analysis info = None ∧ daily_trades info = 0%Z ∧
  last_trade_date info = None.
Proof.
  unfold load_strategy, create_strategy.
  repeat case_match; try discriminate; intros [= <- <-]; simplify_eq;
    cbn; repeat split; auto.
Qed.

(** X27.  The strategies of the engine.  [_load_active_strategies] keeps,
    in their order, the configurations whose risk level is HIGH, MEDIUM or
    LOW in any case of the letters, and skips the others; each strategy
    starts with no analysis, a daily counter of 0 and no date.  The
    threshold of a loaded strategy is the [confidence_threshold] of its
    configuration, never the default of its class; so every BUY or SELL
    that [analyze_market] returns for it has a confidence of at least that
    threshold, and the test of the confidence in [_process_strategy]
    refuses none of them. *)
Theorem loaded_strategies (np_std : list Q → Q)
    (configs : list AITradingConfig) :
  (si_config ∘ snd) <$> _load_active_strategies configs
    = filter (λ c, upper (risk_level c) ∈ ["HIGH"; "MEDIUM"; "LOW"]) configs ∧
  Forall (λ x,
    x.1 = cfg_id (si_config x.2) ∧
    last_analysis x.2 = None ∧ daily_trades x.2 = 0%Z ∧
    last_trade_date x.2 = None ∧
    threshold (si_strategy x.2) = confidence_threshold (si_config x.2) ∧
    ∀ candles a,
      analyze_market np_std (si_strategy x.2) candles = Ok a →
      signal a = "BUY" ∨ signal a = "SELL" →
      Qle_bool (confidence_threshold (si_config x.2)) (confidence a) = true)
    (_load_active_strategies configs).
Proof.
  unfold _load_active_strategies. split.
  - induction configs as [|c configs IH]; [done|].
    cbn [omap list_omap]. rewrite filter_cons.
    destruct (load_strategy c) as [[id info]|] eqn:Hl.
    + apply load_strategy_Some in Hl as (_ & Hc & _ & Hk & _).
      rewrite decide_True.
      2:{ rewrite !elem_of_cons.
          destruct Hk as [[-> _]|[[-> _]|[-> _]]]; auto. }
      cbn [fmap list_fmap compose snd]. rewrite Hc. f_equal. exact IH.
    + rewrite decide_False; [exact IH|].
      rewrite !elem_of_cons, elem_of_nil. intros Hin.
      unfold load_strategy, create_strategy in Hl.
      destruct (decide (upper (risk_level c) = "HIGH")); [done|].
      destruct (decide (upper (risk_level c) = "MEDIUM")); [done|].
      destruct (decide (upper (risk_level c) = "LOW")); [done|].
      tauto.
  - apply Forall_forall. intros [id info] Hin.
    apply list_elem_of_omap in Hin as (c & _ & Hl).
    apply load_strategy_Some in Hl as (-> & Hc & Hcfg & _ & Ha & Hd & Hdate).
    cbn [fst snd].
    assert (threshold (si_strategy info)
            = confidence_threshold (si_config info)) as Hth.
    { unfold threshold. rewrite Hcfg, Hc. unfold strategy_config.
      by rewrite lookup_insert_eq. }
    repeat split; try done; try congruence.
    intros candles a Han Hsig.
    destruct (Z.ltb_spec (len candles) 50) as [Hshort|Hlong].
    + unfold analyze_market in Han.
      apply Z.ltb_lt in Hshort. rewrite Hshort in Han.
      injection Han as <-. by destruct Hsig.
    + destruct (analyze_market_decision np_std (si_strategy info) candles a)
        as (ind & v & _ & _ & _ & Hb & Hs & _);
        [unfold len in Hlong; lia|done|].
      rewrite Hth in Hb, Hs. apply Qle_bool_iff.
      destruct Hsig as [H|H]; [apply Hb in H|apply Hs in H]; tauto.
Qed.

(** *** One pass in simulation *)

Section Pass.

Variable np_std : list Q → Q.
Variable Perf : Type.
Variable _update_performance : Z → Q → list AITradingLog → Perf → Perf.
Variable place_real_order :
  World Perf → string → string → string → Q → Q → World Perf * string.

Lemma _open_position_frame env w info side_ price a k :
  mode env = SIMULATION → k ≠ upper (cfg_symbol (si_config info)) →
  ∃ w' info' r,
    _open_position Perf place_real_order env w info side_ price a
      = (w', info', r) ∧
    si_config info' = si_config info ∧
    si_strategy info' = si_strategy info ∧
    positions w' !! k = positions w !! k ∧
    trades w `prefix_of` trades w' ∧ logs w `prefix_of` logs w'.
Proof.
  intros Hm Hk. unfold _open_position.
  destruct (truediv _ _) as [quantity|e]; [|by eauto 10].
  rewrite Hm.
  destruct (create_or_update_position _ _ _ _ _ _) as [[tbl p]|e] eqn:Hc;
    [|by eauto 10].
  eexists _, _, _. split; [done|]. cbn.
  split; [done|]. split; [done|].
  split; [by eapply create_or_update_position_frame|].
  split; by apply prefix_app_r.
Qed.

Lemma _process_trading_signal_frame env w info a candle k :
  mode env = SIMULATION → k ≠ upper (cfg_symbol (si_config info)) →
  ∃ w' info' r,
    _process_trading_signal Perf place_real_order env w info a candle
      = (w', info', r) ∧
    si_config info' = si_config info ∧
    si_strategy info' = si_strategy info ∧
    positions w' !! k = positions w !! k ∧
    trades w `prefix_of` trades w' ∧ logs w `prefix_of` logs w'.
Proof.
  intros Hm Hk. unfold _process_trading_signal.
  repeat case_match;
    try (by apply _open_position_frame);
    eexists _, _, _; (split; [done|]); done.
Qed.

Lemma _process_strategy_frame env w info k :
  mode env = SIMULATION → k ≠ upper (cfg_symbol (si_config info)) →
  ∃ w' info' r,
    _process_strategy np_std Perf place_real_order env w info
      = (w', info', r) ∧
    si_config info' = si_config info ∧
    si_strategy info' = si_strategy info ∧
    positions w' !! k = positions w !! k ∧
    trades w `prefix_of` trades w' ∧ logs w `prefix_of` logs w'.
Proof.
  intros Hm Hk. unfold _process_strategy.
  assert (si_config (roll (date_today (clock env)) info) = si_config info
          ∧ si_strategy (roll (date_today (clock env)) info)
            = si_strategy info) as [Hc Hs]
    by (unfold roll; by case_match).
  destruct (max_daily_trades (si_config info) <=? _)%Z;
    [by eexists _, _, _|].
  case_match; [by eexists _, _, _|].
  destruct (analyze_market _ _ _) as [a|e]; [|by eexists _, _, _].
  case_match.
  2:{ eexists _, _, _. split; [done|]. cbn.
      repeat split; try done. by apply prefix_app_r. }
  destruct (getitem _ _) as [candle|e].
  2:{ eexists _, _, _. split; [done|]. cbn.
      repeat split; try done. by apply prefix_app_r. }
  match goal with |- context [_process_trading_signal _ _ _ ?w0 ?i0 _ _] =>
    destruct (_process_trading_signal_frame env w0 i0 a candle k Hm)
      as (w' & info' & r & -> & Hc' & Hs' & Hp' & Ht' & Hl');
      [by rewrite Hc|] end.
  eexists _, _, _. split; [done|]. cbn in *.
  split; [congruence|]. split; [congruence|]. split; [done|].
  split; [done|].
  etrans; [|exact Hl']. by apply prefix_app_r.
Qed.

Lemma _process_strategies_frame env w active k :
  mode env = SIMULATION →
  Forall (λ x, upper (cfg_symbol (si_config x.2)) ≠ k) active →
  let out := _process_strategies np_std Perf place_real_order env w active in
  (λ x, (x.1, si_config x.2, si_strategy x.2)) <$> out.2
    = (λ x, (x.1, si_config x.2, si_strategy x.2)) <$> active ∧
  positions out.1 !! k = positions w !! k ∧
  trades w `prefix_of` trades out.1 ∧ logs w `prefix_of` logs out.1.
Proof.
  intros Hm Hact. revert w.
  induction Hact as [|[id info] active Hk _ IH]; intros w; [done|].
  cbn [_process_strategies].
  destruct (_process_strategy_frame env w info k Hm)
    as (w1 & info1 & r & -> & Hc & Hs & Hp & Ht & Hl); [by cbn in Hk|].
  specialize (IH w1). cbv zeta in IH.
  destruct (_process_strategies np_std Perf place_real_order env w1 active)
    as [w2 rest].
  cbn [fst snd] in *. destruct IH as (Hids & Hp2 & Ht2 & Hl2).
  split; [cbn; by rewrite Hc, Hs, Hids|].
  split; [congruence|]. split; by etrans.
Qed.

Lemma check_exit_frame w info k :
  k ≠ upper (cfg_symbol (si_config info)) →
  let out := check_exit Perf _update_performance w info in
  positions out.1 !! k = positions w !! k ∧
  trades w `prefix_of` trades out.1 ∧ logs w `prefix_of` logs out.1.
Proof.
  intros Hk. unfold check_exit.
  destruct (get_position _ _) as [p|]; [|done].
  destruct (Qeq_bool (qty p) 0); [done|].
  destruct (pnl_pct p) as [pct|e]; [|done].
  destruct (exit_reason _ pct) as [why|]; [|done].
  cbn [fst]. unfold _close_position.
  destruct (close_position _ _ _) as [tbl o] eqn:Hc. cbn.
  split; [by eapply close_position_frame|].
  split; by apply prefix_app_r.
Qed.

Lemma check_exit_conditions_frame w active k :
  Forall (λ x : Z * StrategyInfo,
            upper (cfg_symbol (si_config x.2)) ≠ k) active →
  let out := check_exit_conditions Perf _update_performance w active in
  positions out.1 !! k = positions w !! k ∧
  trades w `prefix_of` trades out.1 ∧ logs w `prefix_of` logs out.1.
Proof.
  intros Hact. revert w.
  induction Hact as [|[id info] active Hk _ IH]; intros w; [done|].
  cbn [check_exit_conditions].
  pose proof (check_exit_frame w info k) as H. cbv zeta in H.
  destruct (check_exit Perf _update_performance w info) as [w1 [[]|e]];
    cbn [fst snd] in *.
  - destruct H as (Hp & Ht & Hl); [by cbn in Hk|].
    specialize (IH w1). cbv zeta in IH. destruct IH as (Hp2 & Ht2 & Hl2).
    split; [congruence|]. split; by etrans.
  - apply H. by cbn in Hk.
Qed.

End Pass.

(** X28.  What one pass of the loop leaves alone, in simulation.  A pass
    ([_process_strategies], then [check_exit_conditions]) keeps the
    strategies in their order with their identifiers, configurations and
    strategy objects; it writes no row of the table of the positions but
    those of the symbols of the strategies; and it only adds to the
    trades and to the log. *)
Theorem pass_frame (np_std : list Q → Q) (Perf : Type)
    (_update_performance : Z → Q → list AITradingLog → Perf → Perf)
    (place_real_order :
       World Perf → string → string → string → Q → Q → World Perf * string)
    (env : Env) (w : World Perf) (active : list (Z * StrategyInfo))
    (k : string) :
  mode env = SIMULATION →
  Forall (λ x, upper (cfg_symbol (si_config x.2)) ≠ k) active →
  let out := tick np_std Perf _update_performance place_real_order env w
               active in
  (λ x, (x.1, si_config x.2, si_strategy x.2)) <$> out.2
    = (λ x, (x.1, si_config x.2, si_strategy x.2)) <$> active ∧
  positions out.1 !! k = positions w !! k ∧
  trades w `prefix_of` trades out.1 ∧ logs w `prefix_of` logs out.1.
Proof.
  intros Hm Hact. unfold tick.
  pose proof (_process_strategies_frame np_std Perf place_real_order env w
                active k Hm Hact) as H1. cbv zeta in H1.
  destruct (_process_strategies np_std Perf place_real_order env w active)
    as [w1 active1].
  cbn [fst snd] in H1. destruct H1 as (Hids & Hp & Ht & Hl).
  assert (Forall (λ x : Z * StrategyInfo,
                    upper (cfg_symbol (si_config x.2)) ≠ k) active1)
    as Hact1.
  { apply Forall_forall. intros x Hx.
    apply (list_elem_of_fmap_2 (λ x, (x.1, si_config x.2, si_strategy x.2)))
      in Hx.
    rewrite Hids in Hx. apply list_elem_of_fmap in Hx as (y & Hy & Hin).
    rewrite Forall_forall in Hact. specialize (Hact y Hin).
    injection Hy as _ Hy _. by rewrite Hy. }
  pose proof (check_exit_conditions_frame Perf _update_performance w1
                active1 k Hact1) as H2. cbv zeta in H2.
  destruct (check_exit_conditions Perf _update_performance w1 active1)
    as [w2 r].
  cbn [fst snd] in *. destruct H2 as (Hp2 & Ht2 & Hl2).
  split; [done|]. split; [congruence|]. split; by etrans.
Qed.

(** A strategy on BTCUSDT whose position is at its take-profit, and a row
    of ETHUSDT: the pass closes the one and leaves the other. *)
Lemma pass_frame_witness :
  let p := mkPosition "BTCUSDT" (Some "BUY") 1 100 0 110 true in
  let q := mkPosition "ETHUSDT" (Some "BUY") 3 10 0 10 true in
  let c := mkConfig 1 "high" "HIGH" "BTCUSDT" "binance" "1m" 10 50 100
             0.7 100 2 3 in
  let info := mkInfo c (mkStrategy HIGH ∅) None 0 None in
  let env := mkEnv (mkClock 0 0) (λ _ _ _, []) (λ a _, a) SIMULATION in
  let w := mkWorld {[ "BTCUSDT" := p; "ETHUSDT" := q ]} [] [] tt [] in
  let out := tick (λ _, 0) unit (λ _ _ _ u, u) (λ w _ _ _ _ _, (w, "error"))
               env w [(1%Z, info)] in
  positions out.1 !! "ETHUSDT" = Some q ∧
  (qty <$> positions out.1 !! "BTCUSDT") = Some 0.
Proof.
  intros p q c info env w out.
  destruct (pass_frame (λ _, 0) unit (λ _ _ _ u, u)
              (λ w _ _ _ _ _, (w, "error")) env w [(1%Z, info)] "ETHUSDT")
    as (_ & Hp & _); [reflexivity|by repeat constructor|].
  fold out in Hp. split; [rewrite Hp; reflexivity|].
  vm_compute. reflexivity.
Defined.

(** ** The confidence of an analysis *)

Lemma vote_well_formed lo hi s w v :
  lo <= w ∧ w <= hi → Voting.well_formed lo hi v →
  Voting.well_formed lo hi (vote s w v).
Proof.
  intros Hw [Hlen Hall]. split; cbn.
  - rewrite !length_app. simpl. lia.
  - apply Forall_app. split; [done|]. by apply Forall_singleton.
Qed.

Lemma buy_elif_sell_well_formed lo hi a b w v v' :
  buy_elif_sell a b w v = Ok v' → lo <= w ∧ w <= hi →
  Voting.well_formed lo hi v → Voting.well_formed lo hi v'.
Proof.
  unfold buy_elif_sell. intros H Hw Hv.
  apply bind_Ok in H as ([] & _ & H).
  - injection H as <-. by apply vote_well_formed.
  - apply bind_Ok in H as ([] & _ & H); injection H as <-;
      [by apply vote_well_formed|done].
Qed.

(** A sub-rule: the tests are taken apart down to the vote. *)
Ltac sub_rule lo hi :=
  intros H Hv;
  repeat match type of H with
         | (if ?c then _ else _) = Ok _ => destruct c
         | (_ ≫= _) = Ok _ =>
             let x := fresh "x" in
             let Hx := fresh "Hx" in
             apply bind_Ok in H as (x & Hx & H)
         end;
  first
    [ injection H as <-; first [exact Hv | apply vote_well_formed; [lra|exact Hv]]
    | apply (buy_elif_sell_well_formed lo hi) in H; [exact H|lra|exact Hv] ].

Lemma high_rules_well_formed ind v :
  HighRisk.rules ind = Ok v → Voting.well_formed 0.3 0.8 v.
Proof.
  unfold HighRisk.rules. intros H.
  assert (Voting.well_formed 0.3 0.8 no_votes) as H0
    by (split; [done|constructor]).
  apply bind_Ok in H as (v1 & H1 & H).
  apply bind_Ok in H as (v2 & H2 & H).
  apply bind_Ok in H as (v3 & H3 & H).
  apply bind_Ok in H as (v4 & H4 & H).
  apply bind_Ok in H as (v5 & H5 & H).
  apply bind_Ok in H as (v6 & H6 & H).
  apply bind_Ok in H as (v7 & H7 & H8).
  assert (Voting.well_formed 0.3 0.8 v1) as W1.
  { revert H1 H0. unfold HighRisk.rule1. sub_rule 0.3 0.8. }
  assert (Voting.well_formed 0.3 0.8 v2) as W2.
  { revert H2 W1. unfold HighRisk.rule2. sub_rule 0.3 0.8. }
  assert (Voting.well_formed 0.3 0.8 v3) as W3.
  { revert H3 W2. unfold HighRisk.rule3. sub_rule 0.3 0.8. }
  assert (Voting.well_formed 0.3 0.8 v4) as W4.
  { revert H4 W3. unfold HighRisk.rule4. sub_rule 0.3 0.8. }
  assert (Voting.well_formed 0.3 0.8 v5) as W5.
  { revert H5 W4. unfold HighRisk.rule5. sub_rule 0.3 0.8. }
  assert (Voting.well_formed 0.3 0.8 v6) as W6.
  { revert H6 W5. unfold HighRisk.rule6. sub_rule 0.3 0.8. }
  assert (Voting.well_formed 0.3 0.8 v7) as W7.
  { revert H7 W6. unfold HighRisk.rule7. sub_rule 0.3 0.8. }
  revert H8 W7. unfold HighRisk.rule8. sub_rule 0.3 0.8.
Qed.

Lemma medium_rules_well_formed ind v :
  MediumRisk.rules ind = Ok v → Voting.well_formed 0.6 0.8 v.
Proof.
  unfold MediumRisk.rules. intros H.
  assert (Voting.well_formed 0.6 0.8 no_votes) as H0
    by (split; [done|constructor]).
  apply bind_Ok in H as (v1 & H1 & H).
  apply bind_Ok in H as (v2 & H2 & H).
  apply bind_Ok in H as (v3 & H3 & H).
  apply bind_Ok in H as (v4 & H4 & H).
  apply bind_Ok in H as (v5 & H5 & H).
  apply bind_Ok in H as (v6 & H6 & H).
  apply bind_Ok in H as (v7 & H7 & H8).
  assert (Voting.well_formed 0.6 0.8 v1) as W1.
  { revert H1 H0. unfold MediumRisk.rule1. sub_rule 0.6 0.8. }
  assert (Voting.well_formed 0.6 0.8 v2) as W2.
  { revert H2 W1. unfold MediumRisk.rule2. sub_rule 0.6 0.8. }
  assert (Voting.well_formed 0.6 0.8 v3) as W3.
  { revert H3 W2. unfold MediumRisk.rule3. sub_rule 0.6 0.8. }
  assert (Voting.well_formed 0.6 0.8 v4) as W4.
  { revert H4 W3. unfold MediumRisk.rule4. sub_rule 0.6 0.8. }
  assert (Voting.well_formed 0.6 0.8 v5) as W5.
  { revert H5 W4. unfold MediumRisk.rule5. sub_rule 0.6 0.8. }
  assert (Voting.well_formed 0.6 0.8 v6) as W6.
  { revert H6 W5. unfold MediumRisk.rule6. sub_rule 0.6 0.8. }
  assert (Voting.well_formed 0.6 0.8 v7) as W7.
  { revert H7 W6. unfold MediumRisk.rule7. sub_rule 0.6 0.8. }
  revert H8 W7. unfold MediumRisk.rule8. sub_rule 0.6 0.8.
Qed.

Lemma low_rules_well_formed ind v :
  LowRisk.rules ind = Ok v → Voting.well_formed 0.5 0.9 v.
Proof.
  unfold LowRisk.rules. intros H.
  assert (Voting.well_formed 0.5 0.9 no_votes) as H0
    by (split; [done|constructor]).
  apply bind_Ok in H as (v1 & H1 & H).
  apply bind_Ok in H as (v2 & H2 & H).
  apply bind_Ok in H as (v3 & H3 & H).
  apply bind_Ok in H as (v4 & H4 & H).
  apply bind_Ok in H as (v5 & H5 & H).
  apply bind_Ok in H as (v6 & H6 & H).
  apply bind_Ok in H as (v7 & H7 & H8).
  assert (Voting.well_formed 0.5 0.9 v1) as W1.
  { revert H1 H0. unfold LowRisk.rule1. sub_rule 0.5 0.9. }
  assert (Voting.well_formed 0.5 0.9 v2) as W2.
  { revert H2 W1. unfold LowRisk.rule2. sub_rule 0.5 0.9. }
  assert (Voting.well_formed 0.5 0.9 v3) as W3.
  { revert H3 W2. unfold LowRisk.rule3. sub_rule 0.5 0.9. }
  assert (Voting.well_formed 0.5 0.9 v4) as W4.
  { revert H4 W3. unfold LowRisk.rule4. sub_rule 0.5 0.9. }
  assert (Voting.well_formed 0.5 0.9 v5) as W5.
  { revert H5 W4. unfold LowRisk.rule5. sub_rule 0.5 0.9. }
  assert (Voting.well_formed 0.5 0.9 v6) as W6.
  { revert H6 W5. unfold LowRisk.rule6. sub_rule 0.5 0.9. }
  assert (Voting.well_formed 0.5 0.9 v7) as W7.
  { revert H7 W6. unfold LowRisk.rule7. sub_rule 0.5 0.9. }
  revert H8 W7. unfold LowRisk.rule8. sub_rule 0.5 0.9.
Qed.

Lemma rules_well_formed k ind v :
  rules k ind = Ok v →
  Voting.well_formed (Voting.weights k).1 (Voting.weights k).2 v.
Proof.
  destruct k; cbn.
  - apply high_rules_well_formed.
  - apply medium_rules_well_formed.
  - apply low_rules_well_formed.
Qed.

(** The sum of weights between two bounds. *)
Lemma sum_between lo hi (l : list Q) :
  Forall (λ w, lo <= w ∧ w <= hi) l →
  lo * inject_Z (len l) <= sum l ∧ sum l <= hi * inject_Z (len l).
Proof.
  induction 1 as [|x l [Hlo Hhi] _ [IH1 IH2]].
  - change (inject_Z (len (@nil Q))) with 0. change (sum []) with 0. lra.
  - rewrite sum_cons.
    assert (inject_Z (len (x :: l)) == 1 + inject_Z (len l)) as ->.
    { unfold len. simpl length. rewrite Nat2Z.inj_succ, <- Z.add_1_l.
      by rewrite inject_Z_plus. }
    remember (inject_Z (len l)) as n eqn:Hn. clear Hn.
    assert (lo * (1 + n) == lo + lo * n) as -> by ring.
    assert (hi * (1 + n) == hi + hi * n) as -> by ring.
    remember (lo * n) as a eqn:E1. remember (hi * n) as b eqn:E2.
    clear E1 E2. lra.
Qed.

(** The mean of the weights of well-formed votes. *)
Lemma avg_confidence_between lo hi v avg :
  Voting.well_formed lo hi v →
  avg_confidence (confidence_scores v) = Ok avg →
  (signals v = [] ∧ avg = 0) ∨ (signals v ≠ [] ∧ lo <= avg ∧ avg <= hi).
Proof.
  intros [Hlen Hall] Havg.
  destruct (avg_confidence_mean (confidence_scores v))
    as (avg' & Havg' & Hnil & Hcons).
  rewrite Havg in Havg'. injection Havg' as <-.
  destruct (confidence_scores v) as [|x l] eqn:Hsc.
  - left. split; [|by apply Hnil].
    by destruct (signals v).
  - right. split; [by destruct (signals v)|].
    rewrite Hcons by done.
    destruct (sum_between lo hi (x :: l) Hall) as [H1 H2].
    assert (0 < inject_Z (len (x :: l))) as Hpos.
    { unfold len. simpl length. rewrite <- (Zlt_Qlt 0). lia. }
    split.
    + apply Qle_shift_div_l; [done|]. exact H1.
    + apply Qle_shift_div_r; [done|]. exact H2.
Qed.

Lemma count_nil s : count s [] = 0%Z.
Proof. done. Qed.



(** ** Orders of the multi-symbol service *)

(** X30.  Which orders the multi-symbol service takes.  The symbol is
    compared in upper case.  After [add_symbol] with the default
    exchanges, an order on the symbol that names no exchange is placed on
    binance: the position is updated by [_update_position_on_trade] and one
    trade row with the realized profit is appended (an error of the ledger
    is raised to the caller).  An order that names an exchange outside the
    list of the symbol, and every order on the symbol after
    [remove_symbol], is answered with an error and leaves the tables as
    they were.  [remove_symbol] tells whether the symbol was active, and
    the symbols that have a list of exchanges stay the active ones. *)
Theorem multi_symbol_orders (s : MultiSymbol.MultiSymbolService)
    (db : table) (trades : list Trade) (sym sym' side_ e : string)
    (quantity price : Q) (exchange_type : option string) :
  upper sym' = upper sym →
  let added := (MultiSymbol.add_symbol s sym None).1 in
  let removed := (MultiSymbol.remove_symbol s sym).1 in
  MultiSymbol.place_multi_symbol_order added db trades sym' side_ quantity
    price None
  = ('(db', pnl) ← _update_position_on_trade db (upper sym) side_ price
                      quantity;
     Ok (db', trades ++ [mkTrade (upper sym) side_ price quantity pnl],
         MultiSymbol.Placed (upper sym) "binance" side_ price quantity pnl))
  ∧ (e ≠ EmptyString → e ≠ "binance" → e ≠ "bybit" →
     ∃ m, MultiSymbol.place_multi_symbol_order added db trades sym' side_
            quantity price (Some e)
          = Ok (db, trades, MultiSymbol.OrderError m))
  ∧ (∃ m, MultiSymbol.place_multi_symbol_order removed db trades sym' side_
            quantity price exchange_type
          = Ok (db, trades, MultiSymbol.OrderError m))
  ∧ ((MultiSymbol.remove_symbol s sym).2 = true
     ↔ upper sym ∈ MultiSymbol.active_symbols s)
  ∧ (dom (MultiSymbol.symbol_exchanges s) = MultiSymbol.active_symbols s →
     dom (MultiSymbol.symbol_exchanges added) = MultiSymbol.active_symbols added
     ∧ dom (MultiSymbol.symbol_exchanges removed)
       = MultiSymbol.active_symbols removed).
Proof.
  intros Hsym added removed.
  split; [|split; [|split; [|split]]].
  - unfold MultiSymbol.place_multi_symbol_order. rewrite Hsym.
    unfold added. cbn [MultiSymbol.add_symbol fst
                       MultiSymbol.active_symbols
                       MultiSymbol.symbol_exchanges].
    rewrite decide_True by set_solver.
    rewrite lookup_insert_eq. cbn [default from_option id].
    by destruct (_update_position_on_trade db (upper sym) side_ price
                   quantity) as [[db' pnl]|].
  - intros He Hb1 Hb2. unfold MultiSymbol.place_multi_symbol_order.
    rewrite Hsym. unfold added.
    cbn [MultiSymbol.add_symbol fst MultiSymbol.active_symbols
         MultiSymbol.symbol_exchanges].
    rewrite decide_True by set_solver.
    rewrite lookup_insert_eq. cbn [default from_option id].
    assert (nonempty e = true) as ->.
    { unfold nonempty. destruct (String.eqb_spec e EmptyString); done. }
    rewrite decide_False; [by eexists|].
    rewrite !elem_of_cons, elem_of_nil. tauto.
  - unfold MultiSymbol.place_multi_symbol_order. rewrite Hsym.
    unfold removed, MultiSymbol.remove_symbol.
    destruct (decide (upper sym ∈ MultiSymbol.active_symbols s)) as [Hin|Hin].
    + cbn [fst MultiSymbol.active_symbols].
      rewrite decide_False; [by eexists|].
      rewrite elem_of_difference, elem_of_singleton. tauto.
    + cbn [fst]. rewrite decide_False by done. by eexists.
  - unfold MultiSymbol.remove_symbol.
    destruct (decide (upper sym ∈ MultiSymbol.active_symbols s)); cbn;
      split; done.
  - intros Hdom. split.
    + unfold added. cbn. rewrite dom_insert_L, Hdom. done.
    + unfold removed, MultiSymbol.remove_symbol.
      destruct (decide (upper sym ∈ MultiSymbol.active_symbols s));
        [|done].
      cbn. by rewrite dom_delete_L, Hdom.
Qed.

(** A service with btcusdt added: a purchase of 2 at 100 is placed on
    binance and opens the position. *)
Lemma multi_symbol_orders_witness :
  let s := MultiSymbol.mkService ∅ ∅ in
  let added := (MultiSymbol.add_symbol s "btcusdt" None).1 in
  ∃ db',
    MultiSymbol.place_multi_symbol_order added ∅ [] "BtcUsdt" "BUY" 2 100 None
    = Ok (db', [mkTrade "BTCUSDT" "BUY" 100 2 0],
          MultiSymbol.Placed "BTCUSDT" "binance" "BUY" 100 2 0)
    ∧ (qty <$> get_position db' "BTCUSDT") = Some 2.
Proof.
  intros s added.
  destruct (multi_symbol_orders s ∅ [] "btcusdt" "BtcUsdt" "BUY" "okx" 2 100
              None) as (H & _); [reflexivity|].
  fold added in H. eexists. split; [rewrite H; reflexivity|].
  vm_compute. reflexivity.
Defined.
